(** * OpenClaw gateway client: connection lifecycle and RPC correlation

    A shallow embedding of [src/lib/openclaw/client.ts] (class
    [OpenClawClient]).  The class is an event-driven object: its methods
    and the callbacks it installs on the socket and on timers all run to
    completion on one thread and mutate the fields of [this].  The
    embedding therefore threads one [state] value through every function.
    The state holds the fields of the class together with the pieces of
    the JavaScript host that the code talks to: the sockets it created,
    the timers it armed, the promises it handed out and the events it
    emitted.

    What the host does on its own (a socket opens, a frame arrives, a
    timer expires) and what the owner of the client does (calls
    [connect], [call], [disconnect], ...) are the constructors of
    [event]; [step] runs the code that the event triggers.

    [console.log] and [console.error] have no effect on the client and
    are left out.  Subscribers of the emitter are code outside the class:
    an [emit] is recorded in the [emitted] log, and subscribers are
    assumed not to call back into the client while the emitting handler
    is still running. *)

From Stdlib Require Import ZArith String List Bool Lia.
From stdpp Require Import base option list gmap strings pretty.
Import ListNotations.
Open Scope string_scope.

(** ** Values received from the wire

    [JSON.parse] yields a JSON value.  Numbers are kept to the integers
    (a JSON number with a fractional part does not occur in the frames of
    this protocol).  An object keeps its members in source order;
    [JSON.parse] lets a later duplicate key win. *)

#[local] Set Warnings "-register-all".

Inductive json :=
| JNull
| JBool (b : bool)
| JNum (n : Z)
| JStr (s : string)
| JArr (items : list json)
| JObj (members : list (string * json)).

(** A JavaScript value as the code sees it after a property access:
    [None] is [undefined]. *)
Definition jsval := option json.

Fixpoint member (k : string) (ms : list (string * json)) : jsval :=
  match ms with
  | [] => None
  | (k', v) :: rest =>
      match member k rest with
      | Some w => Some w
      | None => if String.eqb k k' then Some v else None
      end
  end.

(** [data.k] for a non-null [data].  The names the code reads ([type],
    [event], [id], [ok], [error], [payload], [result], [method],
    [params], [message]) are properties of no primitive wrapper and of
    no array, so only an object can answer. *)
Definition prop (k : string) (data : json) : jsval :=
  match data with
  | JObj ms => member k ms
  | _ => None
  end.

(** [v.k] where [v] may be [undefined] but was tested truthy before. *)
Definition prop_of (k : string) (v : jsval) : jsval :=
  match v with
  | Some d => prop k d
  | None => None
  end.

(** ToBoolean. *)
Definition truthy (v : jsval) : bool :=
  match v with
  | None => false
  | Some JNull => false
  | Some (JBool b) => b
  | Some (JNum n) => negb (Z.eqb n 0)
  | Some (JStr s) => negb (String.eqb s "")
  | Some (JArr _) => true
  | Some (JObj _) => true
  end.

(** [v === 'lit'] for a string literal. *)
Definition is_str (v : jsval) (lit : string) : bool :=
  match v with
  | Some (JStr s) => String.eqb s lit
  | _ => false
  end.

(** [v === false]. *)
Definition is_false (v : jsval) : bool :=
  match v with
  | Some (JBool false) => true
  | _ => false
  end.

(** [v !== undefined]. *)
Definition defined (v : jsval) : bool :=
  match v with
  | Some _ => true
  | None => false
  end.

(** ** Numbers

    [JSON.parse] reads a number as the IEEE 754 double nearest to the
    literal, and ToString prints a double with the fewest digits that
    read back as the same double (Number::toString, with the choice of
    the closest such decimal that the engines make). *)

Open Scope Z_scope.

(** The double nearest to the integer [n >= 0], ties going to the even
    significand of 53 bits; [None] is [Infinity]. *)
Definition nearest_double (n : Z) : option Z :=
  if n <? 2 ^ 53 then Some n
  else
    let e := Z.log2 n - 52 in
    let q := Z.shiftr n e in
    let r := n - Z.shiftl q e in
    let half := Z.shiftl 1 (e - 1) in
    let q' := if (half <? r) || ((r =? half) && Z.odd q) then q + 1 else q in
    let v := Z.shiftl q' e in
    if 2 ^ 1024 <=? v then None else Some v.

Definition reads_as (c v : Z) : bool :=
  match nearest_double c with
  | Some w => w =? v
  | None => false
  end.

(** The number of decimal digits of [c >= 0]. *)
Definition digits (c : Z) : Z := Z.of_nat (String.length (pretty c)).

(** The decimal of [k], [k + 1], ... significant digits that reads as the
    double [v]: the first [k] that has one, and of the two candidates
    around [v] the closer one (the even one when both are as close).
    Seventeen digits identify any double. *)
Fixpoint shortest (fuel : nat) (k : Z) (v : Z) : Z :=
  match fuel with
  | O => v
  | S fuel' =>
      if digits v <=? k then v
      else
        let scale := 10 ^ (digits v - k) in
        let lo := v / scale * scale in
        let hi := lo + scale in
        match reads_as lo v, reads_as hi v with
        | true, true =>
            if v - lo <? hi - v then lo
            else if hi - v <? v - lo then hi
            else if Z.even (lo / scale) then lo else hi
        | true, false => lo
        | false, true => hi
        | false, false => shortest fuel' (k + 1) v
        end
  end.

Fixpoint strip_zeros (fuel : nat) (c : Z) : Z :=
  match fuel with
  | O => c
  | S fuel' => if c mod 10 =? 0 then strip_zeros fuel' (c / 10) else c
  end.

(** Number::toString of the double read from the integer literal [n]:
    up to 21 digits are written out, a longer number is written with an
    exponent. *)
Definition number_to_string (n : Z) : string :=
  let sign := if n <? 0 then "-" else "" in
  match nearest_double (Z.abs n) with
  | None => sign ++ "Infinity"
  | Some v =>
      if v <? 2 ^ 53 then pretty n
      else
        let c := shortest 17 1 v in
        if digits c <=? 21 then sign ++ pretty c
        else
          let mantissa :=
            match pretty (strip_zeros (Z.to_nat (digits c)) c) with
            | String d "" => String d ""
            | String d rest => String d ("." ++ rest)
            | "" => ""
            end in
          sign ++ mantissa ++ "e+" ++ pretty (digits c - 1)
  end.

Close Scope Z_scope.

(** ** ToString

    ToString, as [new Error(x)] applies it to a defined [x]; [None] is
    the [TypeError] it throws.  An object parsed from JSON inherits
    [Object.prototype.toString], which prints [[object Object]], unless
    it has a member of its own named [toString]: that member is no
    function, [valueOf] returns the object itself, and the conversion
    throws.  An array joins the strings of its elements with a comma,
    [null] counting as the empty string. *)
Fixpoint to_string (v : json) : option string :=
  match v with
  | JNull => Some "null"
  | JBool true => Some "true"
  | JBool false => Some "false"
  | JNum n => Some (number_to_string n)
  | JStr s => Some s
  | JArr items =>
      (fix join (l : list json) : option string :=
         match l with
         | [] => Some ""
         | [x] => match x with JNull => Some "" | _ => to_string x end
         | x :: rest =>
             match (match x with JNull => Some "" | _ => to_string x end) with
             | Some first =>
                 match join rest with
                 | Some others => Some (first ++ "," ++ others)
                 | None => None
                 end
             | None => None
             end
         end) items
  | JObj ms =>
      match member "toString" ms with
      | Some _ => None
      | None => Some "[object Object]"
      end
  end.

Definition is_Some_b {A} (o : option A) : bool :=
  match o with
  | Some _ => true
  | None => false
  end.

(** ** Errors *)

Inductive js_error :=
| Error (message : string)
| InvalidStateError   (* thrown by [WebSocket.send] on a CONNECTING socket *)
| UrlError.           (* thrown by [new URL] or [new WebSocket] *)

Definition message_of (e : js_error) : string :=
  match e with
  | Error m => m
  | InvalidStateError => "InvalidStateError"
  | UrlError => "Invalid URL"
  end.

(** [new Error(x)]: the message is empty when [x] is [undefined], and
    ToString of [x] otherwise; [None] when that conversion throws. *)
Definition new_Error (x : jsval) : option js_error :=
  match x with
  | None => Some (Error "")
  | Some v =>
      match to_string v with
      | Some m => Some (Error m)
      | None => None
      end
  end.

(** ** Host objects *)

Inductive ready_state := CONNECTING | OPEN | CLOSING | CLOSED.

Definition ready_state_eqb (a b : ready_state) : bool :=
  match a, b with
  | CONNECTING, CONNECTING | OPEN, OPEN | CLOSING, CLOSING | CLOSED, CLOSED => true
  | _, _ => false
  end.

(** A socket made by [connect].  The four callbacks that [connect]
    installs are closures over the same [resolve]/[reject] pair and the
    same [connectionTimeout]; a callback slot is either that closure
    ([true]) or [null] ([false]). *)
Record socket := {
  readyState : ready_state;
  onopen : bool;
  onclose : bool;
  onerror : bool;
  onmessage : bool;
  s_promise : nat;       (* the promise whose resolve/reject are captured *)
  s_timeout : nat;       (* the captured connectionTimeout *)
  s_sent : list json     (* frames handed to the network, oldest first *)
}.

(** The three callbacks the code passes to [setTimeout]. *)
Inductive timer_action :=
| ConnectionTimeout (p : nat)
| RequestTimeout (id : string) (method : string) (p : nat)
| ReconnectAttempt.

Record timer := {
  t_action : timer_action;
  t_delay : Z;           (* milliseconds *)
  t_active : bool        (* armed: neither fired nor cleared *)
}.

Inductive promise_state :=
| Pending
| Resolved (v : jsval)
| Rejected (e : js_error).

(** A promise, with the number of reconnect callbacks suspended in
    [await this.connect()] on it. *)
Record promise := {
  p_state : promise_state;
  p_retry : nat
}.

(** The values of [pendingRequests]: a [resolve]/[reject] pair, either
    the one [call] stores or the one the challenge branch stores. *)
Inductive handlers :=
| CallHandlers (p : nat)
| HandshakeHandlers (p : nat).

(** One [this.emit(name, ...args)], with the arguments it was given. *)
Inductive emission := Emit (name : json) (args : list jsval).

(** ** The client and its host

    The field [messageId] of the class is set to 0 at construction and
    never read or written again; it is left out.  Of [url] only one
    thing matters to the code: whether [new URL] and [new WebSocket]
    accept it. *)

Record state := {
  (* fields of OpenClawClient *)
  ws : option nat;
  reconnectTimer : option nat;
  pendingRequests : gmap string handlers;
  connected : bool;
  authenticated : bool;
  connecting : option nat;
  autoReconnect : bool;
  token : string;
  url_valid : bool;      (* [new URL(this.url)] and [new WebSocket] accept the url *)
  (* the host *)
  sockets : list socket;
  timers : list timer;
  promises : list promise;
  emitted : list emission
}.

(** [new OpenClawClient(url, token)]. *)
Definition new_client (url_ok : bool) (tok : string) : state :=
  {| ws := None; reconnectTimer := None; pendingRequests := ∅;
     connected := false; authenticated := false; connecting := None;
     autoReconnect := true; token := tok; url_valid := url_ok;
     sockets := []; timers := []; promises := []; emitted := [] |}.

(** Field assignments. *)
Definition set_ws (v : option nat) (st : state) : state :=
  {| ws := v; reconnectTimer := reconnectTimer st;
     pendingRequests := pendingRequests st; connected := connected st;
     authenticated := authenticated st; connecting := connecting st;
     autoReconnect := autoReconnect st; token := token st;
     url_valid := url_valid st; sockets := sockets st; timers := timers st;
     promises := promises st; emitted := emitted st |}.

Definition set_reconnectTimer (v : option nat) (st : state) : state :=
  {| ws := ws st; reconnectTimer := v;
     pendingRequests := pendingRequests st; connected := connected st;
     authenticated := authenticated st; connecting := connecting st;
     autoReconnect := autoReconnect st; token := token st;
     url_valid := url_valid st; sockets := sockets st; timers := timers st;
     promises := promises st; emitted := emitted st |}.

Definition set_pendingRequests (v : gmap string handlers) (st : state) : state :=
  {| ws := ws st; reconnectTimer := reconnectTimer st;
     pendingRequests := v; connected := connected st;
     authenticated := authenticated st; connecting := connecting st;
     autoReconnect := autoReconnect st; token := token st;
     url_valid := url_valid st; sockets := sockets st; timers := timers st;
     promises := promises st; emitted := emitted st |}.

Definition set_connected (v : bool) (st : state) : state :=
  {| ws := ws st; reconnectTimer := reconnectTimer st;
     pendingRequests := pendingRequests st; connected := v;
     authenticated := authenticated st; connecting := connecting st;
     autoReconnect := autoReconnect st; token := token st;
     url_valid := url_valid st; sockets := sockets st; timers := timers st;
     promises := promises st; emitted := emitted st |}.

Definition set_authenticated (v : bool) (st : state) : state :=
  {| ws := ws st; reconnectTimer := reconnectTimer st;
     pendingRequests := pendingRequests st; connected := connected st;
     authenticated := v; connecting := connecting st;
     autoReconnect := autoReconnect st; token := token st;
     url_valid := url_valid st; sockets := sockets st; timers := timers st;
     promises := promises st; emitted := emitted st |}.

Definition set_connecting (v : option nat) (st : state) : state :=
  {| ws := ws st; reconnectTimer := reconnectTimer st;
     pendingRequests := pendingRequests st; connected := connected st;
     authenticated := authenticated st; connecting := v;
     autoReconnect := autoReconnect st; token := token st;
     url_valid := url_valid st; sockets := sockets st; timers := timers st;
     promises := promises st; emitted := emitted st |}.

Definition set_autoReconnect (v : bool) (st : state) : state :=
  {| ws := ws st; reconnectTimer := reconnectTimer st;
     pendingRequests := pendingRequests st; connected := connected st;
     authenticated := authenticated st; connecting := connecting st;
     autoReconnect := v; token := token st;
     url_valid := url_valid st; sockets := sockets st; timers := timers st;
     promises := promises st; emitted := emitted st |}.

Definition set_sockets (v : list socket) (st : state) : state :=
  {| ws := ws st; reconnectTimer := reconnectTimer st;
     pendingRequests := pendingRequests st; connected := connected st;
     authenticated := authenticated st; connecting := connecting st;
     autoReconnect := autoReconnect st; token := token st;
     url_valid := url_valid st; sockets := v; timers := timers st;
     promises := promises st; emitted := emitted st |}.

Definition set_timers (v : list timer) (st : state) : state :=
  {| ws := ws st; reconnectTimer := reconnectTimer st;
     pendingRequests := pendingRequests st; connected := connected st;
     authenticated := authenticated st; connecting := connecting st;
     autoReconnect := autoReconnect st; token := token st;
     url_valid := url_valid st; sockets := sockets st; timers := v;
     promises := promises st; emitted := emitted st |}.

Definition set_promises (v : list promise) (st : state) : state :=
  {| ws := ws st; reconnectTimer := reconnectTimer st;
     pendingRequests := pendingRequests st; connected := connected st;
     authenticated := authenticated st; connecting := connecting st;
     autoReconnect := autoReconnect st; token := token st;
     url_valid := url_valid st; sockets := sockets st; timers := timers st;
     promises := v; emitted := emitted st |}.

Definition set_emitted (v : list emission) (st : state) : state :=
  {| ws := ws st; reconnectTimer := reconnectTimer st;
     pendingRequests := pendingRequests st; connected := connected st;
     authenticated := authenticated st; connecting := connecting st;
     autoReconnect := autoReconnect st; token := token st;
     url_valid := url_valid st; sockets := sockets st; timers := timers st;
     promises := promises st; emitted := v |}.

(** ** Host primitives *)

(** [setTimeout(cb, delay)]: a new armed timer; its handle is returned. *)
Definition setTimeout (cb : timer_action) (delay : Z) (st : state) : nat * state :=
  (length (timers st),
   set_timers (timers st ++ [{| t_action := cb; t_delay := delay; t_active := true |}]) st).

Definition disarm (tm : timer) : timer :=
  {| t_action := t_action tm; t_delay := t_delay tm; t_active := false |}.

(** [clearTimeout(t)]. *)
Definition clearTimeout (t : nat) (st : state) : state :=
  set_timers (alter disarm t (timers st)) st.

Definition with_readyState (r : ready_state) (s : socket) : socket :=
  {| readyState := r; onopen := onopen s; onclose := onclose s;
     onerror := onerror s; onmessage := onmessage s;
     s_promise := s_promise s; s_timeout := s_timeout s; s_sent := s_sent s |}.

Definition with_sent (l : list json) (s : socket) : socket :=
  {| readyState := readyState s; onopen := onopen s; onclose := onclose s;
     onerror := onerror s; onmessage := onmessage s;
     s_promise := s_promise s; s_timeout := s_timeout s; s_sent := l |}.

(** [sock.onclose = null]. *)
Definition without_onclose (s : socket) : socket :=
  {| readyState := readyState s; onopen := onopen s; onclose := false;
     onerror := onerror s; onmessage := onmessage s;
     s_promise := s_promise s; s_timeout := s_timeout s; s_sent := s_sent s |}.

(** All four callback slots set to [null]. *)
Definition without_callbacks (s : socket) : socket :=
  {| readyState := readyState s; onopen := false; onclose := false;
     onerror := false; onmessage := false;
     s_promise := s_promise s; s_timeout := s_timeout s; s_sent := s_sent s |}.

Definition update_socket (i : nat) (f : socket -> socket) (st : state) : state :=
  set_sockets (alter f i (sockets st)) st.

(** [sock.readyState === r]. *)
Definition socket_is (r : ready_state) (i : nat) (st : state) : bool :=
  match sockets st !! i with
  | Some s => ready_state_eqb (readyState s) r
  | None => false
  end.

(** [this.ws?.readyState === WebSocket.OPEN]. *)
Definition ws_open (st : state) : bool :=
  match ws st with
  | Some i => socket_is OPEN i st
  | None => false
  end.

(** [sock.close()]: a socket that is connecting or open starts closing;
    the close event comes later, from the host.  On a socket already
    closing or closed the call does nothing. *)
Definition start_closing (s : socket) : socket :=
  match readyState s with
  | OPEN | CONNECTING => with_readyState CLOSING s
  | CLOSING | CLOSED => s
  end.

Definition socket_close (i : nat) (st : state) : state :=
  update_socket i start_closing st.

(** [this.ws?.close()]. *)
Definition ws_close (st : state) : state :=
  match ws st with
  | Some i => socket_close i st
  | None => st
  end.

(** [sock.send(JSON.stringify(frame))]: throws on a CONNECTING socket
    ([None]), transmits on an OPEN one, and silently discards the frame
    on a socket that is closing or closed. *)
Definition transmit (frame : json) (s : socket) : socket :=
  match readyState s with
  | OPEN => with_sent (s_sent s ++ [frame]) s
  | _ => s
  end.

Definition socket_send (i : nat) (frame : json) (st : state) : option state :=
  if socket_is CONNECTING i st then None
  else Some (update_socket i (transmit frame) st).

(** [new Promise(...)], before its executor runs. *)
Definition new_promise (st : state) : nat * state :=
  (length (promises st),
   set_promises (promises st ++ [{| p_state := Pending; p_retry := 0 |}]) st).

Definition promise_state_of (p : nat) (st : state) : option promise_state :=
  p_state <$> promises st !! p.

(** [this.emit(name, ...args)]. *)
Definition emit (name : json) (args : list jsval) (st : state) : state :=
  set_emitted (emitted st ++ [Emit name args]) st.

(** ** scheduleReconnect (client.ts 205-220), arming side *)

Definition scheduleReconnect (st : state) : state :=
  if is_Some_b (reconnectTimer st) || negb (autoReconnect st) then st
  else
    let '(t, st) := setTimeout ReconnectAttempt 10000 st in
    set_reconnectTimer (Some t) st.

(** ** Promises

    [resolve]/[reject] of a promise: the first call settles it, later
    calls do nothing.  A reconnect callback suspended in
    [try { await this.connect() } catch { this.scheduleReconnect() }]
    resumes when the promise settles; on rejection it runs
    [scheduleReconnect].  The resumption is a microtask, run once the
    settling callback has returned; no callback of the class touches
    [reconnectTimer] or [autoReconnect] after it has called [reject], so
    the embedding runs the resumption at the [reject] itself. *)
Definition is_pending (pr : promise) : bool :=
  match p_state pr with
  | Pending => true
  | _ => false
  end.

Definition fulfil (o : promise_state) (pr : promise) : promise :=
  if is_pending pr then {| p_state := o; p_retry := 0 |} else pr.

(** The reconnect callbacks that a settlement of [p] would resume. *)
Definition suspended_on (p : nat) (st : state) : nat :=
  match promises st !! p with
  | Some pr => if is_pending pr then p_retry pr else 0
  | None => 0
  end.

Definition settle (p : nat) (o : promise_state) (st : state) : state :=
  let resumed := suspended_on p st in
  let st := set_promises (alter (fulfil o) p (promises st)) st in
  match o with
  | Rejected _ => Nat.iter resumed scheduleReconnect st
  | _ => st
  end.

Definition suspend (pr : promise) : promise :=
  {| p_state := p_state pr; p_retry := S (p_retry pr) |}.

(** The reconnect callback reaches [await] on promise [p]. *)
Definition await_connect (p : nat) (st : state) : state :=
  match p_state <$> promises st !! p with
  | Some Pending => set_promises (alter suspend p (promises st)) st
  | Some (Rejected _) => scheduleReconnect st
  | Some (Resolved _) => st
  | None => st
  end.

(** ** connect (client.ts 27-164) *)

(** What the caller of [connect()] gets: a promise already fulfilled
    (line 30), the promise of the attempt in flight (line 35), or the
    promise of the attempt this call started (line 163). *)
Inductive connect_result :=
| AlreadyConnected
| InFlight (p : nat)
| Started (p : nat).

(** Lines 42-51: drop a socket left from before. *)
Definition discard_socket (st : state) : state :=
  match ws st with
  | Some i =>
      let st := update_socket i without_callbacks st in
      let st := if socket_is OPEN i st || socket_is CONNECTING i st
                then socket_close i st else st in
      set_ws None st
  | None => st
  end.

(** Lines 60-156: the new socket, its connection timeout and its four
    callbacks, all closed over the attempt's promise [p]. *)
Definition open_socket (p : nat) (st : state) : state :=
  let i := length (sockets st) in
  let '(t, st) := setTimeout (ConnectionTimeout p) 10000 st in
  let st := set_sockets
              (sockets st ++
               [{| readyState := CONNECTING; onopen := true; onclose := true;
                   onerror := true; onmessage := true;
                   s_promise := p; s_timeout := t; s_sent := [] |}]) st in
  set_ws (Some i) st.

Definition connect (st : state) : connect_result * state :=
  if connected st && ws_open st then (AlreadyConnected, st)
  else
    match connecting st with
    | Some p => (InFlight p, st)
    | None =>
        let '(p, st) := new_promise st in
        let st := discard_socket st in
        let st := if url_valid st then open_socket p st
                  else settle p (Rejected UrlError) (set_connecting None st) in
        (Started p, set_connecting (Some p) st)
    end.

(** ** The stored resolve/reject pairs *)

(** [pending.resolve(v)]: line 231 for a call, lines 131-138 for the
    handshake. *)
Definition run_resolve (h : handlers) (v : jsval) (st : state) : state :=
  match h with
  | CallHandlers p => settle p (Resolved v) st
  | HandshakeHandlers p =>
      let st := set_connected true st in
      let st := set_authenticated true st in
      let st := set_connecting None st in
      let st := emit (JStr "connected") [] st in
      settle p (Resolved None) st
  end.

(** [pending.reject(e)]: line 231 for a call, lines 139-143 for the
    handshake. *)
Definition run_reject (h : handlers) (e : js_error) (st : state) : state :=
  match h with
  | CallHandlers p => settle p (Rejected e) st
  | HandshakeHandlers p =>
      let st := set_connecting None st in
      let st := ws_close st in
      settle p (Rejected (Error ("Authentication failed: " ++ message_of e))) st
  end.

(** [pending.reject(new Error(x))], lines 176 and 191.  The argument is
    evaluated before the call: when the conversion of [x] throws,
    [reject] is not called, and the exception leaves [handleMessage] to
    be caught and logged at lines 153-155. *)
Definition reject_new_Error (h : handlers) (x : jsval) (st : state) : state :=
  match new_Error x with
  | Some e => run_reject h e st
  | None => st
  end.

(** ** handleMessage (client.ts 166-203) *)

(** [pendingRequests.get(id)].  Every key ever stored is a string made
    by [crypto.randomUUID()], and the map compares keys without
    conversion, so only a string [id] can find an entry. *)
Definition pending_get (id : jsval) (st : state) : option (string * handlers) :=
  match id with
  | Some (JStr k) => (fun h => (k, h)) <$> pendingRequests st !! k
  | _ => None
  end.

Definition pending_delete (k : string) (st : state) : state :=
  set_pendingRequests (delete k (pendingRequests st)) st.

Definition handleMessage (data : json) (st : state) : state :=
  match (if is_str (prop "type" data) "res" && defined (prop "id" data)
         then pending_get (prop "id" data) st else None) with
  | Some (requestId, pending) =>
      let st := pending_delete requestId st in
      if is_false (prop "ok" data) && truthy (prop "error" data)
      then reject_new_Error pending (prop_of "message" (prop "error" data)) st
      else run_resolve pending (prop "payload" data) st
  | None =>
      match pending_get (prop "id" data) st with
      | Some (legacyId, pending) =>
          let st := pending_delete legacyId st in
          if truthy (prop "error" data)
          then reject_new_Error pending (prop_of "message" (prop "error" data)) st
          else run_resolve pending (prop "result" data) st
      | None =>
          match prop "method" data with
          | Some name =>
              if truthy (Some name)
              then emit name [prop "params" data]
                     (emit (JStr "notification") [Some data] st)
              else st
          | None => st
          end
      end
  end.

(** ** The socket callbacks installed by connect *)

(** Lines 69-74. *)
Definition ws_onopen (connectionTimeout : nat) (st : state) : state :=
  clearTimeout connectionTimeout st.

(** Lines 76-89. *)
Definition ws_onclose (connectionTimeout : nat) (st : state) : state :=
  let st := clearTimeout connectionTimeout st in
  let wasConnected := connected st in
  let st := set_connected false st in
  let st := set_authenticated false st in
  let st := set_connecting None st in
  let st := emit (JStr "disconnected") [] st in
  if autoReconnect st && wasConnected then scheduleReconnect st else st.

(** Lines 91-99.  The argument of the 'error' emission is the host's
    event object, of which nothing is known; it is shown as
    [undefined]. *)
Definition ws_onerror (p connectionTimeout : nat) (st : state) : state :=
  let st := clearTimeout connectionTimeout st in
  let st := emit (JStr "error") [None] st in
  if negb (connected st)
  then settle p (Rejected (Error "Failed to connect to OpenClaw Gateway"))
         (set_connecting None st)
  else st.

(** Lines 110-127: the credentialed connect request. *)
Definition connect_request (requestId tok : string) : json :=
  JObj [("type", JStr "req"); ("id", JStr requestId); ("method", JStr "connect");
        ("params",
         JObj [("minProtocol", JNum 3); ("maxProtocol", JNum 3);
               ("client", JObj [("id", JStr "gateway-client"); ("version", JStr "1.0.0");
                                ("platform", JStr "web"); ("mode", JStr "ui")]);
               ("auth", JObj [("token", JStr tok)])])].

Definition is_challenge (data : json) : bool :=
  is_str (prop "type" data) "event" && is_str (prop "event" data) "connect.challenge".

(** Lines 101-156.  [parsed] is the outcome of [JSON.parse(event.data)],
    [None] when it throws; [uuid] is what [crypto.randomUUID()] returns
    if the handler gets to call it.  Whatever is thrown inside the [try]
    ends the handler: reading [data.type] of [null], [this.ws!.send] with
    [this.ws] null, [send] on a socket still connecting, and inside
    [handleMessage] the making of an error from a message that has no
    string conversion. *)
Definition ws_onmessage (p : nat) (parsed : option json) (uuid : string) (st : state) : state :=
  match parsed with
  | None => st
  | Some JNull => st
  | Some data =>
      if is_challenge data then
        let st := set_pendingRequests (<[uuid := HandshakeHandlers p]> (pendingRequests st)) st in
        match ws st with
        | Some i =>
            match socket_send i (connect_request uuid (token st)) st with
            | Some st' => st'
            | None => st
            end
        | None => st
        end
      else handleMessage data st
  end.

(** ** call (client.ts 222-243) *)

(** What the caller of [call()] gets: a promise rejected on the spot by
    the [throw] of line 224, or the promise of line 230. *)
Inductive call_result :=
| Thrown (e : js_error)
| Awaiting (p : nat).

(** The frame of line 228; [JSON.stringify] drops [params] when it is
    [undefined]. *)
Definition request_frame (id method : string) (params : jsval) : json :=
  JObj ([("type", JStr "req"); ("id", JStr id); ("method", JStr method)]
        ++ match params with
           | Some v => [("params", v)]
           | None => []
           end).

(** [uuid] is what [crypto.randomUUID()] returns at line 227.  A [send]
    that throws does so inside the promise executor, which rejects the
    promise with the thrown error. *)
Definition call (method : string) (params : jsval) (uuid : string) (st : state)
  : call_result * state :=
  match ws st with
  | Some i =>
      if connected st && authenticated st then
        let '(p, st) := new_promise st in
        let st := set_pendingRequests (<[uuid := CallHandlers p]> (pendingRequests st)) st in
        let '(_, st) := setTimeout (RequestTimeout uuid method p) 30000 st in
        let st := match socket_send i (request_frame uuid method params) st with
                  | Some st' => st'
                  | None => settle p (Rejected InvalidStateError) st
                  end in
        (Awaiting p, st)
      else (Thrown (Error "Not connected to OpenClaw Gateway"), st)
  | None => (Thrown (Error "Not connected to OpenClaw Gateway"), st)
  end.

(** ** Timer callbacks *)

(** Lines 62-67. *)
Definition connection_timeout (p : nat) (st : state) : state :=
  if negb (connected st)
  then settle p (Rejected (Error "Connection timeout")) (ws_close st)
  else st.

(** Lines 234-239. *)
Definition request_timeout (id method : string) (p : nat) (st : state) : state :=
  match pendingRequests st !! id with
  | Some _ =>
      settle p (Rejected (Error ("Request timeout: " ++ method))) (pending_delete id st)
  | None => st
  end.

(** Lines 208-219, the callback of [scheduleReconnect]. *)
Definition reconnect_attempt (st : state) : state :=
  let st := set_reconnectTimer None st in
  if negb (autoReconnect st) then st
  else
    match connect st with
    | (AlreadyConnected, st) => st
    | (InFlight p, st) => await_connect p st
    | (Started p, st) => await_connect p st
    end.

Definition run_timer (cb : timer_action) (st : state) : state :=
  match cb with
  | ConnectionTimeout p => connection_timeout p st
  | RequestTimeout id method p => request_timeout id method p st
  | ReconnectAttempt => reconnect_attempt st
  end.

(** ** disconnect, isConnected, setAutoReconnect (client.ts 335-361) *)

Definition disconnect (st : state) : state :=
  let st := set_autoReconnect false st in
  let st := match reconnectTimer st with
            | Some t => set_reconnectTimer None (clearTimeout t st)
            | None => st
            end in
  let st := match ws st with
            | Some i =>
                let st := update_socket i without_onclose st in
                let st := socket_close i st in
                set_ws None st
            | None => st
            end in
  let st := set_connected false st in
  let st := set_authenticated false st in
  set_connecting None st.

Definition isConnected (st : state) : bool :=
  connected st && authenticated st && ws_open st.

Definition setAutoReconnect (enabled : bool) (st : state) : state :=
  let st := set_autoReconnect enabled st in
  match reconnectTimer st with
  | Some t => if negb enabled then set_reconnectTimer None (clearTimeout t st) else st
  | None => st
  end.

(** ** Events

    The owner of the client calls its public methods; the host delivers
    socket events and fires timers.  A socket opens only while
    CONNECTING; the closing handshake starts only on an OPEN socket; a
    frame is delivered only to an OPEN socket; an error or a close is
    delivered to a socket not yet CLOSED, and the close makes it CLOSED;
    a timer fires only while armed, and firing disarms it before the
    callback runs.  An event whose callback slot is [null] still
    happens, with no code run.  An event that the host cannot produce in
    the current state leaves the state as it is.  A callback reads the
    promise and the timeout handle it closed over from its socket;
    [uuid] in [DoCall] and [SocketReceives] is the value
    [crypto.randomUUID()] returns during that event. *)
Inductive event :=
| DoConnect
| DoCall (method : string) (params : jsval) (uuid : string)
| DoDisconnect
| DoSetAutoReconnect (enabled : bool)
| SocketOpens (i : nat)
| SocketStartsClosing (i : nat)
| SocketCloses (i : nat)
| SocketFails (i : nat)
| SocketReceives (i : nat) (parsed : option json) (uuid : string)
| TimerFires (t : nat).

Definition step (e : event) (st : state) : state :=
  match e with
  | DoConnect => snd (connect st)
  | DoCall method params uuid => snd (call method params uuid st)
  | DoDisconnect => disconnect st
  | DoSetAutoReconnect enabled => setAutoReconnect enabled st
  | SocketOpens i =>
      match sockets st !! i with
      | Some s =>
          match readyState s with
          | CONNECTING =>
              let st := update_socket i (with_readyState OPEN) st in
              if onopen s then ws_onopen (s_timeout s) st else st
          | _ => st
          end
      | None => st
      end
  | SocketStartsClosing i =>
      if socket_is OPEN i st then update_socket i (with_readyState CLOSING) st else st
  | SocketCloses i =>
      match sockets st !! i with
      | Some s =>
          match readyState s with
          | CLOSED => st
          | _ =>
              let st := update_socket i (with_readyState CLOSED) st in
              if onclose s then ws_onclose (s_timeout s) st else st
          end
      | None => st
      end
  | SocketFails i =>
      match sockets st !! i with
      | Some s =>
          match readyState s with
          | CLOSED => st
          | _ => if onerror s then ws_onerror (s_promise s) (s_timeout s) st else st
          end
      | None => st
      end
  | SocketReceives i parsed uuid =>
      match sockets st !! i with
      | Some s =>
          match readyState s with
          | OPEN => if onmessage s then ws_onmessage (s_promise s) parsed uuid st else st
          | _ => st
          end
      | None => st
      end
  | TimerFires t =>
      match timers st !! t with
      | Some tm =>
          if t_active tm
          then run_timer (t_action tm) (clearTimeout t st)
          else st
      | None => st
      end
  end.

(** The state after a sequence of events, oldest first. *)
Definition run (evs : list event) (st : state) : state :=
  fold_left (fun s e => step e s) evs st.

(** The states a client can be in: those reached from a freshly
    constructed client. *)
Definition reachable (st : state) : Prop :=
  exists url_ok tok evs, st = run evs (new_client url_ok tok).

(** ** Vocabulary of the statements *)

(** The test of line 175: a frame of type "res" is turned into a
    rejection. *)
Definition res_rejects (data : json) : bool :=
  is_false (prop "ok" data) && truthy (prop "error" data).

(** The test of line 190: a frame of the legacy shape is turned into a
    rejection. *)
Definition legacy_rejects (data : json) : bool :=
  truthy (prop "error" data).

(** [new Error(data.error.message)], lines 176 and 191. *)
Definition server_error (data : json) : option js_error :=
  new_Error (prop_of "message" (prop "error" data)).

(** What lines 176 and 191 do with the stored pair [h]. *)
Definition reject_server_error (h : handlers) (data : json) (st : state) : state :=
  reject_new_Error h (prop_of "message" (prop "error" data)) st.

(** Where they leave a promise that was pending: rejected with the
    error, or still pending when making the error threw. *)
Definition rejection (data : json) : promise_state :=
  match server_error data with
  | Some e => Rejected e
  | None => Pending
  end.

(** [n] calls of [connect()] in a row, with what each caller got. *)
Fixpoint connect_times (n : nat) (st : state) : list connect_result * state :=
  match n with
  | 0 => ([], st)
  | S n =>
      let '(r, st) := connect st in
      let '(rs, st) := connect_times n st in
      (r :: rs, st)
  end.

(** Frames used in the examples. *)
Definition challenge_frame : json :=
  JObj [("type", JStr "event"); ("event", JStr "connect.challenge")].

Definition ok_frame (id : string) (payload : json) : json :=
  JObj [("type", JStr "res"); ("id", JStr id); ("ok", JBool true); ("payload", payload)].

Definition error_frame (id message : string) : json :=
  JObj [("type", JStr "res"); ("id", JStr id); ("ok", JBool false);
        ("error", JObj [("message", JStr message)])].

(** A client that connected and passed the handshake: socket 0 is open,
    promise 0 (the attempt) is fulfilled. *)
Definition handshake_trace : list event :=
  [DoConnect; SocketOpens 0;
   SocketReceives 0 (Some challenge_frame) "hs-1";
   SocketReceives 0 (Some (ok_frame "hs-1" JNull)) "unused"].

Definition session : state := run handshake_trace (new_client true "secret").

(** The same client with one call in flight: entry "rq-1", promise 1,
    request timer 1. *)
Definition calling_trace : list event :=
  handshake_trace ++ [DoCall "sessions.list" None "rq-1"].

Definition session_calling : state := run calling_trace (new_client true "secret").

(** The client of [session] once the server has started the closing
    handshake on socket 0 (its close event not yet delivered), the owner
    has called [connect()] again, and the new socket 1 has opened.  The
    attempt on socket 1 is promise 1. *)
Definition reconnecting_trace : list event :=
  handshake_trace ++ [SocketStartsClosing 0; DoConnect; SocketOpens 1].

Definition reconnecting : state := run reconnecting_trace (new_client true "secret").

(** The client of [session] after the server closed socket 0, the
    reconnect timer (timer 1) fired ten seconds later, and the socket of
    the reconnect attempt (socket 1, promise 1) opened. *)
Definition retrying_trace : list event :=
  handshake_trace ++ [SocketCloses 0; TimerFires 1; SocketOpens 1].

Definition retrying : state := run retrying_trace (new_client true "secret").

(** The events that come from the host, as opposed to the calls of the
    client's owner. *)
Definition is_host_event (e : event) : bool :=
  match e with
  | DoConnect | DoCall _ _ _ | DoDisconnect | DoSetAutoReconnect _ => false
  | _ => true
  end.

(** Every socket is closed and no timer is armed. *)
Definition dormant (st : state) : bool :=
  forallb (fun s => ready_state_eqb (readyState s) CLOSED) (sockets st)
  && forallb (fun tm => negb (t_active tm)) (timers st).

(** A handshake in progress: the first challenge has been answered, the
    server has not replied yet. *)
Definition handshaking : state :=
  run [DoConnect; SocketOpens 0; SocketReceives 0 (Some challenge_frame) "hs-1"]
      (new_client true "secret").

(** Reconnect timers.  [armed_reconnects] lists the handles of the
    timers that will run the reconnect callback unless cleared. *)
Definition is_reconnect (tm : timer) : bool :=
  match t_action tm with
  | ReconnectAttempt => true
  | _ => false
  end.

Definition armed_at (st : state) (t : nat) : bool :=
  match timers st !! t with
  | Some tm => is_reconnect tm && t_active tm
  | None => false
  end.

Definition armed_reconnects (st : state) : list nat :=
  List.filter (armed_at st) (seq 0 (length (timers st))).

(** The handshake has succeeded at some time: only line 135 emits
    'connected' without an argument (line 201 always passes one). *)
Definition is_connected_emission (e : emission) : bool :=
  match e with
  | Emit (JStr name) [] => String.eqb name "connected"
  | _ => false
  end.

Definition ever_authenticated (st : state) : bool :=
  existsb is_connected_emission (emitted st).

(** What holds of every state the client can be in. *)
Record consistent (st : state) : Prop := {
  flags_agree : connected st = authenticated st;
  armed_is_field : forall t, armed_at st t = true <-> reconnectTimer st = Some t;
  reconnect_delay : forall t tm,
    timers st !! t = Some tm -> is_reconnect tm = true -> t_delay tm = 10000%Z;
  socket_timer : forall i s,
    sockets st !! i = Some s ->
    exists tm, timers st !! s_timeout s = Some tm /\ is_reconnect tm = false;
  off_no_timer : autoReconnect st = false -> reconnectTimer st = None;
  never_authenticated :
    ever_authenticated st = false ->
    connected st = false /\ reconnectTimer st = None
    /\ forall p pr, promises st !! p = Some pr -> p_retry pr = 0
}.

(** Which promise a stored pair or a timer callback will settle, and
    which request id a timer callback looks up. *)
Definition handler_promise (h : handlers) : nat :=
  match h with
  | CallHandlers p => p
  | HandshakeHandlers p => p
  end.

Definition timer_promise (cb : timer_action) : option nat :=
  match cb with
  | ConnectionTimeout p => Some p
  | RequestTimeout _ _ p => Some p
  | ReconnectAttempt => None
  end.

Definition timer_request (cb : timer_action) : option string :=
  match cb with
  | RequestTimeout id _ _ => Some id
  | _ => None
  end.

(** Every closure in the state captured a promise that exists. *)
Record scoped (st : state) : Prop := {
  sc_entries : forall k h,
    pendingRequests st !! k = Some h -> handler_promise h < length (promises st);
  sc_timers : forall t tm q,
    timers st !! t = Some tm -> timer_promise (t_action tm) = Some q ->
    q < length (promises st);
  sc_sockets : forall i s,
    sockets st !! i = Some s -> s_promise s < length (promises st)
}.

(** [crypto.randomUUID()] returned an id that is in use neither as a key
    of the pending map nor in the callback of an armed request timer. *)
Definition timer_uses (uuid : string) (tm : timer) : bool :=
  t_active tm &&
  match t_action tm with
  | RequestTimeout id _ _ => String.eqb id uuid
  | _ => false
  end.

Definition fresh_id (uuid : string) (st : state) : bool :=
  negb (is_Some_b (pendingRequests st !! uuid))
  && negb (existsb (timer_uses uuid) (timers st)).

(** The call made with id [uuid] for [method], whose promise is [p] and
    whose request timer is [t], is still outstanding: its entry is in
    the map, its promise is undecided, its timer is armed, and nothing
    else in the state can settle the promise, remove the entry under
    another name or clear the timer. *)
Record outstanding (uuid method : string) (p t : nat) (st : state) : Prop := {
  o_entry : pendingRequests st !! uuid = Some (CallHandlers p);
  o_pending : promise_state_of p st = Some Pending;
  o_timer : timers st !! t
            = Some {| t_action := RequestTimeout uuid method p;
                      t_delay := 30000; t_active := true |};
  o_entries : forall k h,
    pendingRequests st !! k = Some h -> handler_promise h = p -> k = uuid;
  o_timers : forall t' tm,
    timers st !! t' = Some tm -> t_active tm = true -> t' <> t ->
    timer_promise (t_action tm) <> Some p
    /\ timer_request (t_action tm) <> Some uuid;
  o_sockets : forall i s,
    sockets st !! i = Some s -> s_promise s <> p /\ s_timeout s <> t;
  o_reconnect : reconnectTimer st <> Some t
}.

(** An event that leaves the call with id [uuid] and timer [t] alone: it
    is not the firing of [t], it brings no frame that bears the id, and
    it does not hand out the same id again. *)
Definition quiet (uuid : string) (t : nat) (e : event) : Prop :=
  match e with
  | DoCall _ _ u => u <> uuid
  | SocketReceives _ parsed u =>
      u <> uuid /\ forall data, parsed = Some data -> prop "id" data <> Some (JStr uuid)
  | TimerFires t' => t' <> t
  | _ => True
  end.

(** An event that does not hand out the id [uuid] again. *)
Definition no_reuse (uuid : string) (e : event) : Prop :=
  match e with
  | DoCall _ _ u => u <> uuid
  | SocketReceives _ _ u => u <> uuid
  | _ => True
  end.

(** The promise [p] has been left behind: it is undecided, and no stored
    pair, no armed timer and no socket that can still report anything
    holds its [resolve] or [reject]. *)
Record abandoned (p : nat) (st : state) : Prop := {
  ab_pending : promise_state_of p st = Some Pending;
  ab_entries : forall k h,
    pendingRequests st !! k = Some h -> handler_promise h <> p;
  ab_timers : forall t tm,
    timers st !! t = Some tm -> t_active tm = true ->
    timer_promise (t_action tm) <> Some p;
  ab_sockets : forall i s,
    sockets st !! i = Some s -> s_promise s = p -> readyState s = CLOSED
}.

(** The client holds one socket at a time: the socket in [ws] has the
    four callbacks that [connect] installed, and every other socket the
    client ever made is closing or closed and has no close callback. *)
Record one_socket (st : state) : Prop := {
  os_current : forall i,
    ws st = Some i ->
    exists s, sockets st !! i = Some s
              /\ onopen s = true /\ onclose s = true
              /\ onerror s = true /\ onmessage s = true;
  os_dropped : forall i s,
    sockets st !! i = Some s -> ws st <> Some i ->
    (readyState s = CLOSING \/ readyState s = CLOSED) /\ onclose s = false
}.

(** ** The agent wrappers (client.ts 271-332)

    A wrapper is an [async] method whose only dealings with the client
    are its [await this.call(...)]: it runs until the next [await],
    hands the request to [call], and goes on when the promise that
    [call] returned is settled, with the value if it was resolved and
    with a [throw] if it was rejected ([call]'s own [throw] of line 224
    rejects that promise).  A wrapper is embedded as the tree of what it
    does next, with one branch per outcome of the awaited call. *)

(** What a wrapper can throw: the reason with which an awaited call was
    rejected, or the TypeError of a property read on [undefined] or
    [null] and of a call of something that is not a function. *)
Inductive thrown :=
| Rejection (e : js_error)
| TypeError.

Inductive script (A : Type) : Type :=
| Return (a : A)
| Throw (e : thrown)
| Await (method : string) (params : jsval)
        (resolved : jsval -> script A) (rejected : js_error -> script A).

Arguments Return {A} a.
Arguments Throw {A} e.
Arguments Await {A} method params resolved rejected.

(** The rest of the function body after a statement. *)
Fixpoint script_bind {A B} (f : A -> script B) (s : script A) : script B :=
  match s with
  | Return a => f a
  | Throw e => Throw e
  | Await m ps k1 k2 =>
      Await m ps (fun v => script_bind f (k1 v)) (fun e => script_bind f (k2 e))
  end.

#[export] Instance script_mbind : MBind script := @script_bind.

(** [try { s } catch (err) { h err }]. *)
Fixpoint try_catch {A} (s : script A) (h : thrown -> script A) : script A :=
  match s with
  | Return a => Return a
  | Throw e => h e
  | Await m ps k1 k2 =>
      Await m ps (fun v => try_catch (k1 v) h) (fun e => try_catch (k2 e) h)
  end.

(** [await this.call(method, params)]. *)
Definition await_call (method : string) (params : jsval) : script jsval :=
  Await method params Return (fun e => Throw (Rejection e)).

(** [v.k] where [v] may be [undefined] or [null]: the read throws. *)
Definition read (k : string) (v : jsval) : script jsval :=
  match v with
  | None | Some JNull => Throw TypeError
  | Some d => Return (prop k d)
  end.

(** Lines 272-280: [result.agents || []]. *)
Definition listAgents : script json :=
  try_catch
    (result ← await_call "agents.list" None;
     agents ← read "agents" result;
     Return (match agents with
             | Some v => if truthy (Some v) then v else JArr []
             | None => JArr []
             end))
    (fun err => Throw err).

(** Lines 311-323. *)
Definition updateAgentFile (agentName filename content : string) : script unit :=
  try_catch
    (_ ← await_call "agents.writeFile"
           (Some (JObj [("agent", JStr agentName); ("filename", JStr filename);
                        ("content", JStr content)]));
     Return tt)
    (fun err => Throw err).

(** An element of [params.files]. *)
Record agent_file := {
  filename : string;
  content : string
}.

(** The value [createAgent] returns. *)
Record created := {
  success : bool;
  agent : jsval
}.

(** Lines 298-300: the [for ... of] loop. *)
Fixpoint write_files (name : string) (files : list agent_file) : script unit :=
  match files with
  | [] => Return tt
  | file :: rest =>
      _ ← updateAgentFile name (filename file) (content file);
      write_files name rest
  end.

(** Lines 282-309.  [files] is [None] when [params.files] is absent. *)
Definition createAgent (name workspace : string) (files : option (list agent_file))
  : script created :=
  try_catch
    (result ← await_call "agents.create"
                (Some (JObj [("name", JStr name); ("workspace", JStr workspace)]));
     _ ← match files with
         | Some (file :: rest) => write_files name (file :: rest)
         | _ => Return tt
         end;
     agent ← read "agent" result;
     Return {| success := true; agent := agent |})
    (fun err => Throw err).

(** [items.some(f)], where [f] may throw. *)
Fixpoint array_some (f : json -> script bool) (items : list json) : script bool :=
  match items with
  | [] => Return false
  | a :: rest =>
      f a ≫= fun found : bool =>
      if found then Return true else array_some f rest
  end.

Section AgentExists.
(** [String.prototype.toLowerCase], of which nothing is assumed. *)
Variable toLowerCase : string -> string.

(** The callback of line 328: [a.name.toLowerCase()] throws unless
    [a.name] is a string. *)
Definition name_matches (agentName : string) (a : json) : script bool :=
  match prop "name" a with
  | Some (JStr n) => Return (String.eqb (toLowerCase n) (toLowerCase agentName))
  | _ => Throw TypeError
  end.

(** Lines 325-332.  Only an array has a [some] method. *)
Definition agentExists (agentName : string) : script bool :=
  try_catch
    (agents ← listAgents;
     match agents with
     | JArr items => array_some (name_matches agentName) items
     | _ => Throw TypeError
     end)
    (fun _ => Return false).

End AgentExists.

(** How the promise of an awaited call is settled. *)
Inductive reply :=
| Resolves (v : jsval)
| Rejects (e : js_error).

(** How the promise that the wrapper returned stands. *)
Inductive outcome (A : Type) : Type :=
| Fulfilled (a : A)
| Failed (e : thrown)
| Waiting.

Arguments Fulfilled {A} a.
Arguments Failed {A} e.
Arguments Waiting {A}.

(** The wrapper run against the replies to its calls, oldest first: the
    requests it has handed to [call], oldest first, and where it stands
    after the last reply. *)
Fixpoint answer {A} (s : script A) (replies : list reply)
  : list (string * jsval) * outcome A :=
  match s with
  | Return a => ([], Fulfilled a)
  | Throw e => ([], Failed e)
  | Await m ps k1 k2 =>
      match replies with
      | [] => ([(m, ps)], Waiting)
      | r :: rest =>
          let '(requests, out) :=
            answer match r with
                   | Resolves v => k1 v
                   | Rejects e => k2 e
                   end rest in
          ((m, ps) :: requests, out)
      end
  end.

(** The requests [createAgent] means to make. *)
Definition write_request (name : string) (file : agent_file) : string * jsval :=
  ("agents.writeFile",
   Some (JObj [("agent", JStr name); ("filename", JStr (filename file));
               ("content", JStr (content file))])).

Definition planned (name workspace : string) (files : option (list agent_file))
  : list (string * jsval) :=
  ("agents.create", Some (JObj [("name", JStr name); ("workspace", JStr workspace)]))
  :: map (write_request name) (default [] files).


(** * Properties *)

(** Closed facts about concrete traces are settled by running the
    embedding. *)
Ltac by_running :=
  cbv zeta;
  repeat match goal with |- _ /\ _ => split end;
  try (vm_compute; reflexivity);
  try (vm_compute; discriminate).

(** ** What the primitives leave alone *)

Lemma scheduleReconnect_pendingRequests st :
  pendingRequests (scheduleReconnect st) = pendingRequests st.
Proof. unfold scheduleReconnect. by destruct (_ || _). Qed.

Lemma scheduleReconnect_promises st :
  promises (scheduleReconnect st) = promises st.
Proof. unfold scheduleReconnect. by destruct (_ || _). Qed.

Lemma iter_scheduleReconnect_pendingRequests n st :
  pendingRequests (Nat.iter n scheduleReconnect st) = pendingRequests st.
Proof.
  induction n as [|n IH]; [done|].
  rewrite Nat.iter_succ. by rewrite scheduleReconnect_pendingRequests.
Qed.

Lemma iter_scheduleReconnect_promises n st :
  promises (Nat.iter n scheduleReconnect st) = promises st.
Proof.
  induction n as [|n IH]; [done|].
  rewrite Nat.iter_succ. by rewrite scheduleReconnect_promises.
Qed.

Lemma settle_pendingRequests p o st :
  pendingRequests (settle p o st) = pendingRequests st.
Proof.
  unfold settle. destruct o; [done..|].
  by rewrite iter_scheduleReconnect_pendingRequests.
Qed.

(** Settling a pending promise fixes its state. *)
Lemma settle_pending p o st :
  promise_state_of p st = Some Pending ->
  promise_state_of p (settle p o st) = Some o.
Proof.
  unfold promise_state_of. intros H.
  assert (Hp : promises (settle p o st) = alter (fulfil o) p (promises st)).
  { unfold settle. destruct o; [done..|]. by rewrite iter_scheduleReconnect_promises. }
  rewrite Hp, list_lookup_alter_eq.
  destruct (promises st !! p) as [pr|]; [|done].
  cbn in *. injection H as H. unfold fulfil, is_pending. by rewrite H.
Qed.

(** A promise that is settled stays as it is, whoever calls its
    [resolve] or [reject] afterwards. *)
Lemma settle_settled p o st :
  promise_state_of p st <> Some Pending -> promises (settle p o st) = promises st.
Proof.
  unfold promise_state_of. intros H.
  assert (Hp : promises (settle p o st) = alter (fulfil o) p (promises st)).
  { unfold settle. destruct o; [done..|]. by rewrite iter_scheduleReconnect_promises. }
  rewrite Hp. apply list_eq. intros j. rewrite list_lookup_alter.
  case_decide; [subst j|done].
  destruct (promises st !! p) as [pr|]; [|done]. cbn in *.
  unfold fulfil, is_pending. destruct (p_state pr); congruence.
Qed.

Lemma ws_close_pendingRequests st :
  pendingRequests (ws_close st) = pendingRequests st.
Proof. unfold ws_close. by destruct (ws st). Qed.

Lemma run_resolve_pendingRequests h v st :
  pendingRequests (run_resolve h v st) = pendingRequests st.
Proof. destruct h; unfold run_resolve; by rewrite settle_pendingRequests. Qed.

Lemma run_reject_pendingRequests h e st :
  pendingRequests (run_reject h e st) = pendingRequests st.
Proof.
  destruct h; unfold run_reject; rewrite settle_pendingRequests; [done|].
  by rewrite ws_close_pendingRequests.
Qed.

Lemma reject_new_Error_pendingRequests h x st :
  pendingRequests (reject_new_Error h x st) = pendingRequests st.
Proof.
  unfold reject_new_Error. destruct (new_Error x); [|done].
  apply run_reject_pendingRequests.
Qed.

Lemma pending_get_Some id st k h :
  pending_get id st = Some (k, h) ->
  id = Some (JStr k) /\ pendingRequests st !! k = Some h.
Proof.
  unfold pending_get. destruct id as [[| | |s| |]|]; try done.
  destruct (pendingRequests st !! s) eqn:E; cbn; [|done].
  intros [= <- <-]. done.
Qed.

(** ** handleMessage, branch by branch *)

Lemma handleMessage_res data st k h :
  is_str (prop "type" data) "res" = true ->
  pending_get (prop "id" data) st = Some (k, h) ->
  handleMessage data st =
    if res_rejects data
    then reject_server_error h data (pending_delete k st)
    else run_resolve h (prop "payload" data) (pending_delete k st).
Proof.
  intros Ht Hp. unfold handleMessage, res_rejects, reject_server_error.
  destruct (pending_get_Some _ _ _ _ Hp) as [Hid _].
  rewrite Ht, Hid. cbn [defined andb]. rewrite <- Hid, Hp. done.
Qed.

Lemma handleMessage_legacy data st k h :
  is_str (prop "type" data) "res" = false ->
  pending_get (prop "id" data) st = Some (k, h) ->
  handleMessage data st =
    if legacy_rejects data
    then reject_server_error h data (pending_delete k st)
    else run_resolve h (prop "result" data) (pending_delete k st).
Proof.
  intros Ht Hp. unfold handleMessage, legacy_rejects, reject_server_error.
  rewrite Ht. cbn [andb]. by rewrite Hp.
Qed.

Lemma typed_or_legacy data st k h :
  pending_get (prop "id" data) st = Some (k, h) ->
  handleMessage data st =
    if is_str (prop "type" data) "res" then
      if res_rejects data
      then reject_server_error h data (pending_delete k st)
      else run_resolve h (prop "payload" data) (pending_delete k st)
    else
      if legacy_rejects data
      then reject_server_error h data (pending_delete k st)
      else run_resolve h (prop "result" data) (pending_delete k st).
Proof.
  intros Hp. destruct (is_str (prop "type" data) "res") eqn:Ht.
  - by apply handleMessage_res.
  - by apply handleMessage_legacy.
Qed.

(** ** The string of a message *)

(** An integer that a double holds exactly is printed digit by digit. *)
Lemma number_to_string_exact n :
  (Z.abs n < 2 ^ 53)%Z -> number_to_string n = pretty n.
Proof.
  intros H. unfold number_to_string, nearest_double.
  destruct (Z.abs n <? 2 ^ 53)%Z eqn:E; [|apply Z.ltb_ge in E; lia].
  by rewrite E.
Qed.

(** Larger ones are rounded to the nearest double and printed with the
    fewest digits that identify it, with an exponent from 22 digits
    on. *)
Lemma number_to_string_examples :
  number_to_string 42 = "42"
  /\ number_to_string (-7) = "-7"
  /\ number_to_string (2 ^ 53 + 1) = "9007199254740992"
  /\ number_to_string (2 ^ 64) = "18446744073709552000"
  /\ number_to_string (10 ^ 21 - 1) = "1e+21"
  /\ number_to_string (10 ^ 21) = "1e+21"
  /\ number_to_string (- 10 ^ 23) = "-1e+23"
  /\ number_to_string 123456789012345678901234567890 = "1.2345678901234568e+29"
  /\ number_to_string (10 ^ 400) = "Infinity".
Proof. by_running. Qed.

Lemma to_string_examples :
  to_string (JArr [JNum 1; JNull; JStr "a"; JArr [JBool true; JNum 3]; JObj []])
  = Some "1,,a,true,3,[object Object]"
  /\ to_string (JObj [("message", JStr "m")]) = Some "[object Object]"
  /\ to_string (JObj [("toString", JStr "m")]) = None
  /\ to_string (JArr [JNum 1; JObj [("toString", JNull)]]) = None
  /\ new_Error None = Some (Error "")
  /\ new_Error (Some JNull) = Some (Error "null")
  /\ new_Error (Some (JNum (10 ^ 21))) = Some (Error "1e+21").
Proof. by_running. Qed.

(** The error of lines 176 and 191, by the shape of the [message]
    member of an [error] object. *)
Lemma server_error_of_message data ms :
  prop "error" data = Some (JObj ms) ->
  (forall m, member "message" ms = Some (JStr m) -> server_error data = Some (Error m))
  /\ (member "message" ms = None -> server_error data = Some (Error ""))
  /\ (forall inner w, member "message" ms = Some (JObj inner) ->
        member "toString" inner = Some w -> server_error data = None).
Proof.
  intros He. unfold server_error. rewrite He. cbn. split_and!.
  - intros m Hm. by rewrite Hm.
  - intros Hm. by rewrite Hm.
  - intros inner w Hm Hw. rewrite Hm. cbn. by rewrite Hw.
Qed.

Lemma handleMessage_unmatched data st :
  pending_get (prop "id" data) st = None ->
  handleMessage data st =
    match prop "method" data with
    | Some name =>
        if truthy (Some name)
        then emit name [prop "params" data]
               (emit (JStr "notification") [Some data] st)
        else st
    | None => st
    end.
Proof.
  intros Hp. unfold handleMessage. rewrite Hp. by destruct (_ && _).
Qed.

Lemma handleMessage_matched_pendingRequests data st k h :
  pending_get (prop "id" data) st = Some (k, h) ->
  pendingRequests (handleMessage data st) = delete k (pendingRequests st).
Proof.
  intros Hp. destruct (is_str (prop "type" data) "res") eqn:Ht.
  - rewrite (handleMessage_res _ _ _ _ Ht Hp).
    unfold reject_server_error. destruct (res_rejects data);
      by rewrite ?reject_new_Error_pendingRequests, ?run_resolve_pendingRequests.
  - rewrite (handleMessage_legacy _ _ _ _ Ht Hp).
    unfold reject_server_error. destruct (legacy_rejects data);
      by rewrite ?reject_new_Error_pendingRequests, ?run_resolve_pendingRequests.
Qed.

(** ** The claims about single operations *)

(** C4.  A [call()] made while there is no socket, or the client is not
    connected, or not authenticated, fails at once with the
    not-connected error and changes nothing: no frame is sent, no entry
    is added to the pending map, no timer is armed. *)
Theorem call_not_connected method params uuid st :
  ws st = None \/ connected st = false \/ authenticated st = false ->
  call method params uuid st = (Thrown (Error "Not connected to OpenClaw Gateway"), st).
Proof.
  intros H. unfold call. destruct (ws st); [|done].
  destruct H as [H|[H|H]]; [done|rewrite H|rewrite H]; [done|].
  by rewrite andb_false_r.
Qed.

Lemma call_not_connected_witness :
  call "sessions.list" None "rq-1" (new_client true "secret")
  = (Thrown (Error "Not connected to OpenClaw Gateway"), new_client true "secret").
Proof. apply call_not_connected. left. reflexivity. Defined.

(** C1, as the code has it.  A frame of type "res" whose id names a
    pending entry removes that entry first.  Then, when [ok] is exactly
    [false] and [error] is truthy, it makes [new Error(error.message)]
    and calls the entry's reject with it; in every other case it calls
    the entry's resolve with [payload].  Making the error converts a
    defined message to a string, and that conversion throws for an
    object with a member of its own named [toString]: then reject is
    not called and the state is the one with the entry removed, the
    promise of a call still pending.  The entry is gone afterwards, so
    the same frame arriving again settles nothing; the promise of a call
    moves from pending to the one outcome.  With [ok:false] and the
    error message "boom" the rejection carries exactly "boom"; without a
    message it carries the empty message. *)
Theorem res_frame_settles data st k h :
  is_str (prop "type" data) "res" = true ->
  pending_get (prop "id" data) st = Some (k, h) ->
  let st' := handleMessage data st in
  st' = (if res_rejects data
         then match server_error data with
              | Some e => run_reject h e (pending_delete k st)
              | None => pending_delete k st
              end
         else run_resolve h (prop "payload" data) (pending_delete k st))
  /\ pendingRequests st' = delete k (pendingRequests st)
  /\ pending_get (prop "id" data) st' = None
  /\ promises (handleMessage data st') = promises st'
  /\ (forall p, h = CallHandlers p -> promise_state_of p st = Some Pending ->
        promise_state_of p st' =
          Some (if res_rejects data
                then match server_error data with
                     | Some e => Rejected e
                     | None => Pending
                     end
                else Resolved (prop "payload" data)))
  /\ (prop "ok" data = Some (JBool true) -> res_rejects data = false)
  /\ (forall ms, prop "ok" data = Some (JBool false) ->
        prop "error" data = Some (JObj ms) ->
        res_rejects data = true
        /\ (forall m, member "message" ms = Some (JStr m) ->
              server_error data = Some (Error m))
        /\ (member "message" ms = None -> server_error data = Some (Error ""))
        /\ (forall inner w, member "message" ms = Some (JObj inner) ->
              member "toString" inner = Some w -> server_error data = None)).
Proof.
  intros Ht Hp st'.
  pose proof (handleMessage_res _ _ _ _ Ht Hp) as Heq.
  pose proof (handleMessage_matched_pendingRequests _ _ _ _ Hp) as Hpend.
  destruct (pending_get_Some _ _ _ _ Hp) as [Hid Hk].
  assert (Hgone : pending_get (prop "id" data) st' = None).
  { rewrite Hid. unfold pending_get, st'. rewrite Hpend.
    by rewrite lookup_delete_eq. }
  split; [exact Heq|]. split; [exact Hpend|]. split; [exact Hgone|].
  split.
  { rewrite (handleMessage_unmatched _ _ Hgone).
    destruct (prop "method" data) as [name|]; [|done].
    by destruct (truthy (Some name)). }
  split.
  { intros p -> Hpe. unfold st'. rewrite Heq.
    unfold reject_server_error, reject_new_Error. fold (server_error data).
    destruct (res_rejects data); [destruct (server_error data)|];
      unfold run_reject, run_resolve; try by apply settle_pending.
    exact Hpe. }
  split.
  { intros Hok. unfold res_rejects. by rewrite Hok. }
  intros ms Hok He. unfold res_rejects, server_error.
  rewrite Hok, He. cbn. split; [done|]. split; [|split].
  - intros m Hm. by rewrite Hm.
  - intros Hm. by rewrite Hm.
  - intros inner w Hm Hw. rewrite Hm. cbn. by rewrite Hw.
Qed.

Lemma res_frame_settles_witness :
  promise_state_of 1 (handleMessage (error_frame "rq-1" "boom") session_calling)
  = Some (Rejected (Error "boom")).
Proof.
  assert (Ht : is_str (prop "type" (error_frame "rq-1" "boom")) "res" = true)
    by reflexivity.
  assert (Hp : pending_get (prop "id" (error_frame "rq-1" "boom")) session_calling
               = Some ("rq-1", CallHandlers 1)) by reflexivity.
  destruct (res_frame_settles _ _ _ _ Ht Hp) as (_ & _ & _ & _ & H & _).
  exact (H 1 eq_refl eq_refl).
Defined.

(** C1 as stated fails twice.  A frame that reports [ok:false] without
    an [error] member does not indicate success, yet the call is
    resolved (with [undefined]) and not rejected.  And a frame that
    reports [ok:false] with an error whose message is an object with a
    [toString] member settles nothing: the entry is removed, the promise
    stays pending, and the request timer, finding no entry when it
    fires, leaves it pending too. *)
Lemma res_frame_settles_counterexample :
  let data := JObj [("type", JStr "res"); ("id", JStr "rq-1"); ("ok", JBool false)] in
  let odd := JObj [("type", JStr "res"); ("id", JStr "rq-1"); ("ok", JBool false);
                   ("error", JObj [("message", JObj [("toString", JNum 1)])])] in
  let st' := step (SocketReceives 0 (Some odd) "unused") session_calling in
  (is_false (prop "ok" data) = true
   /\ pending_get (prop "id" data) session_calling = Some ("rq-1", CallHandlers 1)
   /\ promise_state_of 1 session_calling = Some Pending
   /\ promise_state_of 1 (handleMessage data session_calling) = Some (Resolved None)
   /\ promise_state_of 1 (step (SocketReceives 0 (Some data) "unused") session_calling)
      = Some (Resolved None))
  /\ (res_rejects odd = true
      /\ server_error odd = None
      /\ pendingRequests st' !! "rq-1" = None
      /\ promise_state_of 1 st' = Some Pending
      /\ timers st' = timers session_calling
      /\ promise_state_of 1 (run (map TimerFires (seq 0 (length (timers st')))) st')
         = Some Pending).
Proof. by_running. Qed.

(** The two early returns of [connect()].  It first looks at the
    connected flag and the socket: when the flag is set and the socket is open,
    every call returns success at once and changes nothing, whether or
    not an attempt is in flight.  Otherwise, when an attempt is in
    flight, every call returns that attempt's promise and changes
    nothing: no socket is made, nothing is sent, no timer is armed.  On
    a fresh client the first call starts the one attempt with the one
    socket and all later calls share it. *)
Theorem connect_shares_attempt :
  (forall st n, connected st && ws_open st = true ->
     connect_times n st = (replicate n AlreadyConnected, st))
  /\ (forall st p n, connected st && ws_open st = false -> connecting st = Some p ->
        connect_times n st = (replicate n (InFlight p), st))
  /\ (forall tok n,
        let st1 := snd (connect (new_client true tok)) in
        fst (connect (new_client true tok)) = Started 0
        /\ connecting st1 = Some 0
        /\ length (sockets st1) = 1
        /\ connect_times n st1 = (replicate n (InFlight 0), st1)).
Proof.
  assert (Hdone : forall st n, connected st && ws_open st = true ->
            connect_times n st = (replicate n AlreadyConnected, st)).
  { intros st n H. induction n as [|n IH]; [done|].
    cbn [connect_times]. unfold connect at 1. rewrite H, IH. done. }
  assert (Hshare : forall st p n, connected st && ws_open st = false ->
            connecting st = Some p ->
            connect_times n st = (replicate n (InFlight p), st)).
  { intros st p n H Hc. induction n as [|n IH]; [done|].
    cbn [connect_times]. unfold connect at 1. rewrite H, Hc, IH. done. }
  split; [exact Hdone|]. split; [exact Hshare|].
  intros tok n st1. repeat split. by apply Hshare.
Qed.

Lemma connect_shares_attempt_witness :
  connect_times 2 (snd (connect (new_client true "secret")))
  = ([InFlight 0; InFlight 0], snd (connect (new_client true "secret"))).
Proof.
  destruct connect_shares_attempt as (_ & H & _).
  apply (H _ 0 2); vm_compute; reflexivity.
Defined.

(** C2, where the code departs from it.  In [reconnecting] the attempt
    on socket 1 is in flight and undecided and no handshake has run on
    that socket, yet [connect()] answers with immediate success instead
    of the attempt's outcome, which can still be a failure.  The connected flag is the one the old
    socket set: lines 42-51 drop that socket with its close callback
    removed and leave the flag up, where [disconnect] (lines 342-347)
    clears it. *)
Theorem connect_with_stale_flag :
  connecting reconnecting = Some 1
  /\ promise_state_of 1 reconnecting = Some Pending
  /\ ws reconnecting = Some 1
  /\ (s_sent <$> sockets reconnecting !! 1) = Some []
  /\ fst (connect reconnecting) = AlreadyConnected
  /\ fst (connect reconnecting) <> InFlight 1
  /\ promise_state_of 1
       (run [SocketReceives 1 (Some challenge_frame) "hs-2";
             SocketReceives 1 (Some (error_frame "hs-2" "denied")) "unused"]
          (snd (connect reconnecting)))
     = Some (Rejected (Error "Authentication failed: denied")).
Proof. by_running. Qed.

(** C7, as the code has it.  The challenge frame (type "event", event
    "connect.challenge") is answered at lines 107-149 and never looked
    up in the pending map: an entry whose id it bears stays, and no
    promise is touched.  Of the other frames, one of type "res" whose id
    is pending is settled by the typed rule, also when it has the
    members of the legacy shape, and every other one whose id is pending
    is settled by the legacy rule, whatever its [type] member is or
    whether it has one: its reject is called when [error] is truthy, its
    resolve with [result] otherwise.  Either way the entry leaves the
    map, and the undecided promise of a call takes the outcome the rule
    gives; as in C1 there is none when making the error throws. *)
Theorem typed_then_legacy p uuid data st k h :
  pending_get (prop "id" data) st = Some (k, h) ->
  let typed := is_str (prop "type" data) "res" in
  let rejects := if typed then res_rejects data else legacy_rejects data in
  let value := if typed then prop "payload" data else prop "result" data in
  let st' := ws_onmessage p (Some data) uuid st in
  (is_challenge data = false ->
     st' = handleMessage data st
     /\ st' = (if rejects
               then match server_error data with
                    | Some e => run_reject h e (pending_delete k st)
                    | None => pending_delete k st
                    end
               else run_resolve h value (pending_delete k st))
     /\ pendingRequests st' = delete k (pendingRequests st)
     /\ (forall q, h = CallHandlers q -> promise_state_of q st = Some Pending ->
           promise_state_of q st'
           = Some (if rejects
                   then match server_error data with
                        | Some e => Rejected e
                        | None => Pending
                        end
                   else Resolved value)))
  /\ (is_challenge data = true ->
        typed = false
        /\ promises st' = promises st
        /\ (uuid <> k -> pendingRequests st' !! k = Some h)).
Proof.
  intros Hp typed rejects value st'.
  destruct (pending_get_Some _ _ _ _ Hp) as [Hid Hk].
  assert (Hobj : data <> JNull) by (intros ->; discriminate Hid).
  split.
  - intros Hch.
    assert (Hws : st' = handleMessage data st).
    { unfold st', ws_onmessage. destruct data; try done; by rewrite Hch. }
    assert (Heq : st' = if rejects
                        then reject_server_error h data (pending_delete k st)
                        else run_resolve h value (pending_delete k st)).
    { rewrite Hws. unfold rejects, value, typed.
      rewrite (typed_or_legacy _ _ _ _ Hp).
      by destruct (is_str (prop "type" data) "res"). }
    unfold reject_server_error, reject_new_Error in Heq.
    fold (server_error data) in Heq.
    split; [exact Hws|]. split; [exact Heq|]. split.
    + rewrite Hws. by apply (handleMessage_matched_pendingRequests _ _ _ h).
    + intros q -> Hpe. rewrite Heq.
      destruct rejects; [destruct (server_error data)|];
        unfold run_reject, run_resolve; try by apply settle_pending.
      exact Hpe.
  - intros Hch.
    assert (Hty : typed = false).
    { unfold typed. unfold is_challenge in Hch.
      apply andb_true_iff in Hch as [Hev _].
      destruct (prop "type" data) as [[| | |t| |]|]; try done.
      cbn in Hev |- *. apply String.eqb_eq in Hev as ->. done. }
    split; [exact Hty|].
    assert (Hst : (promises st' = promises st)
                  /\ pendingRequests st' = <[uuid := HandshakeHandlers p]> (pendingRequests st)).
    { unfold st', ws_onmessage. destruct data; try done. rewrite Hch.
      cbn [ws set_pendingRequests].
      destruct (ws st) as [i|]; [|done].
      unfold socket_send. by destruct (socket_is CONNECTING i _). }
    destruct Hst as [Hpr Hpd]. split; [exact Hpr|].
    intros Hne. rewrite Hpd. by rewrite lookup_insert_ne.
Qed.

Lemma typed_then_legacy_witness :
  promise_state_of 1
    (ws_onmessage 0 (Some (JObj [("id", JStr "rq-1"); ("result", JNum 7)])) "unused"
       session_calling)
  = Some (Resolved (Some (JNum 7))).
Proof.
  assert (Hp : pending_get (prop "id" (JObj [("id", JStr "rq-1"); ("result", JNum 7)]))
                 session_calling = Some ("rq-1", CallHandlers 1))
    by (vm_compute; reflexivity).
  assert (Hpe : promise_state_of 1 session_calling = Some Pending)
    by (vm_compute; reflexivity).
  destruct (typed_then_legacy 0 "unused" _ _ _ _ Hp) as [H _].
  destruct (H eq_refl) as (_ & _ & _ & Hq).
  exact (Hq 1 eq_refl Hpe).
Defined.

(** C7 as stated fails: an event frame, which carries a type other than
    "res", resolves the pending call whose id it bears. *)
Lemma typed_then_legacy_counterexample :
  let data := JObj [("type", JStr "event"); ("event", JStr "tick");
                    ("id", JStr "rq-1"); ("result", JNum 7)] in
  is_str (prop "type" data) "event" = true
  /\ promise_state_of 1 session_calling = Some Pending
  /\ pendingRequests session_calling !! "rq-1" = Some (CallHandlers 1)
  /\ promise_state_of 1 (step (SocketReceives 0 (Some data) "unused") session_calling)
     = Some (Resolved (Some (JNum 7)))
  /\ pendingRequests (step (SocketReceives 0 (Some data) "unused") session_calling) !! "rq-1"
     = None.
Proof. by_running. Qed.

(** C8, as the code has it.  A frame other than the challenge whose id
    matches no pending request is dispatched exactly when its [method]
    member is truthy: first to the "notification" subscribers, with the
    whole frame, then to the subscribers of that method name, with the
    frame's [params].  A frame without a truthy [method], such as a
    typed event frame that names itself in [event], is dropped: nothing
    is emitted and nothing changes. *)
Theorem unsolicited_dispatch p data uuid st :
  data <> JNull ->
  is_challenge data = false ->
  pending_get (prop "id" data) st = None ->
  (forall name, prop "method" data = Some name -> truthy (Some name) = true ->
     ws_onmessage p (Some data) uuid st =
       set_emitted (emitted st ++ [Emit (JStr "notification") [Some data];
                                   Emit name [prop "params" data]]) st)
  /\ (truthy (prop "method" data) = false ->
        ws_onmessage p (Some data) uuid st = st).
Proof.
  intros Hnull Hch Hp.
  assert (Heq : ws_onmessage p (Some data) uuid st = handleMessage data st).
  { unfold ws_onmessage. destruct data; try done; by rewrite Hch. }
  rewrite Heq, (handleMessage_unmatched _ _ Hp). split.
  - intros name -> ->. unfold emit. cbn. by rewrite <- app_assoc.
  - intros Hm. destruct (prop "method" data) as [name|]; [|done]. by rewrite Hm.
Qed.

Lemma unsolicited_dispatch_witness :
  let data := JObj [("method", JStr "chat.message"); ("params", JObj [("text", JStr "hi")])] in
  ws_onmessage 0 (Some data) "unused" session
  = set_emitted (emitted session ++
                 [Emit (JStr "notification") [Some data];
                  Emit (JStr "chat.message") [Some (JObj [("text", JStr "hi")])]]) session.
Proof.
  cbv zeta.
  match goal with |- ws_onmessage _ (Some ?d) _ _ = _ =>
    assert (Hp : pending_get (prop "id" d) session = None) by (vm_compute; reflexivity);
    assert (Hn : d <> JNull) by discriminate;
    exact (proj1 (unsolicited_dispatch 0 d "unused" session Hn eq_refl Hp)
             (JStr "chat.message") eq_refl eq_refl)
  end.
Defined.

(** C8 as stated fails: a typed event frame that names an event and
    matches no pending request is delivered to no subscriber. *)
Lemma unsolicited_dispatch_counterexample :
  let data := JObj [("type", JStr "event"); ("event", JStr "presence.update");
                    ("params", JObj [("online", JBool true)])] in
  pending_get (prop "id" data) session = None
  /\ prop "event" data = Some (JStr "presence.update")
  /\ emitted (step (SocketReceives 0 (Some data) "unused") session) = emitted session
  /\ step (SocketReceives 0 (Some data) "unused") session = session.
Proof. by_running. Qed.

(** ** Timers and reconnect handles *)

Lemma is_reconnect_action tm tm' :
  t_action tm' = t_action tm -> is_reconnect tm' = is_reconnect tm.
Proof. unfold is_reconnect. by intros ->. Qed.

Lemma clearTimeout_lookup t st t' :
  timers (clearTimeout t st) !! t'
  = (if decide (t = t') then disarm else id) <$> timers st !! t'.
Proof.
  cbn. rewrite list_lookup_alter. case_decide; [by subst|].
  by destruct (timers st !! t').
Qed.

Lemma clearTimeout_lookup_Some t st t' tm' :
  timers (clearTimeout t st) !! t' = Some tm' ->
  exists tm, timers st !! t' = Some tm
             /\ t_action tm' = t_action tm /\ t_delay tm' = t_delay tm.
Proof.
  rewrite clearTimeout_lookup. destruct (timers st !! t') as [tm|]; [|done].
  cbn. intros [= <-]. exists tm. by case_decide.
Qed.

Lemma clearTimeout_lookup_kept t st t' tm :
  timers st !! t' = Some tm ->
  exists tm', timers (clearTimeout t st) !! t' = Some tm'
              /\ t_action tm' = t_action tm /\ t_delay tm' = t_delay tm.
Proof.
  intros H. rewrite clearTimeout_lookup, H. cbn.
  eexists. split; [done|]. by case_decide.
Qed.

Lemma armed_at_clearTimeout t st t' :
  armed_at (clearTimeout t st) t' = if decide (t = t') then false else armed_at st t'.
Proof.
  unfold armed_at. rewrite clearTimeout_lookup.
  destruct (timers st !! t') as [tm|]; cbn; case_decide; try done.
  unfold is_reconnect. cbn. by rewrite andb_false_r.
Qed.

Lemma setTimeout_lookup cb d st t :
  timers (snd (setTimeout cb d st)) !! t
  = if decide (t = length (timers st))
    then Some {| t_action := cb; t_delay := d; t_active := true |}
    else timers st !! t.
Proof.
  cbn. case_decide as Ht.
  - subst t. rewrite lookup_app_r by lia. by rewrite Nat.sub_diag.
  - destruct (decide (t < length (timers st))).
    + by rewrite lookup_app_l.
    + rewrite !lookup_ge_None_2; [done|lia|].
      rewrite length_app. cbn. lia.
Qed.

Lemma armed_at_setTimeout cb d st t :
  armed_at (snd (setTimeout cb d st)) t
  = if decide (t = length (timers st))
    then match cb with ReconnectAttempt => true | _ => false end
    else armed_at st t.
Proof.
  unfold armed_at. rewrite setTimeout_lookup. case_decide; [|done].
  unfold is_reconnect. cbn. by destruct cb.
Qed.

Lemma armed_at_lt st t : armed_at st t = true -> t < length (timers st).
Proof.
  unfold armed_at. destruct (timers st !! t) eqn:E; [|done].
  intros _. by eapply lookup_lt_Some.
Qed.

(** The executable list and the pointwise reading agree. *)
Lemma elem_of_armed_reconnects st t :
  In t (armed_reconnects st) <-> armed_at st t = true.
Proof.
  unfold armed_reconnects. rewrite filter_In, in_seq. split; [tauto|].
  intros H. split; [|done]. pose proof (armed_at_lt _ _ H). lia.
Qed.

Lemma armed_reconnects_nil st :
  (forall t, armed_at st t = false) -> armed_reconnects st = [].
Proof.
  intros H. destruct (armed_reconnects st) as [|t l] eqn:E; [done|].
  assert (Hin : In t (armed_reconnects st)) by (rewrite E; by left).
  apply elem_of_armed_reconnects in Hin. by rewrite H in Hin.
Qed.

Lemma filter_seq_single (f : nat -> bool) t n len :
  (forall t', f t' = true <-> t' = t) -> n <= t < n + len ->
  List.filter f (seq n len) = [t].
Proof.
  revert n. induction len as [|len IH]; intros n Hf Hr; [lia|].
  cbn [seq List.filter]. destruct (f n) eqn:Hn.
  - apply Hf in Hn. subst n. f_equal.
    clear IH Hr. generalize (S t) (Nat.lt_succ_diag_r t).
    induction len as [|len IH]; intros m Hm; [done|].
    cbn [seq List.filter]. destruct (f m) eqn:Hfm.
    + apply Hf in Hfm. lia.
    + apply IH. lia.
  - apply IH; [done|]. destruct (decide (n = t)) as [->|]; [|lia].
    assert (f t = true) by (by apply Hf). congruence.
Qed.

Lemma armed_reconnects_single st t :
  (forall t', armed_at st t' = true <-> t' = t) -> armed_reconnects st = [t].
Proof.
  intros H. unfold armed_reconnects. apply filter_seq_single; [done|].
  assert (Ht : armed_at st t = true) by (by apply H).
  pose proof (armed_at_lt _ _ Ht). lia.
Qed.

(** In a consistent state the armed reconnect timers are exactly the one
    held in [reconnectTimer], if any. *)
Lemma consistent_armed_reconnects st :
  consistent st -> armed_reconnects st = option_list (reconnectTimer st).
Proof.
  intros C. destruct (reconnectTimer st) as [t|] eqn:E; cbn.
  - apply armed_reconnects_single. intros t'.
    rewrite (armed_is_field _ C), E. naive_solver.
  - apply armed_reconnects_nil. intros t.
    destruct (armed_at st t) eqn:Ha; [|done].
    apply (armed_is_field _ C) in Ha. congruence.
Qed.

(** ** Consistency is kept by every piece of the code *)

Lemma consistent_new_client url_ok tok : consistent (new_client url_ok tok).
Proof.
  split; cbn; done.
Qed.

(** A change that keeps the flags and the timers, makes no socket with a
    new timeout handle and suspends no new callback keeps consistency. *)
Lemma consistent_frame st st' :
  consistent st ->
  connected st' = connected st ->
  authenticated st' = authenticated st ->
  reconnectTimer st' = reconnectTimer st ->
  autoReconnect st' = autoReconnect st ->
  timers st' = timers st ->
  (ever_authenticated st' = false -> ever_authenticated st = false) ->
  (forall i s', sockets st' !! i = Some s' ->
     exists s, sockets st !! i = Some s /\ s_timeout s = s_timeout s') ->
  (forall p pr', promises st' !! p = Some pr' ->
     p_retry pr' = 0 \/ exists pr, promises st !! p = Some pr /\ p_retry pr = p_retry pr') ->
  consistent st'.
Proof.
  intros C Hc Ha Hr Hauto Ht He Hs Hp. split.
  - rewrite Hc, Ha. apply C.
  - intros t. unfold armed_at. rewrite Ht, Hr. apply (armed_is_field _ C).
  - rewrite Ht. apply C.
  - intros i s' Hi. destruct (Hs _ _ Hi) as (s & Hi' & <-).
    rewrite Ht. by apply (socket_timer _ C i).
  - rewrite Hauto, Hr. apply C.
  - intros Hn. destruct (never_authenticated _ C (He Hn)) as (H1 & H2 & H3).
    rewrite Hc, Hr. repeat split; [done..|].
    intros p pr' Hpr. destruct (Hp _ _ Hpr) as [|(pr & Hpr' & <-)]; [done|].
    by eapply H3.
Qed.

Ltac framed C :=
  apply (consistent_frame _ _ C); cbn; try done; eauto.

Lemma consistent_set_ws v st : consistent st -> consistent (set_ws v st).
Proof. intros C. framed C. Qed.

Lemma consistent_set_connecting v st : consistent st -> consistent (set_connecting v st).
Proof. intros C. framed C. Qed.

Lemma consistent_set_pendingRequests v st :
  consistent st -> consistent (set_pendingRequests v st).
Proof. intros C. framed C. Qed.

Lemma consistent_update_socket i f st :
  (forall s, s_timeout (f s) = s_timeout s) ->
  consistent st -> consistent (update_socket i f st).
Proof.
  intros Hf C. framed C. intros j s'. rewrite list_lookup_alter.
  case_decide; [subst j|by eauto].
  destruct (sockets st !! i) as [s|]; [|done]. cbn. intros [= <-]. eauto.
Qed.

Lemma consistent_socket_close i st : consistent st -> consistent (socket_close i st).
Proof.
  apply consistent_update_socket. intros s. unfold start_closing.
  by destruct (readyState s).
Qed.

Lemma consistent_ws_close st : consistent st -> consistent (ws_close st).
Proof.
  unfold ws_close. destruct (ws st); [|done]. apply consistent_socket_close.
Qed.

Lemma consistent_transmit i frame st :
  consistent st -> consistent (update_socket i (transmit frame) st).
Proof.
  apply consistent_update_socket. intros s. unfold transmit.
  by destruct (readyState s).
Qed.

Lemma ever_authenticated_emit name args st :
  ever_authenticated (emit name args st)
  = ever_authenticated st || is_connected_emission (Emit name args).
Proof.
  unfold ever_authenticated. cbn [emit emitted set_emitted].
  rewrite existsb_app. cbn. by rewrite orb_false_r.
Qed.

Lemma consistent_emit name args st : consistent st -> consistent (emit name args st).
Proof.
  intros C. apply (consistent_frame _ _ C); try done; [|by eauto..].
  rewrite ever_authenticated_emit. by intros [? _]%orb_false_iff.
Qed.

Lemma consistent_new_promise st : consistent st -> consistent (snd (new_promise st)).
Proof.
  intros C. framed C. intros p pr'.
  destruct (decide (p < length (promises st))).
  - rewrite lookup_app_l by done. eauto.
  - destruct (decide (p = length (promises st))) as [->|].
    + rewrite lookup_app_r, Nat.sub_diag by lia. cbn. intros [= <-]. by left.
    + rewrite lookup_ge_None_2; [done|]. rewrite length_app. cbn. lia.
Qed.

(** Both flags cleared, as [onclose] and [disconnect] do. *)
Lemma consistent_flags_off st :
  consistent st -> consistent (set_authenticated false (set_connected false st)).
Proof.
  intros C. split; cbn; try apply C; [done|].
  intros Hn. destruct (never_authenticated _ C Hn) as (_ & H2 & H3). done.
Qed.

(** Lines 132-135: both flags set and 'connected' emitted. *)
Lemma consistent_flags_on st :
  consistent st ->
  consistent (emit (JStr "connected") []
                (set_connecting None (set_authenticated true (set_connected true st)))).
Proof.
  intros C. split; cbn; try apply C; [done|].
  unfold ever_authenticated. cbn. rewrite existsb_app. cbn.
  by rewrite orb_true_r.
Qed.

Lemma consistent_clearTimeout t st :
  armed_at st t = false -> consistent st -> consistent (clearTimeout t st).
Proof.
  intros Hna C. split; try apply C.
  - intros t'. rewrite armed_at_clearTimeout. case_decide; [subst t'|apply C].
    cbn. rewrite <- (armed_is_field _ C), Hna. done.
  - intros t' tm' (tm & Htm & Hact & Hd)%clearTimeout_lookup_Some Hr.
    rewrite Hd. apply (reconnect_delay _ C t' tm Htm).
    by rewrite <- (is_reconnect_action _ _ Hact).
  - intros i s Hs. destruct (socket_timer _ C i s Hs) as (tm & Htm & Hk).
    destruct (clearTimeout_lookup_kept t _ _ _ Htm) as (tm' & Htm' & Hact & _).
    exists tm'. split; [done|]. by rewrite (is_reconnect_action _ _ Hact).
Qed.

(** The timeout handle captured by a socket is never a reconnect timer,
    so clearing it is harmless. *)
Lemma socket_timeout_unarmed st i s :
  consistent st -> sockets st !! i = Some s -> armed_at st (s_timeout s) = false.
Proof.
  intros C Hs. destruct (socket_timer _ C i s Hs) as (tm & Htm & Hk).
  unfold armed_at. by rewrite Htm, Hk.
Qed.

Lemma consistent_setTimeout cb d st :
  cb <> ReconnectAttempt ->
  consistent st -> consistent (snd (setTimeout cb d st)).
Proof.
  intros Hcb C. split; try apply C.
  - intros t. rewrite armed_at_setTimeout. case_decide; [subst t|apply C].
    change (reconnectTimer (snd (setTimeout cb d st))) with (reconnectTimer st).
    split; [by destruct cb|]. intros Hr.
    apply (armed_is_field _ C) in Hr. apply armed_at_lt in Hr. lia.
  - intros t tm. rewrite setTimeout_lookup. case_decide; [|apply C].
    intros [= <-]. unfold is_reconnect. cbn. by destruct cb.
  - intros i s Hs. destruct (socket_timer _ C i s Hs) as (tm & Htm & Hk).
    exists tm. split; [|done]. rewrite setTimeout_lookup.
    case_decide as Hlen; [|done]. apply lookup_lt_Some in Htm. lia.
Qed.

(** Clearing the timer held in [reconnectTimer] and forgetting it, as
    [disconnect], [setAutoReconnect(false)] and the firing of the timer
    itself do. *)
Lemma consistent_forget_reconnect t st :
  reconnectTimer st = Some t ->
  consistent st -> consistent (set_reconnectTimer None (clearTimeout t st)).
Proof.
  intros Hr C. split; try apply C; try done.
  - intros t'. change (armed_at (set_reconnectTimer None (clearTimeout t st)) t')
      with (armed_at (clearTimeout t st) t').
    rewrite armed_at_clearTimeout. cbn. case_decide; [done|].
    split; [|done]. intros Ha. apply (armed_is_field _ C) in Ha. congruence.
  - intros t' tm' (tm & Htm & Hact & Hd)%clearTimeout_lookup_Some Hk.
    rewrite Hd. apply (reconnect_delay _ C t' tm Htm).
    by rewrite <- (is_reconnect_action _ _ Hact).
  - intros i s Hs. destruct (socket_timer _ C i s Hs) as (tm & Htm & Hk).
    destruct (clearTimeout_lookup_kept t _ _ _ Htm) as (tm' & Htm' & Hact & _).
    exists tm'. split; [done|]. by rewrite (is_reconnect_action _ _ Hact).
  - intros Hn. destruct (never_authenticated _ C Hn) as (H1 & H2 & H3). done.
Qed.

Lemma consistent_scheduleReconnect st :
  ever_authenticated st = true ->
  consistent st -> consistent (scheduleReconnect st).
Proof.
  intros He C. unfold scheduleReconnect.
  destruct (reconnectTimer st) as [t|] eqn:Hr; [done|].
  destruct (autoReconnect st) eqn:Hauto; [|done]. cbn [is_Some_b negb orb].
  split; try apply C; try done.
  - intros t. change (armed_at _ t)
      with (armed_at (snd (setTimeout ReconnectAttempt 10000 st)) t).
    rewrite armed_at_setTimeout. cbn. case_decide; [by subst|].
    split; [|congruence]. intros Ha. apply (armed_is_field _ C) in Ha. congruence.
  - intros t tm. change (timers _ !! t)
      with (timers (snd (setTimeout ReconnectAttempt 10000 st)) !! t).
    rewrite setTimeout_lookup. case_decide; [by intros [= <-]|apply C].
  - intros i s Hs. destruct (socket_timer _ C i s Hs) as (tm & Htm & Hk).
    exists tm. split; [|done].
    change (timers _ !! s_timeout s)
      with (timers (snd (setTimeout ReconnectAttempt 10000 st)) !! s_timeout s).
    rewrite setTimeout_lookup.
    case_decide as Hlen; [|done]. apply lookup_lt_Some in Htm. lia.
  - cbn. congruence.
  - change (ever_authenticated _) with (ever_authenticated st). congruence.
Qed.

Lemma scheduleReconnect_ever_authenticated st :
  ever_authenticated (scheduleReconnect st) = ever_authenticated st.
Proof. unfold scheduleReconnect. by destruct (_ || _). Qed.

Lemma consistent_iter_scheduleReconnect n st :
  (n <> 0 -> ever_authenticated st = true) ->
  consistent st -> consistent (Nat.iter n scheduleReconnect st).
Proof.
  intros Hn C. destruct n as [|n]; [done|].
  specialize (Hn ltac:(lia)). rewrite Nat.iter_succ_r.
  assert (C1 : consistent (scheduleReconnect st))
    by (by apply consistent_scheduleReconnect).
  assert (He : ever_authenticated (scheduleReconnect st) = true)
    by (by rewrite scheduleReconnect_ever_authenticated).
  revert C1 He. generalize (scheduleReconnect st). clear.
  induction n as [|n IH]; intros st C He; [done|].
  rewrite Nat.iter_succ_r. apply IH.
  - by apply consistent_scheduleReconnect.
  - by rewrite scheduleReconnect_ever_authenticated.
Qed.

(** ** What scheduleReconnect and settle leave alone *)

Lemma scheduleReconnect_ws st : ws (scheduleReconnect st) = ws st.
Proof. unfold scheduleReconnect. by destruct (_ || _). Qed.

Lemma iter_scheduleReconnect_ws n st :
  ws (Nat.iter n scheduleReconnect st) = ws st.
Proof.
  induction n as [|n IH]; [done|].
  rewrite Nat.iter_succ. by rewrite scheduleReconnect_ws.
Qed.

Lemma settle_ws p o st : ws (settle p o st) = ws st.
Proof.
  unfold settle. destruct o; [done..|]. by rewrite iter_scheduleReconnect_ws.
Qed.

Lemma scheduleReconnect_connected st : connected (scheduleReconnect st) = connected st.
Proof. unfold scheduleReconnect. by destruct (_ || _). Qed.

Lemma iter_scheduleReconnect_connected n st :
  connected (Nat.iter n scheduleReconnect st) = connected st.
Proof.
  induction n as [|n IH]; [done|].
  rewrite Nat.iter_succ. by rewrite scheduleReconnect_connected.
Qed.

Lemma settle_connected p o st : connected (settle p o st) = connected st.
Proof.
  unfold settle. destruct o; [done..|]. by rewrite iter_scheduleReconnect_connected.
Qed.

Lemma scheduleReconnect_authenticated st : authenticated (scheduleReconnect st) = authenticated st.
Proof. unfold scheduleReconnect. by destruct (_ || _). Qed.

Lemma iter_scheduleReconnect_authenticated n st :
  authenticated (Nat.iter n scheduleReconnect st) = authenticated st.
Proof.
  induction n as [|n IH]; [done|].
  rewrite Nat.iter_succ. by rewrite scheduleReconnect_authenticated.
Qed.

Lemma settle_authenticated p o st : authenticated (settle p o st) = authenticated st.
Proof.
  unfold settle. destruct o; [done..|]. by rewrite iter_scheduleReconnect_authenticated.
Qed.

Lemma scheduleReconnect_connecting st : connecting (scheduleReconnect st) = connecting st.
Proof. unfold scheduleReconnect. by destruct (_ || _). Qed.

Lemma iter_scheduleReconnect_connecting n st :
  connecting (Nat.iter n scheduleReconnect st) = connecting st.
Proof.
  induction n as [|n IH]; [done|].
  rewrite Nat.iter_succ. by rewrite scheduleReconnect_connecting.
Qed.

Lemma settle_connecting p o st : connecting (settle p o st) = connecting st.
Proof.
  unfold settle. destruct o; [done..|]. by rewrite iter_scheduleReconnect_connecting.
Qed.

Lemma scheduleReconnect_autoReconnect st : autoReconnect (scheduleReconnect st) = autoReconnect st.
Proof. unfold scheduleReconnect. by destruct (_ || _). Qed.

Lemma iter_scheduleReconnect_autoReconnect n st :
  autoReconnect (Nat.iter n scheduleReconnect st) = autoReconnect st.
Proof.
  induction n as [|n IH]; [done|].
  rewrite Nat.iter_succ. by rewrite scheduleReconnect_autoReconnect.
Qed.

Lemma settle_autoReconnect p o st : autoReconnect (settle p o st) = autoReconnect st.
Proof.
  unfold settle. destruct o; [done..|]. by rewrite iter_scheduleReconnect_autoReconnect.
Qed.

Lemma scheduleReconnect_sockets st : sockets (scheduleReconnect st) = sockets st.
Proof. unfold scheduleReconnect. by destruct (_ || _). Qed.

Lemma iter_scheduleReconnect_sockets n st :
  sockets (Nat.iter n scheduleReconnect st) = sockets st.
Proof.
  induction n as [|n IH]; [done|].
  rewrite Nat.iter_succ. by rewrite scheduleReconnect_sockets.
Qed.

Lemma settle_sockets p o st : sockets (settle p o st) = sockets st.
Proof.
  unfold settle. destruct o; [done..|]. by rewrite iter_scheduleReconnect_sockets.
Qed.

Lemma scheduleReconnect_emitted st : emitted (scheduleReconnect st) = emitted st.
Proof. unfold scheduleReconnect. by destruct (_ || _). Qed.

Lemma iter_scheduleReconnect_emitted n st :
  emitted (Nat.iter n scheduleReconnect st) = emitted st.
Proof.
  induction n as [|n IH]; [done|].
  rewrite Nat.iter_succ. by rewrite scheduleReconnect_emitted.
Qed.

Lemma settle_emitted p o st : emitted (settle p o st) = emitted st.
Proof.
  unfold settle. destruct o; [done..|]. by rewrite iter_scheduleReconnect_emitted.
Qed.

Lemma settle_ever_authenticated p o st :
  ever_authenticated (settle p o st) = ever_authenticated st.
Proof. unfold ever_authenticated. by rewrite settle_emitted. Qed.

Lemma settle_promises p o st :
  promises (settle p o st) = alter (fulfil o) p (promises st).
Proof.
  unfold settle. destruct o; [done..|]. by rewrite iter_scheduleReconnect_promises.
Qed.

Lemma consistent_ever st :
  consistent st ->
  connected st = true \/ is_Some (reconnectTimer st) ->
  ever_authenticated st = true.
Proof.
  intros C H. destruct (ever_authenticated st) eqn:E; [done|].
  destruct (never_authenticated _ C E) as (H1 & H2 & _).
  destruct H as [H|[t H]]; congruence.
Qed.

Lemma consistent_settle p o st : consistent st -> consistent (settle p o st).
Proof.
  intros C. unfold settle.
  set (st1 := set_promises (alter (fulfil o) p (promises st)) st).
  assert (C1 : consistent st1).
  { framed C. intros q pr'. rewrite list_lookup_alter.
    case_decide; [subst q|by eauto].
    destruct (promises st !! p) as [pr|]; [|done]. cbn. intros [= <-].
    unfold fulfil. destruct (is_pending pr); cbn; eauto. }
  destruct o; [done..|]. apply consistent_iter_scheduleReconnect; [|done].
  intros Hn. change (ever_authenticated st1) with (ever_authenticated st).
  destruct (ever_authenticated st) eqn:E; [done|].
  destruct (never_authenticated _ C E) as (_ & _ & H3).
  unfold suspended_on in Hn. destruct (promises st !! p) as [pr|] eqn:Hp; [|done].
  destruct (is_pending pr); [|done]. by rewrite (H3 _ _ Hp) in Hn.
Qed.

Lemma consistent_await_connect p st :
  ever_authenticated st = true ->
  consistent st -> consistent (await_connect p st).
Proof.
  intros He C. unfold await_connect.
  destruct (p_state <$> promises st !! p) as [[]|]; try done.
  - split; try apply C.
    change (ever_authenticated _) with (ever_authenticated st). congruence.
  - by apply consistent_scheduleReconnect.
Qed.

(** ** Consistency is kept by every callback *)

Lemma consistent_run_resolve h v st : consistent st -> consistent (run_resolve h v st).
Proof.
  intros C. destruct h; unfold run_resolve; apply consistent_settle; [done|].
  by apply consistent_flags_on.
Qed.

Lemma consistent_run_reject h e st : consistent st -> consistent (run_reject h e st).
Proof.
  intros C. destruct h; unfold run_reject; apply consistent_settle; [done|].
  by apply consistent_ws_close, consistent_set_connecting.
Qed.

Lemma consistent_reject_new_Error h x st :
  consistent st -> consistent (reject_new_Error h x st).
Proof.
  intros C. unfold reject_new_Error. destruct (new_Error x); [|done].
  by apply consistent_run_reject.
Qed.

Lemma consistent_pending_delete k st : consistent st -> consistent (pending_delete k st).
Proof. apply consistent_set_pendingRequests. Qed.

Lemma consistent_handleMessage data st :
  consistent st -> consistent (handleMessage data st).
Proof.
  intros C. unfold handleMessage.
  repeat case_match;
    auto using consistent_run_resolve, consistent_reject_new_Error,
      consistent_pending_delete, consistent_emit.
Qed.

Lemma consistent_ws_onopen t st :
  armed_at st t = false -> consistent st -> consistent (ws_onopen t st).
Proof. apply consistent_clearTimeout. Qed.

Lemma consistent_ws_onclose t st :
  armed_at st t = false -> consistent st -> consistent (ws_onclose t st).
Proof.
  intros Ha C. unfold ws_onclose.
  set (st1 := clearTimeout t st).
  assert (C1 : consistent st1) by (by apply consistent_clearTimeout).
  set (st2 := emit _ _ _).
  assert (C2 : consistent st2).
  { by apply consistent_emit, consistent_set_connecting, consistent_flags_off. }
  destruct (autoReconnect st2 && connected st1) eqn:Hb; [|done].
  apply andb_true_iff in Hb as [_ Hc].
  apply consistent_scheduleReconnect; [|done].
  unfold st2. rewrite ever_authenticated_emit.
  change (ever_authenticated (set_connecting _ _)) with (ever_authenticated st).
  rewrite (consistent_ever st C); [done|]. by left.
Qed.

Lemma consistent_ws_onerror p t st :
  armed_at st t = false -> consistent st -> consistent (ws_onerror p t st).
Proof.
  intros Ha C. unfold ws_onerror.
  set (st2 := emit _ _ _).
  assert (C2 : consistent st2)
    by (by apply consistent_emit, consistent_clearTimeout).
  destruct (negb (connected st2)); [|done].
  by apply consistent_settle, consistent_set_connecting.
Qed.

Lemma consistent_ws_onmessage p parsed uuid st :
  consistent st -> consistent (ws_onmessage p parsed uuid st).
Proof.
  intros C. unfold ws_onmessage, socket_send.
  repeat case_match; simplify_eq;
    auto using consistent_handleMessage, consistent_set_pendingRequests,
      consistent_transmit.
Qed.

Lemma consistent_discard_socket st : consistent st -> consistent (discard_socket st).
Proof.
  intros C. unfold discard_socket. destruct (ws st) as [i|]; [|done].
  apply consistent_set_ws. case_match.
  - by apply consistent_socket_close, consistent_update_socket.
  - by apply consistent_update_socket.
Qed.

Lemma consistent_open_socket p st : consistent st -> consistent (open_socket p st).
Proof.
  intros C. unfold open_socket.
  pose proof (consistent_setTimeout (ConnectionTimeout p) 10000 st ltac:(done) C) as C1.
  destruct (setTimeout (ConnectionTimeout p) 10000 st) as [t st1] eqn:E.
  assert (Ht : t = length (timers st)) by (by injection E).
  assert (Hst1 : st1 = snd (setTimeout (ConnectionTimeout p) 10000 st)) by (by rewrite E).
  cbn [snd] in C1. apply consistent_set_ws.
  split; try apply C1.
  intros i s. cbn [sockets set_sockets].
  destruct (decide (i < length (sockets st1))).
  - rewrite lookup_app_l by done. apply C1.
  - destruct (decide (i = length (sockets st1))) as [->|].
    + rewrite lookup_app_r, Nat.sub_diag by lia. cbn. intros [= <-]. cbn.
      change (timers (set_sockets _ st1)) with (timers st1).
      rewrite Hst1, setTimeout_lookup, Ht. rewrite decide_True by done. eauto.
    + rewrite lookup_ge_None_2; [done|]. rewrite length_app. cbn. lia.
Qed.

Lemma consistent_connect st : consistent st -> consistent (snd (connect st)).
Proof.
  intros C. unfold connect. destruct (_ && _); [done|].
  destruct (connecting st); [done|].
  pose proof (consistent_new_promise st C) as C1.
  destruct (new_promise st) as [p st1]. cbn [snd] in *.
  apply consistent_set_connecting. case_match.
  - by apply consistent_open_socket, consistent_discard_socket.
  - by apply consistent_settle, consistent_set_connecting, consistent_discard_socket.
Qed.

Lemma discard_socket_emitted st : emitted (discard_socket st) = emitted st.
Proof. unfold discard_socket. by repeat case_match. Qed.

Lemma connect_emitted st : emitted (snd (connect st)) = emitted st.
Proof.
  unfold connect. destruct (_ && _); [done|].
  destruct (connecting st); [done|].
  unfold new_promise. cbv beta iota zeta. cbn [snd emitted set_connecting].
  case_match.
  - change (emitted (open_socket ?p ?s)) with (emitted s).
    by rewrite discard_socket_emitted.
  - rewrite settle_emitted. cbn [emitted set_connecting].
    by rewrite discard_socket_emitted.
Qed.

Lemma connect_ever_authenticated st :
  ever_authenticated (snd (connect st)) = ever_authenticated st.
Proof. unfold ever_authenticated. by rewrite connect_emitted. Qed.

Lemma consistent_call method params uuid st :
  consistent st -> consistent (snd (call method params uuid st)).
Proof.
  intros C. unfold call. destruct (ws st) as [i|]; [|done].
  destruct (_ && _); [|done].
  pose proof (consistent_new_promise st C) as C1.
  destruct (new_promise st) as [p st1]. cbn [snd] in C1.
  set (st2 := set_pendingRequests _ st1).
  assert (C2 : consistent st2) by (by apply consistent_set_pendingRequests).
  pose proof (consistent_setTimeout (RequestTimeout uuid method p) 30000 st2
                ltac:(done) C2) as C3.
  destruct (setTimeout (RequestTimeout uuid method p) 30000 st2) as [t st3].
  cbn [snd] in *. unfold socket_send.
  destruct (socket_is CONNECTING i st3).
  - by apply consistent_settle.
  - by apply consistent_transmit.
Qed.

Lemma consistent_connection_timeout p st :
  consistent st -> consistent (connection_timeout p st).
Proof.
  intros C. unfold connection_timeout. destruct (negb _); [|done].
  by apply consistent_settle, consistent_ws_close.
Qed.

Lemma consistent_request_timeout id method p st :
  consistent st -> consistent (request_timeout id method p st).
Proof.
  intros C. unfold request_timeout. destruct (_ !! _); [|done].
  by apply consistent_settle, consistent_pending_delete.
Qed.

(** The reconnect callback, run by the host once it has disarmed the
    timer [t] that [reconnectTimer] holds. *)
Lemma consistent_reconnect_attempt t st :
  reconnectTimer st = Some t ->
  consistent st -> consistent (reconnect_attempt (clearTimeout t st)).
Proof.
  intros Hr C. unfold reconnect_attempt.
  set (st1 := set_reconnectTimer None (clearTimeout t st)).
  assert (C1 : consistent st1) by (by apply consistent_forget_reconnect).
  assert (He : ever_authenticated st1 = true).
  { change (ever_authenticated st1) with (ever_authenticated st).
    apply (consistent_ever st C). right. by eexists. }
  destruct (negb (autoReconnect st1)); [done|].
  pose proof (consistent_connect st1 C1) as C2.
  pose proof (connect_ever_authenticated st1) as He2. rewrite He in He2.
  destruct (connect st1) as [[|p|p] st2]; cbn [snd] in *;
    [done|by apply consistent_await_connect..].
Qed.

Lemma consistent_set_autoReconnect_on st :
  consistent st -> consistent (set_autoReconnect true st).
Proof. intros C. split; try apply C. done. Qed.

Lemma consistent_auto_off st :
  consistent st ->
  consistent (match reconnectTimer st with
              | Some t => set_reconnectTimer None (clearTimeout t (set_autoReconnect false st))
              | None => set_autoReconnect false st
              end).
Proof.
  intros C. destruct (reconnectTimer st) as [t|] eqn:Hr.
  - pose proof (consistent_forget_reconnect t st Hr C) as C1.
    split; try apply C1. done.
  - split; try apply C. cbn. congruence.
Qed.

Lemma consistent_disconnect st : consistent st -> consistent (disconnect st).
Proof.
  intros C. unfold disconnect.
  change (reconnectTimer (set_autoReconnect false st)) with (reconnectTimer st).
  pose proof (consistent_auto_off st C) as C1.
  set (st1 := match reconnectTimer st with Some _ => _ | None => _ end) in *.
  apply consistent_set_connecting, consistent_flags_off.
  destruct (ws st1); [|done].
  apply consistent_set_ws, consistent_socket_close.
  by apply consistent_update_socket.
Qed.

Lemma consistent_setAutoReconnect enabled st :
  consistent st -> consistent (setAutoReconnect enabled st).
Proof.
  intros C. unfold setAutoReconnect.
  change (reconnectTimer (set_autoReconnect enabled st)) with (reconnectTimer st).
  destruct enabled.
  - destruct (reconnectTimer st); by apply consistent_set_autoReconnect_on.
  - apply (consistent_auto_off st C).
Qed.

Lemma consistent_step e st : consistent st -> consistent (step e st).
Proof.
  intros C. destruct e as [| m ps u | | b | i | i | i | i | i d u | t]; cbn [step].
  - by apply consistent_connect.
  - by apply consistent_call.
  - by apply consistent_disconnect.
  - by apply consistent_setAutoReconnect.
  - destruct (sockets st !! i) as [s|] eqn:Hs; [|done].
    pose proof (socket_timeout_unarmed _ _ _ C Hs) as Hu.
    destruct (readyState s); try done.
    assert (C1 : consistent (update_socket i (with_readyState OPEN) st))
      by (by apply consistent_update_socket).
    destruct (onopen s); [|done]. by apply consistent_ws_onopen.
  - destruct (socket_is OPEN i st); [|done]. by apply consistent_update_socket.
  - destruct (sockets st !! i) as [s|] eqn:Hs; [|done].
    pose proof (socket_timeout_unarmed _ _ _ C Hs) as Hu.
    assert (C1 : consistent (update_socket i (with_readyState CLOSED) st))
      by (by apply consistent_update_socket).
    destruct (readyState s); try done;
      (destruct (onclose s); [|done]; by apply consistent_ws_onclose).
  - destruct (sockets st !! i) as [s|] eqn:Hs; [|done].
    pose proof (socket_timeout_unarmed _ _ _ C Hs) as Hu.
    destruct (readyState s); try done;
      (destruct (onerror s); [|done]; by apply consistent_ws_onerror).
  - destruct (sockets st !! i) as [s|] eqn:Hs; [|done].
    destruct (readyState s); try done.
    destruct (onmessage s); [|done]. by apply consistent_ws_onmessage.
  - destruct (timers st !! t) as [tm|] eqn:Htm; [|done].
    destruct (t_active tm) eqn:Hact; [|done].
    destruct (t_action tm) as [p|id m p|] eqn:Hk; cbn [run_timer].
    + apply consistent_connection_timeout, consistent_clearTimeout; [|done].
      unfold armed_at, is_reconnect. by rewrite Htm, Hk.
    + apply consistent_request_timeout, consistent_clearTimeout; [|done].
      unfold armed_at, is_reconnect. by rewrite Htm, Hk.
    + apply consistent_reconnect_attempt; [|done].
      apply (armed_is_field _ C). unfold armed_at, is_reconnect.
      by rewrite Htm, Hk, Hact.
Qed.

Lemma consistent_run evs st : consistent st -> consistent (run evs st).
Proof.
  revert st. induction evs as [|e evs IH]; intros st C; [done|].
  cbn. by apply IH, consistent_step.
Qed.

Lemma reachable_consistent st : reachable st -> consistent st.
Proof.
  intros (url_ok & tok & evs & ->).
  apply consistent_run, consistent_new_client.
Qed.

Lemma reachable_run evs st : reachable st -> reachable (run evs st).
Proof.
  intros (url_ok & tok & evs0 & ->). exists url_ok, tok, (evs0 ++ evs)%list.
  unfold run. by rewrite fold_left_app.
Qed.

(** ** What the callbacks leave alone: the auto-reconnect switch *)

Create Rewrite HintDb frame_autoReconnect.

#[local] Hint Rewrite settle_autoReconnect scheduleReconnect_autoReconnect
  iter_scheduleReconnect_autoReconnect : frame_autoReconnect.

Ltac frame_autoReconnect :=
  unfold open_socket, socket_send, ws_close;
  unfold new_promise, setTimeout;
  cbv beta iota zeta;
  repeat first
    [ done
    | progress autorewrite with frame_autoReconnect
    | progress cbn [autoReconnect set_ws set_reconnectTimer set_pendingRequests
                    set_connected set_authenticated set_connecting
                    set_autoReconnect set_sockets set_timers set_promises
                    set_emitted emit clearTimeout update_socket pending_delete
                    socket_close snd fst]
    | progress simplify_eq
    | case_match ].

Lemma await_connect_autoReconnect p st : autoReconnect (await_connect p st) = autoReconnect st.
Proof. unfold await_connect. frame_autoReconnect. Qed.

#[local] Hint Rewrite await_connect_autoReconnect : frame_autoReconnect.

Lemma run_resolve_autoReconnect h v st : autoReconnect (run_resolve h v st) = autoReconnect st.
Proof. unfold run_resolve. frame_autoReconnect. Qed.

#[local] Hint Rewrite run_resolve_autoReconnect : frame_autoReconnect.

Lemma run_reject_autoReconnect h e st : autoReconnect (run_reject h e st) = autoReconnect st.
Proof. unfold run_reject. frame_autoReconnect. Qed.

#[local] Hint Rewrite run_reject_autoReconnect : frame_autoReconnect.

Lemma reject_new_Error_autoReconnect h x st :
  autoReconnect (reject_new_Error h x st) = autoReconnect st.
Proof.
  unfold reject_new_Error. destruct (new_Error x); [|done].
  apply run_reject_autoReconnect.
Qed.

#[local] Hint Rewrite reject_new_Error_autoReconnect : frame_autoReconnect.

Lemma handleMessage_autoReconnect data st : autoReconnect (handleMessage data st) = autoReconnect st.
Proof. unfold handleMessage. frame_autoReconnect. Qed.

#[local] Hint Rewrite handleMessage_autoReconnect : frame_autoReconnect.

Lemma ws_onopen_autoReconnect t st : autoReconnect (ws_onopen t st) = autoReconnect st.
Proof. unfold ws_onopen. frame_autoReconnect. Qed.

#[local] Hint Rewrite ws_onopen_autoReconnect : frame_autoReconnect.

Lemma ws_onclose_autoReconnect t st : autoReconnect (ws_onclose t st) = autoReconnect st.
Proof. unfold ws_onclose. frame_autoReconnect. Qed.

#[local] Hint Rewrite ws_onclose_autoReconnect : frame_autoReconnect.

Lemma ws_onerror_autoReconnect p t st : autoReconnect (ws_onerror p t st) = autoReconnect st.
Proof. unfold ws_onerror. frame_autoReconnect. Qed.

#[local] Hint Rewrite ws_onerror_autoReconnect : frame_autoReconnect.

Lemma ws_onmessage_autoReconnect p parsed uuid st : autoReconnect (ws_onmessage p parsed uuid st) = autoReconnect st.
Proof. unfold ws_onmessage. frame_autoReconnect. Qed.

#[local] Hint Rewrite ws_onmessage_autoReconnect : frame_autoReconnect.

Lemma discard_socket_autoReconnect st : autoReconnect (discard_socket st) = autoReconnect st.
Proof. unfold discard_socket. frame_autoReconnect. Qed.

#[local] Hint Rewrite discard_socket_autoReconnect : frame_autoReconnect.

Lemma connect_autoReconnect st : autoReconnect (snd (connect st)) = autoReconnect st.
Proof. unfold connect. frame_autoReconnect. Qed.

#[local] Hint Rewrite connect_autoReconnect : frame_autoReconnect.

Lemma call_autoReconnect method params uuid st : autoReconnect (snd (call method params uuid st)) = autoReconnect st.
Proof. unfold call. frame_autoReconnect. Qed.

#[local] Hint Rewrite call_autoReconnect : frame_autoReconnect.

Lemma connection_timeout_autoReconnect p st : autoReconnect (connection_timeout p st) = autoReconnect st.
Proof. unfold connection_timeout. frame_autoReconnect. Qed.

#[local] Hint Rewrite connection_timeout_autoReconnect : frame_autoReconnect.

Lemma request_timeout_autoReconnect id method p st : autoReconnect (request_timeout id method p st) = autoReconnect st.
Proof. unfold request_timeout. frame_autoReconnect. Qed.

#[local] Hint Rewrite request_timeout_autoReconnect : frame_autoReconnect.

Lemma reconnect_attempt_autoReconnect st : autoReconnect (reconnect_attempt st) = autoReconnect st.
Proof.
  unfold reconnect_attempt. destruct (negb _); [done|].
  pose proof (connect_autoReconnect (set_reconnectTimer None st)) as H.
  destruct (connect _) as [[|p|p] st2]; cbn [snd] in H;
    by rewrite ?await_connect_autoReconnect.
Qed.

#[local] Hint Rewrite reconnect_attempt_autoReconnect : frame_autoReconnect.

Lemma run_timer_autoReconnect cb st : autoReconnect (run_timer cb st) = autoReconnect st.
Proof. unfold run_timer. frame_autoReconnect. Qed.

#[local] Hint Rewrite run_timer_autoReconnect : frame_autoReconnect.

(** ** The remaining claims *)

(** C10.  In every state the client can reach, the connected flag and
    the authenticated flag are equal, so [isConnected()] is the
    authenticated flag together with an open socket. *)
Theorem flags_always_agree st :
  reachable st ->
  connected st = authenticated st
  /\ isConnected st = (authenticated st && ws_open st).
Proof.
  intros R. pose proof (flags_agree _ (reachable_consistent _ R)) as H.
  split; [done|]. unfold isConnected. rewrite H. by destruct (authenticated st).
Qed.

Lemma session_reachable : reachable session.
Proof. by exists true, "secret", handshake_trace. Qed.

Lemma flags_always_agree_witness :
  connected session = authenticated session
  /\ isConnected session = (authenticated session && ws_open session).
Proof. apply flags_always_agree, session_reachable. Defined.

(** C9, as the code has it.  A challenge is answered every time it
    arrives, also in the middle of a handshake: the handler stores a
    further resolve/reject pair under the new id and sends a further
    connect request on the open socket.  A frame of type "res" whose id
    is not pending changes no field of the client, no socket, no timer
    and no promise; it is emitted as a notification if it has a truthy
    [method], and without one it changes nothing at all. *)
Theorem challenge_and_unknown_id :
  (forall p data uuid st i s,
     is_challenge data = true -> ws st = Some i ->
     sockets st !! i = Some s -> readyState s = OPEN ->
     ws_onmessage p (Some data) uuid st =
       set_sockets (<[i := with_sent (s_sent s ++ [connect_request uuid (token st)]) s]>
                      (sockets st))
         (set_pendingRequests (<[uuid := HandshakeHandlers p]> (pendingRequests st)) st))
  /\ (forall data st,
        is_str (prop "type" data) "res" = true ->
        pending_get (prop "id" data) st = None ->
        handleMessage data st = set_emitted (emitted (handleMessage data st)) st
        /\ (truthy (prop "method" data) = false -> handleMessage data st = st)).
Proof.
  split.
  - intros p data uuid st i s Hch Hws Hs Hr.
    unfold ws_onmessage. destruct data; try done. rewrite Hch.
    cbn [ws set_pendingRequests]. rewrite Hws.
    unfold socket_send, socket_is, update_socket. cbn [sockets set_pendingRequests].
    rewrite Hs, Hr. cbn [ready_state_eqb]. f_equal.
    rewrite list_insert_alter. apply list_eq. intros j.
    rewrite !list_lookup_alter. case_decide; [subst j|done].
    rewrite Hs. cbn. unfold transmit. by rewrite Hr.
  - intros data st Ht Hp. rewrite (handleMessage_unmatched _ _ Hp).
    destruct (prop "method" data) as [name|]; [|by destruct st].
    destruct (truthy (Some name)); [|by destruct st].
    split; [done|]. done.
Qed.

Lemma challenge_and_unknown_id_witness :
  handleMessage (ok_frame "no-such-id" JNull) session_calling = session_calling.
Proof.
  destruct challenge_and_unknown_id as [_ H].
  assert (Hp : pending_get (prop "id" (ok_frame "no-such-id" JNull)) session_calling = None)
    by (vm_compute; reflexivity).
  exact (proj2 (H (ok_frame "no-such-id" JNull) session_calling eq_refl Hp) eq_refl).
Defined.

(** C9 as stated fails: a second challenge in the middle of the
    handshake adds a second pending entry and sends a second connect
    request. *)
Lemma challenge_and_unknown_id_counterexample :
  let st' := step (SocketReceives 0 (Some challenge_frame) "hs-2") handshaking in
  pendingRequests handshaking !! "hs-1" = Some (HandshakeHandlers 0)
  /\ promise_state_of 0 handshaking = Some Pending
  /\ (s_sent <$> sockets handshaking !! 0) = Some [connect_request "hs-1" "secret"]
  /\ pendingRequests st' !! "hs-2" = Some (HandshakeHandlers 0)
  /\ (s_sent <$> sockets st' !! 0)
     = Some [connect_request "hs-1" "secret"; connect_request "hs-2" "secret"].
Proof. by_running. Qed.

(** C6, as the code has it.  [disconnect()] is total, and afterwards the
    socket handle is dropped, the socket it pointed to has no close
    callback and is neither open nor connecting, auto-reconnect is off,
    no reconnect timer is armed, both session flags are cleared and the
    in-flight marker is cleared.  The pending-request map and the
    promises of the calls in it are left exactly as they were. *)
Theorem disconnect_clears st :
  reachable st ->
  let st' := disconnect st in
  ws st' = None
  /\ autoReconnect st' = false
  /\ reconnectTimer st' = None
  /\ armed_reconnects st' = []
  /\ connected st' = false
  /\ authenticated st' = false
  /\ connecting st' = None
  /\ isConnected st' = false
  /\ pendingRequests st' = pendingRequests st
  /\ promises st' = promises st
  /\ (forall i s, ws st = Some i -> sockets st !! i = Some s ->
        exists s', sockets st' !! i = Some s' /\ onclose s' = false
                   /\ readyState s' <> OPEN /\ readyState s' <> CONNECTING).
Proof.
  intros R st'.
  pose proof (consistent_disconnect _ (reachable_consistent _ R)) as C'.
  assert (Hr : reconnectTimer st' = None).
  { unfold st', disconnect. cbn. repeat case_match; done. }
  assert (Hw : ws st' = None).
  { unfold st', disconnect. cbn. repeat case_match; simplify_eq/=; done. }
  assert (Hauto : autoReconnect st' = false).
  { unfold st', disconnect. cbn. repeat case_match; done. }
  assert (Harmed : armed_reconnects st' = []).
  { unfold st'. rewrite (consistent_armed_reconnects _ C'). fold st'. by rewrite Hr. }
  assert (Hpend : pendingRequests st' = pendingRequests st).
  { unfold st', disconnect. cbn. repeat case_match; done. }
  assert (Hprom : promises st' = promises st).
  { unfold st', disconnect. cbn. repeat case_match; done. }
  assert (Hsock : forall i s, ws st = Some i -> sockets st !! i = Some s ->
            exists s', sockets st' !! i = Some s' /\ onclose s' = false
                       /\ readyState s' <> OPEN /\ readyState s' <> CONNECTING).
  { intros i s Hi Hs. unfold st', disconnect. cbn.
    destruct (reconnectTimer st); cbn; rewrite Hi;
      unfold socket_close, update_socket; cbn;
      rewrite !list_lookup_alter_eq, Hs; cbn;
      (eexists; split; [done|]); unfold start_closing; cbn;
      destruct (readyState s) eqn:E; cbn; rewrite ?E; split_and!; done. }
  split_and!; done.
Qed.

Lemma session_calling_reachable : reachable session_calling.
Proof.
  by exists true, "secret", calling_trace.
Qed.

Lemma disconnect_clears_witness :
  pendingRequests (disconnect session_calling) = pendingRequests session_calling.
Proof.
  pose proof session_calling_reachable as R.
  exact (proj1 (proj2 (proj2 (proj2 (proj2 (proj2 (proj2 (proj2 (proj2
           (disconnect_clears session_calling R)))))))))).
Defined.

(** C6 as stated fails: after [disconnect()] the pending-request map
    still holds the call that was in flight, and its promise is still
    undecided. *)
Lemma disconnect_clears_counterexample :
  pendingRequests (disconnect session_calling) !! "rq-1" = Some (CallHandlers 1)
  /\ pendingRequests (disconnect session_calling) <> ∅
  /\ promise_state_of 1 (disconnect session_calling) = Some Pending.
Proof.
  split; [by_running|]. split; [|by_running].
  intros H. assert (Hl : pendingRequests (disconnect session_calling) !! "rq-1" = None)
    by (by rewrite H).
  revert Hl. vm_compute. discriminate.
Qed.

(** ** Reconnection *)

Lemma step_SocketCloses st i s :
  sockets st !! i = Some s -> readyState s <> CLOSED -> onclose s = true ->
  step (SocketCloses i) st
  = ws_onclose (s_timeout s) (update_socket i (with_readyState CLOSED) st).
Proof.
  intros Hs Hr Hc. cbn [step]. rewrite Hs, Hc. by destruct (readyState s).
Qed.

(** [onclose] in one piece: everything up to the decision, then the
    decision of line 86. *)
Lemma ws_onclose_decision t st :
  ws_onclose t st =
    let st2 := emit (JStr "disconnected") []
                 (set_connecting None
                    (set_authenticated false (set_connected false (clearTimeout t st)))) in
    if autoReconnect st && connected st then scheduleReconnect st2 else st2.
Proof. done. Qed.

Lemma scheduleReconnect_armed st :
  autoReconnect st = true -> is_Some (reconnectTimer (scheduleReconnect st)).
Proof.
  intros Ha. unfold scheduleReconnect. rewrite Ha.
  destruct (reconnectTimer st) eqn:E; cbn; [by rewrite E|done].
Qed.

Lemma await_connect_connecting p st : connecting (await_connect p st) = connecting st.
Proof.
  unfold await_connect. repeat case_match; try done.
  by rewrite scheduleReconnect_connecting.
Qed.

(** The reconnect callback, run while auto-reconnect is on, the client
    is not connected and no attempt is in flight, starts an attempt. *)
Lemma reconnect_attempt_starts st :
  autoReconnect st = true -> connected st = false -> connecting st = None ->
  connecting (reconnect_attempt st) = Some (length (promises st)).
Proof.
  intros Hauto Hcon Hing. unfold reconnect_attempt.
  cbn [autoReconnect set_reconnectTimer]. rewrite Hauto. cbn [negb].
  unfold connect. cbn [connected connecting set_reconnectTimer].
  rewrite Hcon, Hing. cbn [andb]. unfold new_promise. cbv beta iota zeta.
  by rewrite await_connect_connecting.
Qed.

Lemma disconnect_autoReconnect st : autoReconnect (disconnect st) = false.
Proof. unfold disconnect. cbn. by repeat case_match. Qed.

Lemma setAutoReconnect_autoReconnect b st :
  autoReconnect (setAutoReconnect b st) = b.
Proof. unfold setAutoReconnect. cbn. by repeat case_match. Qed.

(** Only [setAutoReconnect(true)] switches auto-reconnect back on. *)
Lemma step_autoReconnect_off e st :
  e <> DoSetAutoReconnect true ->
  autoReconnect st = false -> autoReconnect (step e st) = false.
Proof.
  intros He Hoff.
  destruct e as [| m ps u | | b | i | i | i | i | i d u | t]; cbn [step].
  - by rewrite connect_autoReconnect.
  - by rewrite call_autoReconnect.
  - apply disconnect_autoReconnect.
  - rewrite setAutoReconnect_autoReconnect. by destruct b.
  - repeat case_match; by rewrite ?ws_onopen_autoReconnect.
  - by case_match.
  - repeat case_match; by rewrite ?ws_onclose_autoReconnect.
  - repeat case_match; by rewrite ?ws_onerror_autoReconnect.
  - repeat case_match; by rewrite ?ws_onmessage_autoReconnect.
  - repeat case_match; by rewrite ?run_timer_autoReconnect.
Qed.

Lemma run_autoReconnect_off evs st :
  Forall (fun e => e <> DoSetAutoReconnect true) evs ->
  autoReconnect st = false -> autoReconnect (run evs st) = false.
Proof.
  revert st. induction evs as [|e evs IH]; intros st Hall Hoff; [done|].
  apply Forall_cons in Hall as [He Hall]. cbn. apply IH; [done|].
  by apply step_autoReconnect_off.
Qed.

(** What a close does about reconnecting, in every reachable state.
    When the socket closes: if the handshake has never succeeded,
    no reconnect timer is armed, before or afterwards; if the client is not
    connected at that moment or auto-reconnect is off, the close arms no
    timer and leaves the armed reconnect timers as they were; if the
    client is connected and auto-reconnect is on, exactly one reconnect
    timer is armed afterwards, it is the one in [reconnectTimer], it
    waits the 10000 ms, and when it fires it starts a connection
    attempt.  After [disconnect()], as long as nobody calls
    [setAutoReconnect(true)], auto-reconnect stays off and no reconnect
    timer is armed, whatever else happens and however long one waits:
    there is nothing that could start a reconnect attempt. *)
Theorem reconnect_after_close st i s :
  reachable st ->
  sockets st !! i = Some s -> readyState s <> CLOSED -> onclose s = true ->
  let st' := step (SocketCloses i) st in
  (ever_authenticated st = false ->
     armed_reconnects st = [] /\ armed_reconnects st' = []
     /\ reconnectTimer st' = None)
  /\ (connected st && autoReconnect st = false ->
        armed_reconnects st' = armed_reconnects st
        /\ length (timers st') = length (timers st))
  /\ (connected st && autoReconnect st = true ->
        exists t tm,
          armed_reconnects st' = [t] /\ reconnectTimer st' = Some t
          /\ timers st' !! t = Some tm /\ t_action tm = ReconnectAttempt
          /\ t_delay tm = 10000%Z /\ t_active tm = true
          /\ connecting st' = None
          /\ connecting (step (TimerFires t) st') = Some (length (promises st')))
  /\ (forall evs,
        Forall (fun e => e <> DoSetAutoReconnect true) evs ->
        autoReconnect (run evs (disconnect st)) = false
        /\ reconnectTimer (run evs (disconnect st)) = None
        /\ armed_reconnects (run evs (disconnect st)) = []).
Proof.
  intros R Hs Hr Hc st'.
  pose proof (reachable_consistent _ R) as C.
  pose proof (consistent_step (SocketCloses i) _ C) as C'. fold st' in C'.
  assert (Heq : st' = ws_onclose (s_timeout s)
                        (update_socket i (with_readyState CLOSED) st))
    by (by apply step_SocketCloses).
  rewrite ws_onclose_decision in Heq. cbv zeta in Heq.
  change (autoReconnect (update_socket _ _ st)) with (autoReconnect st) in Heq.
  change (connected (update_socket _ _ st)) with (connected st) in Heq.
  assert (Hquiet : connected st && autoReconnect st = false ->
            armed_reconnects st' = armed_reconnects st
            /\ length (timers st') = length (timers st)).
  { intros Hb. rewrite andb_comm in Hb. rewrite Hb in Heq.
    rewrite (consistent_armed_reconnects _ C), (consistent_armed_reconnects _ C').
    rewrite Heq. cbn. by rewrite length_alter. }
  split; [|split; [exact Hquiet|split]].
  - intros Hn. destruct (never_authenticated _ C Hn) as (Hcon & Hrt & _).
    destruct Hquiet as [Ha _]; [by rewrite Hcon|].
    rewrite Ha, (consistent_armed_reconnects _ C), Hrt. split; [done|].
    split; [done|].
    rewrite Hcon, andb_false_r in Heq. by rewrite Heq.
  - intros Hb. rewrite andb_comm in Hb. rewrite Hb in Heq.
    apply andb_true_iff in Hb as [Hauto _].
    destruct (scheduleReconnect_armed
                (emit (JStr "disconnected") []
                   (set_connecting None
                      (set_authenticated false
                         (set_connected false
                            (clearTimeout (s_timeout s)
                               (update_socket i (with_readyState CLOSED) st)))))) Hauto)
      as [t Ht].
    rewrite <- Heq in Ht.
    assert (Ha : armed_at st' t = true) by (by apply (armed_is_field _ C')).
    unfold armed_at in Ha. destruct (timers st' !! t) as [tm|] eqn:Htm; [|done].
    apply andb_true_iff in Ha as [Hk Hact].
    assert (Hkind : t_action tm = ReconnectAttempt).
    { unfold is_reconnect in Hk. by destruct (t_action tm). }
    exists t, tm. rewrite (consistent_armed_reconnects _ C'), Ht.
    split_and!; try done.
    + by apply (reconnect_delay _ C' t).
    + by rewrite Heq, scheduleReconnect_connecting.
    + cbn [step]. rewrite Htm, Hact, Hkind. cbn [run_timer].
      rewrite reconnect_attempt_starts; [done|..]; cbn [clearTimeout set_timers
        autoReconnect connected connecting].
      * by rewrite Heq, scheduleReconnect_autoReconnect.
      * by rewrite Heq, scheduleReconnect_connected.
      * by rewrite Heq, scheduleReconnect_connecting.
  - intros evs Hall.
    assert (Cd : consistent (run evs (disconnect st)))
      by (by apply consistent_run, consistent_disconnect).
    assert (Hoff : autoReconnect (run evs (disconnect st)) = false)
      by (apply run_autoReconnect_off; [done|apply disconnect_autoReconnect]).
    pose proof (off_no_timer _ Cd Hoff) as Hrt.
    split; [done|]. split; [done|].
    by rewrite (consistent_armed_reconnects _ Cd), Hrt.
Qed.

Lemma reconnect_after_close_witness :
  exists t tm,
    armed_reconnects (step (SocketCloses 0) session) = [t]
    /\ reconnectTimer (step (SocketCloses 0) session) = Some t
    /\ timers (step (SocketCloses 0) session) !! t = Some tm
    /\ t_action tm = ReconnectAttempt
    /\ t_delay tm = 10000%Z /\ t_active tm = true
    /\ connecting (step (SocketCloses 0) session) = None
    /\ connecting (step (TimerFires t) (step (SocketCloses 0) session))
       = Some (length (promises (step (SocketCloses 0) session))).
Proof.
  pose proof session_reachable as R.
  assert (Hs : sockets session !! 0
               = Some {| readyState := OPEN; onopen := true; onclose := true;
                         onerror := true; onmessage := true; s_promise := 0;
                         s_timeout := 0;
                         s_sent := [connect_request "hs-1" "secret"] |})
    by (vm_compute; reflexivity).
  destruct (reconnect_after_close session 0 _ R Hs ltac:(discriminate) eq_refl)
    as (_ & _ & H & _).
  apply H. vm_compute. reflexivity.
Defined.

(** With every socket closed and no timer armed, the host has nothing
    left to deliver: only the owner can make the client move. *)
Lemma dormant_step e st :
  is_host_event e = true -> dormant st = true -> step e st = st.
Proof.
  intros He [Hs Ht]%andb_true_iff.
  assert (Hclosed : forall i s, sockets st !! i = Some s -> readyState s = CLOSED).
  { intros i s H. rewrite forallb_forall in Hs.
    assert (Hin : In s (sockets st))
      by (apply list_elem_of_In, list_elem_of_lookup; eauto).
    pose proof (Hs s Hin) as Hc. by destruct (readyState s). }
  assert (Hidle : forall t tm, timers st !! t = Some tm -> t_active tm = false).
  { intros t tm H. rewrite forallb_forall in Ht.
    assert (Hin : In tm (timers st))
      by (apply list_elem_of_In, list_elem_of_lookup; eauto).
    pose proof (Ht tm Hin) as Hc. by destruct (t_active tm). }
  destruct e; try discriminate He; cbn [step].
  - destruct (sockets st !! i) as [s|] eqn:E; [|done].
    by rewrite (Hclosed _ _ E).
  - unfold socket_is. destruct (sockets st !! i) as [s|] eqn:E; [|done].
    by rewrite (Hclosed _ _ E).
  - destruct (sockets st !! i) as [s|] eqn:E; [|done].
    by rewrite (Hclosed _ _ E).
  - destruct (sockets st !! i) as [s|] eqn:E; [|done].
    by rewrite (Hclosed _ _ E).
  - destruct (sockets st !! i) as [s|] eqn:E; [|done].
    by rewrite (Hclosed _ _ E).
  - destruct (timers st !! t) as [tm|] eqn:E; [|done].
    by rewrite (Hidle _ _ E).
Qed.

Lemma dormant_run evs st :
  Forall (fun e => is_host_event e = true) evs -> dormant st = true ->
  run evs st = st.
Proof.
  induction evs as [|e evs IH]; intros Hall Hd; [done|].
  apply Forall_cons in Hall as [He Hall].
  change (run (e :: evs) st) with (run evs (step e st)).
  rewrite (dormant_step e st He Hd). by apply IH.
Qed.

(** C3, where the code departs from it.  The close callback decides by
    the connected flag as it is at that moment (line 86), not by whether
    a handshake has succeeded.

    In [retrying] the handshake has succeeded once, auto-reconnect is
    on, and the reconnect attempt has its socket 1 open, waiting for the
    challenge.  When that socket closes, the flag is down: no reconnect
    is scheduled, and the attempt's promise is neither fulfilled nor
    rejected, so the reconnect callback waiting for it (lines 214-218)
    never gets to schedule the next attempt.  Every socket is closed
    and no timer is armed: whatever the host does from then on, the
    client stays as it is, disconnected, until its owner calls
    [connect()].

    In [reconnecting] the flag is still up from the session on the
    dropped socket 0.  Socket 1 has seen no challenge and sent nothing,
    yet when it closes a reconnect is scheduled and 'disconnected' is
    emitted. *)
Theorem reconnect_follows_flag :
  (ever_authenticated retrying = true
   /\ autoReconnect retrying = true
   /\ ws retrying = Some 1
   /\ socket_is OPEN 1 retrying = true
   /\ connecting retrying = Some 1
   /\ connected retrying = false
   /\ let st' := step (SocketCloses 1) retrying in
      armed_reconnects st' = []
      /\ reconnectTimer st' = None
      /\ connecting st' = None
      /\ promise_state_of 1 st' = Some Pending
      /\ isConnected st' = false
      /\ autoReconnect st' = true
      /\ forall evs, Forall (fun e => is_host_event e = true) evs ->
           run evs st' = st')
  /\ (connected reconnecting = true
      /\ ws reconnecting = Some 1
      /\ (s_sent <$> sockets reconnecting !! 1) = Some []
      /\ promise_state_of 1 reconnecting = Some Pending
      /\ armed_reconnects reconnecting = []
      /\ let st' := step (SocketCloses 1) reconnecting in
         armed_reconnects st' = [2]
         /\ reconnectTimer st' = Some 2
         /\ last (emitted st') = Some (Emit (JStr "disconnected") [])
         /\ promise_state_of 1 st' = Some Pending).
Proof.
  cbv zeta. repeat match goal with |- _ /\ _ => split end.
  all: try (intros evs Hall; apply dormant_run; [done|vm_compute; reflexivity]).
  all: vm_compute; reflexivity.
Qed.

Lemma reconnect_follows_flag_witness :
  run [TimerFires 0; TimerFires 1; TimerFires 2; SocketFails 1;
       SocketReceives 1 (Some challenge_frame) "hs-2"]
    (step (SocketCloses 1) retrying)
  = step (SocketCloses 1) retrying.
Proof.
  destruct reconnect_follows_flag as [(_ & _ & _ & _ & _ & _ & H) _].
  cbv zeta in H. destruct H as (_ & _ & _ & _ & _ & _ & H).
  apply H. repeat constructor.
Defined.

(** ** Captured promises exist *)

Lemma scoped_new_client url_ok tok : scoped (new_client url_ok tok).
Proof. split; cbn; done. Qed.

Lemma scoped_frame st st' :
  scoped st ->
  pendingRequests st' = pendingRequests st ->
  timers st' = timers st ->
  length (promises st) <= length (promises st') ->
  (forall i s', sockets st' !! i = Some s' ->
     exists s, sockets st !! i = Some s /\ s_promise s = s_promise s') ->
  scoped st'.
Proof.
  intros S Hp Ht Hl Hs. split.
  - intros k h. rewrite Hp. intros H%(sc_entries _ S). lia.
  - intros t tm q. rewrite Ht. intros H1 H2.
    pose proof (sc_timers _ S _ _ _ H1 H2). lia.
  - intros i s' (s & H & <-)%Hs. apply (sc_sockets _ S) in H. lia.
Qed.

Ltac scoped_framed S :=
  apply (scoped_frame _ _ S); cbn; try done; eauto.

Lemma scoped_update_socket i f st :
  (forall s, s_promise (f s) = s_promise s) ->
  scoped st -> scoped (update_socket i f st).
Proof.
  intros Hf S. scoped_framed S. intros j s'. rewrite list_lookup_alter.
  case_decide; [subst j|by eauto].
  destruct (sockets st !! i) as [s|]; [|done]. cbn. intros [= <-]. eauto.
Qed.

Lemma scoped_socket_close i st : scoped st -> scoped (socket_close i st).
Proof.
  apply scoped_update_socket. intros s. unfold start_closing.
  by destruct (readyState s).
Qed.

Lemma scoped_ws_close st : scoped st -> scoped (ws_close st).
Proof. unfold ws_close. destruct (ws st); [|done]. apply scoped_socket_close. Qed.

Lemma scoped_transmit i frame st :
  scoped st -> scoped (update_socket i (transmit frame) st).
Proof.
  apply scoped_update_socket. intros s. unfold transmit.
  by destruct (readyState s).
Qed.

Lemma scoped_new_promise st : scoped st -> scoped (snd (new_promise st)).
Proof. intros S. scoped_framed S. rewrite length_app. lia. Qed.

Lemma scoped_insert k h st :
  handler_promise h < length (promises st) ->
  scoped st -> scoped (set_pendingRequests (<[k := h]> (pendingRequests st)) st).
Proof.
  intros Hh S. split; try apply S. intros k' h'. cbn.
  rewrite lookup_insert. case_decide; [by intros [= <-]|apply S].
Qed.

Lemma scoped_pending_delete k st : scoped st -> scoped (pending_delete k st).
Proof.
  intros S. split; try apply S. intros k' h'. cbn.
  rewrite lookup_delete. case_decide; [done|apply S].
Qed.

Lemma scoped_clearTimeout t st : scoped st -> scoped (clearTimeout t st).
Proof.
  intros S. split; try apply S.
  intros t' tm' q (tm & Htm & Hact & _)%clearTimeout_lookup_Some.
  rewrite Hact. by apply (sc_timers _ S t').
Qed.

Lemma scoped_setTimeout cb d st :
  (forall q, timer_promise cb = Some q -> q < length (promises st)) ->
  scoped st -> scoped (snd (setTimeout cb d st)).
Proof.
  intros Hcb S. split; try apply S.
  intros t tm q. rewrite setTimeout_lookup. case_decide; [|apply S].
  intros [= <-]. apply Hcb.
Qed.

Lemma scoped_scheduleReconnect st : scoped st -> scoped (scheduleReconnect st).
Proof.
  intros S. unfold scheduleReconnect. destruct (_ || _); [done|].
  pose proof (scoped_setTimeout ReconnectAttempt 10000 st ltac:(done) S) as S1.
  split; apply S1.
Qed.

Lemma scoped_iter_scheduleReconnect n st :
  scoped st -> scoped (Nat.iter n scheduleReconnect st).
Proof.
  intros S. induction n as [|n IH]; [done|].
  rewrite Nat.iter_succ. by apply scoped_scheduleReconnect.
Qed.

Lemma scoped_settle p o st : scoped st -> scoped (settle p o st).
Proof.
  intros S. unfold settle.
  assert (S1 : scoped (set_promises (alter (fulfil o) p (promises st)) st)).
  { scoped_framed S. by rewrite length_alter. }
  destruct o; [done..|]. by apply scoped_iter_scheduleReconnect.
Qed.

Lemma scoped_await_connect p st : scoped st -> scoped (await_connect p st).
Proof.
  intros S. unfold await_connect.
  destruct (p_state <$> promises st !! p) as [[]|]; try done.
  - scoped_framed S. by rewrite length_alter.
  - by apply scoped_scheduleReconnect.
Qed.

Lemma scoped_run_resolve h v st : scoped st -> scoped (run_resolve h v st).
Proof.
  intros S. destruct h; unfold run_resolve; apply scoped_settle; [done|].
  scoped_framed S.
Qed.

Lemma scoped_run_reject h e st : scoped st -> scoped (run_reject h e st).
Proof.
  intros S. destruct h; unfold run_reject; apply scoped_settle; [done|].
  apply scoped_ws_close. scoped_framed S.
Qed.

Lemma scoped_reject_new_Error h x st :
  scoped st -> scoped (reject_new_Error h x st).
Proof.
  intros S. unfold reject_new_Error. destruct (new_Error x); [|done].
  by apply scoped_run_reject.
Qed.

Lemma scoped_emit name args st : scoped st -> scoped (emit name args st).
Proof. intros S. scoped_framed S. Qed.

Lemma scoped_set_connecting v st : scoped st -> scoped (set_connecting v st).
Proof. intros S. scoped_framed S. Qed.

Lemma scoped_set_ws v st : scoped st -> scoped (set_ws v st).
Proof. intros S. scoped_framed S. Qed.

Lemma scoped_handleMessage data st : scoped st -> scoped (handleMessage data st).
Proof.
  intros S. unfold handleMessage.
  repeat case_match;
    auto using scoped_run_resolve, scoped_reject_new_Error, scoped_pending_delete,
      scoped_emit.
Qed.

Lemma scoped_ws_onclose t st : scoped st -> scoped (ws_onclose t st).
Proof.
  intros S. unfold ws_onclose. set (st2 := emit _ _ _).
  assert (S2 : scoped st2).
  { apply scoped_emit. pose proof (scoped_clearTimeout t st S) as S1.
    scoped_framed S1. }
  case_match; [by apply scoped_scheduleReconnect|done].
Qed.

Lemma scoped_ws_onerror p t st : scoped st -> scoped (ws_onerror p t st).
Proof.
  intros S. unfold ws_onerror. set (st2 := emit _ _ _).
  assert (S2 : scoped st2) by (by apply scoped_emit, scoped_clearTimeout).
  case_match; [|done]. by apply scoped_settle, scoped_set_connecting.
Qed.

Lemma scoped_ws_onmessage p parsed uuid st :
  p < length (promises st) ->
  scoped st -> scoped (ws_onmessage p parsed uuid st).
Proof.
  intros Hp S. unfold ws_onmessage, socket_send.
  repeat case_match; simplify_eq;
    auto using scoped_handleMessage, scoped_insert, scoped_transmit.
Qed.

Lemma scoped_discard_socket st : scoped st -> scoped (discard_socket st).
Proof.
  intros S. unfold discard_socket. destruct (ws st) as [i|]; [|done].
  apply scoped_set_ws. case_match.
  - by apply scoped_socket_close, scoped_update_socket.
  - by apply scoped_update_socket.
Qed.

Lemma discard_socket_promises st : promises (discard_socket st) = promises st.
Proof. unfold discard_socket. by repeat case_match. Qed.

Lemma scoped_open_socket p st :
  p < length (promises st) -> scoped st -> scoped (open_socket p st).
Proof.
  intros Hp S. unfold open_socket.
  pose proof (scoped_setTimeout (ConnectionTimeout p) 10000 st) as S1.
  destruct (setTimeout (ConnectionTimeout p) 10000 st) as [t st1] eqn:E.
  assert (Hst1 : st1 = snd (setTimeout (ConnectionTimeout p) 10000 st)) by (by rewrite E).
  cbn [snd] in S1. specialize (S1 ltac:(by intros q [= <-]) S).
  apply scoped_set_ws. split; try apply S1.
  intros i s. cbn [sockets set_sockets promises].
  destruct (decide (i < length (sockets st1))).
  - rewrite lookup_app_l by done. apply S1.
  - destruct (decide (i = length (sockets st1))) as [->|].
    + rewrite lookup_app_r, Nat.sub_diag by lia. cbn. intros [= <-]. cbn.
      by rewrite Hst1.
    + rewrite lookup_ge_None_2; [done|]. rewrite length_app. cbn. lia.
Qed.

Lemma scoped_connect st : scoped st -> scoped (snd (connect st)).
Proof.
  intros S. unfold connect. destruct (_ && _); [done|].
  destruct (connecting st); [done|].
  pose proof (scoped_new_promise st S) as S1.
  assert (Hp : length (promises st) < length (promises (snd (new_promise st))))
    by (cbn; rewrite length_app; cbn; lia).
  destruct (new_promise st) as [p st1] eqn:E.
  assert (Hpe : p = length (promises st)) by (by injection E).
  cbn [snd] in *. apply scoped_set_connecting. case_match.
  - apply scoped_open_socket; [|by apply scoped_discard_socket].
    rewrite discard_socket_promises. lia.
  - by apply scoped_settle, scoped_set_connecting, scoped_discard_socket.
Qed.

Lemma scoped_call method params uuid st :
  scoped st -> scoped (snd (call method params uuid st)).
Proof.
  intros S. unfold call. destruct (ws st) as [i|]; [|done].
  destruct (_ && _); [|done].
  pose proof (scoped_new_promise st S) as S1.
  assert (Hp : length (promises st) < length (promises (snd (new_promise st))))
    by (cbn; rewrite length_app; cbn; lia).
  destruct (new_promise st) as [p st1] eqn:E.
  assert (Hpe : p = length (promises st)) by (by injection E).
  cbn [snd] in *.
  set (st2 := set_pendingRequests _ st1).
  assert (S2 : scoped st2) by (apply scoped_insert; [cbn; lia|done]).
  pose proof (scoped_setTimeout (RequestTimeout uuid method p) 30000 st2) as S3.
  destruct (setTimeout (RequestTimeout uuid method p) 30000 st2) as [t st3].
  cbn [snd] in *. specialize (S3 ltac:(intros q [= <-]; cbn; lia) S2).
  unfold socket_send. destruct (socket_is CONNECTING i st3).
  - by apply scoped_settle.
  - by apply scoped_transmit.
Qed.

Lemma scoped_reconnect_attempt st : scoped st -> scoped (reconnect_attempt st).
Proof.
  intros S. unfold reconnect_attempt.
  assert (S1 : scoped (set_reconnectTimer None st)) by scoped_framed S.
  case_match; [done|].
  pose proof (scoped_connect _ S1) as S2.
  destruct (connect _) as [[|p|p] st2]; cbn [snd] in *;
    [done|by apply scoped_await_connect..].
Qed.

Lemma scoped_run_timer cb st : scoped st -> scoped (run_timer cb st).
Proof.
  intros S. destruct cb as [p|id m p|]; cbn [run_timer].
  - unfold connection_timeout. case_match; [|done].
    by apply scoped_settle, scoped_ws_close.
  - unfold request_timeout. case_match; [|done].
    by apply scoped_settle, scoped_pending_delete.
  - by apply scoped_reconnect_attempt.
Qed.

Lemma scoped_disconnect st : scoped st -> scoped (disconnect st).
Proof.
  intros S. unfold disconnect.
  set (st1 := match reconnectTimer (set_autoReconnect false st) with
              | Some _ => _ | None => _ end).
  assert (S1 : scoped st1).
  { unfold st1. destruct (reconnectTimer _) as [t|].
    - pose proof (scoped_clearTimeout t (set_autoReconnect false st)) as Hc.
      specialize (Hc ltac:(scoped_framed S)). scoped_framed Hc.
    - scoped_framed S. }
  assert (S2 : scoped (match ws st1 with
                       | Some i => set_ws None (socket_close i
                                     (update_socket i without_onclose st1))
                       | None => st1
                       end)).
  { case_match; [|done].
    by apply scoped_set_ws, scoped_socket_close, scoped_update_socket. }
  scoped_framed S2.
Qed.

Lemma scoped_setAutoReconnect b st : scoped st -> scoped (setAutoReconnect b st).
Proof.
  intros S. unfold setAutoReconnect.
  assert (S0 : scoped (set_autoReconnect b st)) by scoped_framed S.
  destruct (reconnectTimer _) as [t|]; [|done]. destruct (negb b); [|done].
  pose proof (scoped_clearTimeout t _ S0) as Hc. scoped_framed Hc.
Qed.

Lemma scoped_step e st : scoped st -> scoped (step e st).
Proof.
  intros S. destruct e as [| m ps u | | b | i | i | i | i | i d u | t]; cbn [step].
  - by apply scoped_connect.
  - by apply scoped_call.
  - by apply scoped_disconnect.
  - by apply scoped_setAutoReconnect.
  - repeat case_match; try done;
      try apply scoped_clearTimeout; by apply scoped_update_socket.
  - case_match; [|done]. by apply scoped_update_socket.
  - repeat case_match; try done;
      try apply scoped_ws_onclose; by apply scoped_update_socket.
  - repeat case_match; try done; by apply scoped_ws_onerror.
  - destruct (sockets st !! i) as [s|] eqn:Hs; [|done].
    repeat case_match; try done.
    apply scoped_ws_onmessage; [|done]. by apply (sc_sockets _ S i).
  - repeat case_match; try done. by apply scoped_run_timer, scoped_clearTimeout.
Qed.

Lemma reachable_scoped st : reachable st -> scoped st.
Proof.
  intros (url_ok & tok & evs & ->). generalize (scoped_new_client url_ok tok).
  generalize (new_client url_ok tok). induction evs as [|e evs IH]; intros st S; [done|].
  cbn. by apply IH, scoped_step.
Qed.

(** ** An outstanding call stays outstanding *)

Section Outstanding.
Variables (uuid method : string) (p t : nat).

#[local] Abbreviation waiting := (outstanding uuid method p t).

Lemma outstanding_promise_lt st : waiting st -> p < length (promises st).
Proof.
  intros O. pose proof (o_pending _ _ _ _ _ O) as H. unfold promise_state_of in H.
  destruct (promises st !! p) eqn:E; [|done]. by eapply lookup_lt_Some.
Qed.

Lemma outstanding_timer_lt st : waiting st -> t < length (timers st).
Proof. intros O. eapply lookup_lt_Some, (o_timer _ _ _ _ _ O). Qed.

Lemma outstanding_frame st st' :
  waiting st ->
  pendingRequests st' = pendingRequests st ->
  timers st' = timers st ->
  promise_state_of p st' = promise_state_of p st ->
  reconnectTimer st' = reconnectTimer st \/ reconnectTimer st' = None ->
  (forall i s', sockets st' !! i = Some s' ->
     exists s, sockets st !! i = Some s
               /\ s_promise s = s_promise s' /\ s_timeout s = s_timeout s') ->
  waiting st'.
Proof.
  intros O Hp Ht Hs Hr Hsock. split.
  - rewrite Hp. apply O.
  - rewrite Hs. apply O.
  - rewrite Ht. apply O.
  - rewrite Hp. apply O.
  - rewrite Ht. apply O.
  - intros i s' (s & H & <- & <-)%Hsock. by apply (o_sockets _ _ _ _ _ O i).
  - destruct Hr as [-> | ->]; [apply O|done].
Qed.

Ltac kept O :=
  apply (outstanding_frame _ _ O); cbn; try done; eauto.

Lemma outstanding_update_socket i f st :
  (forall s, s_promise (f s) = s_promise s /\ s_timeout (f s) = s_timeout s) ->
  waiting st -> waiting (update_socket i f st).
Proof.
  intros Hf O. kept O. intros j s'. rewrite list_lookup_alter.
  case_decide; [subst j|by eauto].
  destruct (sockets st !! i) as [s|]; [|done]. cbn. intros [= <-].
  exists s. split; [done|]. destruct (Hf s). done.
Qed.

Lemma outstanding_socket_close i st : waiting st -> waiting (socket_close i st).
Proof.
  apply outstanding_update_socket. intros s. unfold start_closing.
  by destruct (readyState s).
Qed.

Lemma outstanding_ws_close st : waiting st -> waiting (ws_close st).
Proof.
  unfold ws_close. destruct (ws st); [|done]. apply outstanding_socket_close.
Qed.

Lemma outstanding_transmit i frame st :
  waiting st -> waiting (update_socket i (transmit frame) st).
Proof.
  apply outstanding_update_socket. intros s. unfold transmit.
  by destruct (readyState s).
Qed.

Lemma outstanding_new_promise st : waiting st -> waiting (snd (new_promise st)).
Proof.
  intros O. kept O. unfold promise_state_of. cbn.
  rewrite lookup_app_l; [done|]. by apply outstanding_promise_lt.
Qed.

Lemma outstanding_emit name args st : waiting st -> waiting (emit name args st).
Proof. intros O. kept O. Qed.

Lemma outstanding_set_connecting v st : waiting st -> waiting (set_connecting v st).
Proof. intros O. kept O. Qed.

Lemma outstanding_set_ws v st : waiting st -> waiting (set_ws v st).
Proof. intros O. kept O. Qed.

Lemma outstanding_insert k h st :
  k <> uuid -> handler_promise h <> p ->
  waiting st -> waiting (set_pendingRequests (<[k := h]> (pendingRequests st)) st).
Proof.
  intros Hk Hh O. split; try apply O.
  - cbn. rewrite lookup_insert_ne by done. apply O.
  - intros k' h'. cbn. rewrite lookup_insert.
    case_decide; [by intros [= <-]|apply O].
Qed.

Lemma outstanding_pending_delete k st :
  k <> uuid -> waiting st -> waiting (pending_delete k st).
Proof.
  intros Hk O. split; try apply O.
  - cbn. rewrite lookup_delete_ne by done. apply O.
  - intros k' h'. cbn. rewrite lookup_delete.
    case_decide; [done|apply O].
Qed.

Lemma outstanding_clearTimeout t' st :
  t' <> t -> waiting st -> waiting (clearTimeout t' st).
Proof.
  intros Ht O. split; try apply O.
  - rewrite clearTimeout_lookup. rewrite decide_False by done.
    by rewrite (o_timer _ _ _ _ _ O).
  - intros t'' tm''. rewrite clearTimeout_lookup.
    destruct (timers st !! t'') as [tm|] eqn:Htm; [|done]. cbn.
    intros [= <-] Hact Hne. case_decide; [done|]. cbn in *.
    by apply (o_timers _ _ _ _ _ O t'').
Qed.

Lemma outstanding_setTimeout cb d st :
  timer_promise cb <> Some p -> timer_request cb <> Some uuid ->
  waiting st -> waiting (snd (setTimeout cb d st)).
Proof.
  intros Hcb Hid O. pose proof (outstanding_timer_lt _ O) as Hlt.
  split; try apply O.
  - rewrite setTimeout_lookup. rewrite decide_False by lia. apply O.
  - intros t' tm. rewrite setTimeout_lookup.
    case_decide; [by intros [= <-]|apply O].
Qed.

Lemma outstanding_scheduleReconnect st :
  waiting st -> waiting (scheduleReconnect st).
Proof.
  intros O. unfold scheduleReconnect. destruct (_ || _); [done|].
  pose proof (outstanding_setTimeout ReconnectAttempt 10000 st
                ltac:(done) ltac:(done) O) as O1.
  pose proof (outstanding_timer_lt _ O) as Hlt.
  split; try apply O1. cbn. intros [= ?]. lia.
Qed.

Lemma outstanding_iter_scheduleReconnect n st :
  waiting st -> waiting (Nat.iter n scheduleReconnect st).
Proof.
  intros O. induction n as [|n IH]; [done|].
  rewrite Nat.iter_succ. by apply outstanding_scheduleReconnect.
Qed.

Lemma outstanding_settle p' o st :
  p' <> p -> waiting st -> waiting (settle p' o st).
Proof.
  intros Hp O. unfold settle.
  assert (O1 : waiting (set_promises (alter (fulfil o) p' (promises st)) st)).
  { kept O. unfold promise_state_of. cbn.
    by rewrite list_lookup_alter_ne. }
  destruct o; [done..|]. by apply outstanding_iter_scheduleReconnect.
Qed.

Lemma outstanding_await_connect p' st :
  waiting st -> waiting (await_connect p' st).
Proof.
  intros O. unfold await_connect.
  destruct (p_state <$> promises st !! p') as [[]|]; try done.
  - kept O. unfold promise_state_of. cbn. rewrite list_lookup_alter.
    case_decide; [subst p'|done]. by destruct (promises st !! p).
  - by apply outstanding_scheduleReconnect.
Qed.

Lemma outstanding_run_resolve h v st :
  handler_promise h <> p -> waiting st -> waiting (run_resolve h v st).
Proof.
  intros Hh O. destruct h; unfold run_resolve; apply outstanding_settle; try done.
  kept O.
Qed.

Lemma outstanding_run_reject h e st :
  handler_promise h <> p -> waiting st -> waiting (run_reject h e st).
Proof.
  intros Hh O. destruct h; unfold run_reject; apply outstanding_settle; try done.
  by apply outstanding_ws_close, outstanding_set_connecting.
Qed.

Lemma outstanding_reject_new_Error h x st :
  handler_promise h <> p -> waiting st -> waiting (reject_new_Error h x st).
Proof.
  intros Hh O. unfold reject_new_Error. destruct (new_Error x); [|done].
  by apply outstanding_run_reject.
Qed.

Lemma outstanding_handleMessage data st :
  prop "id" data <> Some (JStr uuid) ->
  waiting st -> waiting (handleMessage data st).
Proof.
  intros Hid O.
  destruct (pending_get (prop "id" data) st) as [[k h]|] eqn:Hp.
  - destruct (pending_get_Some _ _ _ _ Hp) as [Hk Hh].
    assert (Hne : k <> uuid) by congruence.
    assert (Hhp : handler_promise h <> p).
    { intros E. by apply Hne, (o_entries _ _ _ _ _ O k h). }
    rewrite (typed_or_legacy _ _ _ _ Hp). unfold reject_server_error.
    repeat case_match;
      auto using outstanding_run_resolve, outstanding_reject_new_Error,
        outstanding_pending_delete.
  - rewrite (handleMessage_unmatched _ _ Hp).
    repeat case_match; auto using outstanding_emit.
Qed.

Lemma outstanding_ws_onmessage p' parsed u st :
  p' <> p -> u <> uuid ->
  (forall data, parsed = Some data -> prop "id" data <> Some (JStr uuid)) ->
  waiting st -> waiting (ws_onmessage p' parsed u st).
Proof.
  intros Hp Hu Hid O. unfold ws_onmessage.
  destruct parsed as [data|]; [|done].
  specialize (Hid data eq_refl).
  assert (Hins : waiting (set_pendingRequests
                            (<[u := HandshakeHandlers p']> (pendingRequests st)) st))
    by (by apply outstanding_insert).
  unfold socket_send.
  destruct data; try done; (case_match; [|by apply outstanding_handleMessage]);
    repeat case_match; simplify_eq; auto using outstanding_transmit.
Qed.

Lemma outstanding_ws_onclose t' st :
  t' <> t -> waiting st -> waiting (ws_onclose t' st).
Proof.
  intros Ht O. unfold ws_onclose. set (st2 := emit _ _ _).
  assert (O2 : waiting st2).
  { apply outstanding_emit. pose proof (outstanding_clearTimeout t' st Ht O) as O1.
    kept O1. }
  case_match; [by apply outstanding_scheduleReconnect|done].
Qed.

Lemma outstanding_ws_onerror p' t' st :
  p' <> p -> t' <> t -> waiting st -> waiting (ws_onerror p' t' st).
Proof.
  intros Hp Ht O. unfold ws_onerror. set (st2 := emit _ _ _).
  assert (O2 : waiting st2) by (by apply outstanding_emit, outstanding_clearTimeout).
  case_match; [|done]. by apply outstanding_settle, outstanding_set_connecting.
Qed.

Lemma outstanding_discard_socket st : waiting st -> waiting (discard_socket st).
Proof.
  intros O. unfold discard_socket. destruct (ws st) as [i|]; [|done].
  apply outstanding_set_ws. case_match.
  - by apply outstanding_socket_close, outstanding_update_socket.
  - by apply outstanding_update_socket.
Qed.

Lemma outstanding_open_socket p' st :
  p' <> p -> waiting st -> waiting (open_socket p' st).
Proof.
  intros Hp O. unfold open_socket.
  pose proof (outstanding_setTimeout (ConnectionTimeout p') 10000 st) as O1.
  pose proof (outstanding_timer_lt _ O) as Hlt.
  destruct (setTimeout (ConnectionTimeout p') 10000 st) as [t1 st1] eqn:E.
  assert (Ht1 : t1 = length (timers st)) by (by injection E).
  cbn [snd] in O1. specialize (O1 ltac:(by intros [= ?]) ltac:(done) O).
  apply outstanding_set_ws. split; try apply O1.
  intros i s. cbn [sockets set_sockets].
  destruct (decide (i < length (sockets st1))).
  - rewrite lookup_app_l by done. apply O1.
  - destruct (decide (i = length (sockets st1))) as [->|].
    + rewrite lookup_app_r, Nat.sub_diag by lia. cbn. intros [= <-]. cbn.
      split; [done|lia].
    + rewrite lookup_ge_None_2; [done|]. rewrite length_app. cbn. lia.
Qed.

Lemma outstanding_connect st : waiting st -> waiting (snd (connect st)).
Proof.
  intros O. unfold connect. destruct (_ && _); [done|].
  destruct (connecting st); [done|].
  pose proof (outstanding_new_promise st O) as O1.
  pose proof (outstanding_promise_lt _ O) as Hlt.
  destruct (new_promise st) as [p' st1] eqn:E.
  assert (Hpe : p' = length (promises st)) by (by injection E).
  cbn [snd] in *. apply outstanding_set_connecting. case_match.
  - apply outstanding_open_socket; [lia|by apply outstanding_discard_socket].
  - apply outstanding_settle; [lia|].
    by apply outstanding_set_connecting, outstanding_discard_socket.
Qed.

Lemma outstanding_call m ps u st :
  u <> uuid -> waiting st -> waiting (snd (call m ps u st)).
Proof.
  intros Hu O. unfold call. destruct (ws st) as [i|]; [|done].
  destruct (_ && _); [|done].
  pose proof (outstanding_new_promise st O) as O1.
  pose proof (outstanding_promise_lt _ O) as Hlt.
  destruct (new_promise st) as [p' st1] eqn:E.
  assert (Hpe : p' = length (promises st)) by (by injection E).
  cbn [snd] in *.
  set (st2 := set_pendingRequests _ st1).
  assert (O2 : waiting st2) by (apply outstanding_insert; [done|cbn; lia|done]).
  pose proof (outstanding_setTimeout (RequestTimeout u m p') 30000 st2) as O3.
  destruct (setTimeout (RequestTimeout u m p') 30000 st2) as [t3 st3].
  cbn [snd] in *.
  specialize (O3 ltac:(intros [= ?]; lia) ltac:(intros [= ?]; done) O2).
  unfold socket_send. destruct (socket_is CONNECTING i st3).
  - apply outstanding_settle; [lia|done].
  - by apply outstanding_transmit.
Qed.

Lemma outstanding_reconnect_attempt st :
  waiting st -> waiting (reconnect_attempt st).
Proof.
  intros O. unfold reconnect_attempt.
  assert (O1 : waiting (set_reconnectTimer None st)) by kept O.
  case_match; [done|].
  pose proof (outstanding_connect _ O1) as O2.
  destruct (connect _) as [[|p'|p'] st2]; cbn [snd] in *;
    [done|by apply outstanding_await_connect..].
Qed.

Lemma outstanding_run_timer cb st :
  timer_promise cb <> Some p -> timer_request cb <> Some uuid ->
  waiting st -> waiting (run_timer cb st).
Proof.
  intros Hp Hid O. destruct cb as [p'|id m p'|]; cbn [run_timer].
  - unfold connection_timeout. case_match; [|done].
    apply outstanding_settle; [by intros ->|by apply outstanding_ws_close].
  - unfold request_timeout. case_match; [|done].
    apply outstanding_settle; [by intros ->|].
    apply outstanding_pending_delete; [by intros ->|done].
  - by apply outstanding_reconnect_attempt.
Qed.

Lemma outstanding_forget_reconnect b st :
  waiting st ->
  waiting (match reconnectTimer (set_autoReconnect b st) with
           | Some t' => set_reconnectTimer None (clearTimeout t' (set_autoReconnect b st))
           | None => set_autoReconnect b st
           end).
Proof.
  intros O. assert (O0 : waiting (set_autoReconnect b st)) by kept O.
  destruct (reconnectTimer _) as [t'|] eqn:Hr; [|done].
  assert (Hne : t' <> t).
  { intros ->. by apply (o_reconnect _ _ _ _ _ O0). }
  pose proof (outstanding_clearTimeout t' _ Hne O0) as O1. kept O1.
Qed.

Lemma outstanding_disconnect st : waiting st -> waiting (disconnect st).
Proof.
  intros O. unfold disconnect.
  pose proof (outstanding_forget_reconnect false st O) as O1.
  set (st1 := match reconnectTimer (set_autoReconnect false st) with
              | Some _ => _ | None => _ end) in *.
  assert (O2 : waiting (match ws st1 with
                        | Some i => set_ws None (socket_close i
                                      (update_socket i without_onclose st1))
                        | None => st1
                        end)).
  { case_match; [|done].
    by apply outstanding_set_ws, outstanding_socket_close,
      outstanding_update_socket. }
  kept O2.
Qed.

Lemma outstanding_setAutoReconnect b st :
  waiting st -> waiting (setAutoReconnect b st).
Proof.
  intros O. unfold setAutoReconnect.
  pose proof (outstanding_forget_reconnect b st O) as O1.
  assert (O0 : waiting (set_autoReconnect b st)) by kept O.
  destruct (reconnectTimer _) as [t'|]; [|done]. by destruct (negb b).
Qed.

(** The invariant of the waiting period: every event other than a frame
    bearing the id, a reuse of the id and the firing of the call's own
    timer leaves the call outstanding. *)
Lemma outstanding_step e st :
  quiet uuid t e -> waiting st -> waiting (step e st).
Proof.
  intros Hq O.
  destruct e as [| m ps u | | b | i | i | i | i | i d u | t']; cbn [step quiet] in *.
  - by apply outstanding_connect.
  - by apply outstanding_call.
  - by apply outstanding_disconnect.
  - by apply outstanding_setAutoReconnect.
  - destruct (sockets st !! i) as [s|] eqn:Hs; [|done].
    destruct (o_sockets _ _ _ _ _ O i s Hs) as [_ Hst].
    repeat case_match; try done;
      try apply outstanding_clearTimeout; try done;
      by apply outstanding_update_socket.
  - case_match; [|done]. by apply outstanding_update_socket.
  - destruct (sockets st !! i) as [s|] eqn:Hs; [|done].
    destruct (o_sockets _ _ _ _ _ O i s Hs) as [_ Hst].
    repeat case_match; try done;
      try apply outstanding_ws_onclose; try done;
      by apply outstanding_update_socket.
  - destruct (sockets st !! i) as [s|] eqn:Hs; [|done].
    destruct (o_sockets _ _ _ _ _ O i s Hs) as [Hsp Hst].
    repeat case_match; try done; by apply outstanding_ws_onerror.
  - destruct (sockets st !! i) as [s|] eqn:Hs; [|done].
    destruct (o_sockets _ _ _ _ _ O i s Hs) as [Hsp Hst].
    destruct Hq as [Hu Hid].
    repeat case_match; try done; by apply outstanding_ws_onmessage.
  - destruct (timers st !! t') as [tm|] eqn:Htm; [|done].
    destruct (t_active tm) eqn:Hact; [|done].
    destruct (o_timers _ _ _ _ _ O t' tm Htm Hact Hq) as [Hp Hid].
    apply outstanding_run_timer; [done..|]. by apply outstanding_clearTimeout.
Qed.

Lemma outstanding_run evs st :
  Forall (quiet uuid t) evs -> waiting st -> waiting (run evs st).
Proof.
  revert st. induction evs as [|e evs IH]; intros st Hall O; [done|].
  apply Forall_cons in Hall as [He Hall]. cbn. apply IH; [done|].
  by apply outstanding_step.
Qed.

End Outstanding.

(** ** What the callbacks leave alone: the pending map *)

Create Rewrite HintDb frame_pendingRequests.

#[local] Hint Rewrite settle_pendingRequests scheduleReconnect_pendingRequests
  iter_scheduleReconnect_pendingRequests : frame_pendingRequests.

Ltac frame_pendingRequests :=
  unfold open_socket, socket_send, ws_close;
  unfold new_promise, setTimeout;
  cbv beta iota zeta;
  repeat first
    [ done
    | progress autorewrite with frame_pendingRequests
    | progress cbn [pendingRequests set_ws set_reconnectTimer set_pendingRequests
                    set_connected set_authenticated set_connecting
                    set_autoReconnect set_sockets set_timers set_promises
                    set_emitted emit clearTimeout update_socket
                    socket_close snd fst]
    | progress simplify_eq
    | case_match ].

Lemma await_connect_pendingRequests p st : pendingRequests (await_connect p st) = pendingRequests st.
Proof. unfold await_connect. frame_pendingRequests. Qed.

#[local] Hint Rewrite await_connect_pendingRequests : frame_pendingRequests.

#[local] Hint Rewrite run_resolve_pendingRequests : frame_pendingRequests.

#[local] Hint Rewrite run_reject_pendingRequests : frame_pendingRequests.

Lemma ws_onopen_pendingRequests t st : pendingRequests (ws_onopen t st) = pendingRequests st.
Proof. unfold ws_onopen. frame_pendingRequests. Qed.

#[local] Hint Rewrite ws_onopen_pendingRequests : frame_pendingRequests.

Lemma ws_onclose_pendingRequests t st : pendingRequests (ws_onclose t st) = pendingRequests st.
Proof. unfold ws_onclose. frame_pendingRequests. Qed.

#[local] Hint Rewrite ws_onclose_pendingRequests : frame_pendingRequests.

Lemma ws_onerror_pendingRequests p t st : pendingRequests (ws_onerror p t st) = pendingRequests st.
Proof. unfold ws_onerror. frame_pendingRequests. Qed.

#[local] Hint Rewrite ws_onerror_pendingRequests : frame_pendingRequests.

Lemma discard_socket_pendingRequests st : pendingRequests (discard_socket st) = pendingRequests st.
Proof. unfold discard_socket. frame_pendingRequests. Qed.

#[local] Hint Rewrite discard_socket_pendingRequests : frame_pendingRequests.

Lemma connect_pendingRequests st : pendingRequests (snd (connect st)) = pendingRequests st.
Proof. unfold connect. frame_pendingRequests. Qed.

#[local] Hint Rewrite connect_pendingRequests : frame_pendingRequests.

Lemma connection_timeout_pendingRequests p st : pendingRequests (connection_timeout p st) = pendingRequests st.
Proof. unfold connection_timeout. frame_pendingRequests. Qed.

#[local] Hint Rewrite connection_timeout_pendingRequests : frame_pendingRequests.

Lemma disconnect_pendingRequests st : pendingRequests (disconnect st) = pendingRequests st.
Proof. unfold disconnect. frame_pendingRequests. Qed.

#[local] Hint Rewrite disconnect_pendingRequests : frame_pendingRequests.

Lemma setAutoReconnect_pendingRequests b st : pendingRequests (setAutoReconnect b st) = pendingRequests st.
Proof. unfold setAutoReconnect. frame_pendingRequests. Qed.

#[local] Hint Rewrite setAutoReconnect_pendingRequests : frame_pendingRequests.

Lemma reconnect_attempt_pendingRequests st :
  pendingRequests (reconnect_attempt st) = pendingRequests st.
Proof.
  unfold reconnect_attempt. destruct (negb _); [done|].
  pose proof (connect_pendingRequests (set_reconnectTimer None st)) as H.
  destruct (connect _) as [[|p|p] st2]; cbn [snd] in H;
    by rewrite ?await_connect_pendingRequests.
Qed.

(** A key that is not in the map does not come into it, unless an event
    hands out that very id. *)
Lemma handleMessage_absent data st k :
  pendingRequests st !! k = None ->
  pendingRequests (handleMessage data st) !! k = None.
Proof.
  intros Hk. destruct (pending_get (prop "id" data) st) as [[k' h]|] eqn:Hp.
  - rewrite (handleMessage_matched_pendingRequests _ _ _ _ Hp).
    rewrite lookup_delete. by case_decide.
  - rewrite (handleMessage_unmatched _ _ Hp). by repeat case_match.
Qed.

Lemma ws_onmessage_absent p parsed u st k :
  u <> k -> pendingRequests st !! k = None ->
  pendingRequests (ws_onmessage p parsed u st) !! k = None.
Proof.
  intros Hu Hk. unfold ws_onmessage, socket_send.
  repeat case_match; simplify_eq; try done;
    try (by apply handleMessage_absent); cbn; by rewrite lookup_insert_ne.
Qed.

Lemma call_absent m ps u st k :
  u <> k -> pendingRequests st !! k = None ->
  pendingRequests (snd (call m ps u st)) !! k = None.
Proof.
  intros Hu Hk. unfold call, socket_send, new_promise, setTimeout.
  cbv beta iota zeta. repeat case_match; simplify_eq; try done;
    cbn [snd]; rewrite ?settle_pendingRequests; cbn; by rewrite lookup_insert_ne.
Qed.

Lemma run_timer_absent cb st k :
  pendingRequests st !! k = None -> pendingRequests (run_timer cb st) !! k = None.
Proof.
  intros Hk. destruct cb as [p|id m p|]; cbn [run_timer].
  - by rewrite connection_timeout_pendingRequests.
  - unfold request_timeout. case_match; [|done].
    rewrite settle_pendingRequests. cbn. rewrite lookup_delete. by case_decide.
  - by rewrite reconnect_attempt_pendingRequests.
Qed.

Lemma step_absent e st k :
  no_reuse k e -> pendingRequests st !! k = None ->
  pendingRequests (step e st) !! k = None.
Proof.
  intros Hq Hk.
  destruct e as [| m ps u | | b | i | i | i | i | i d u | t]; cbn [step no_reuse] in *.
  - by rewrite connect_pendingRequests.
  - by apply call_absent.
  - by rewrite disconnect_pendingRequests.
  - by rewrite setAutoReconnect_pendingRequests.
  - repeat case_match; by rewrite ?ws_onopen_pendingRequests.
  - by case_match.
  - repeat case_match; by rewrite ?ws_onclose_pendingRequests.
  - repeat case_match; by rewrite ?ws_onerror_pendingRequests.
  - repeat case_match; try done. by apply ws_onmessage_absent.
  - repeat case_match; try done. by apply run_timer_absent.
Qed.

Lemma run_absent evs st k :
  Forall (no_reuse k) evs -> pendingRequests st !! k = None ->
  pendingRequests (run evs st) !! k = None.
Proof.
  revert st. induction evs as [|e evs IH]; intros st Hall Hk; [done|].
  apply Forall_cons in Hall as [He Hall]. cbn. apply IH; [done|].
  by apply step_absent.
Qed.

(** A frame of type "res" whose id is not pending: nothing but a possible
    emission. *)
Lemma handleMessage_unknown_id data st :
  pending_get (prop "id" data) st = None ->
  handleMessage data st = set_emitted (emitted (handleMessage data st)) st
  /\ (truthy (prop "method" data) = false -> handleMessage data st = st).
Proof.
  intros Hp. rewrite (handleMessage_unmatched _ _ Hp).
  destruct (prop "method" data) as [name|]; [|by destruct st].
  destruct (truthy (Some name)); [|by destruct st].
  split; [done|]. done.
Qed.

(** ** From the call to its timeout *)

Lemma fresh_id_spec uuid st :
  fresh_id uuid st = true ->
  pendingRequests st !! uuid = None
  /\ forall t tm, timers st !! t = Some tm -> t_active tm = true ->
       timer_request (t_action tm) <> Some uuid.
Proof.
  unfold fresh_id. intros [H1 H2]%andb_true_iff. split.
  - by destruct (pendingRequests st !! uuid).
  - intros t tm Htm Hact Hreq. apply negb_true_iff in H2.
    assert (Hex : existsb (timer_uses uuid) (timers st) = true); [|congruence].
    apply existsb_exists. exists tm. split.
    + apply list_elem_of_In, list_elem_of_lookup. eauto.
    + unfold timer_uses. rewrite Hact. cbn.
      destruct (t_action tm); try done. cbn in Hreq. injection Hreq as ->.
      apply String.eqb_refl.
Qed.

(** A call that passes the guard of line 223 and whose frame the socket
    accepts is outstanding when [call] returns. *)
Lemma call_outstanding method params uuid st i :
  consistent st -> scoped st ->
  ws st = Some i -> connected st = true -> authenticated st = true ->
  socket_is CONNECTING i st = false ->
  fresh_id uuid st = true ->
  fst (call method params uuid st) = Awaiting (length (promises st))
  /\ outstanding uuid method (length (promises st)) (length (timers st))
       (snd (call method params uuid st)).
Proof.
  intros C S Hws Hc Ha Hsock [Hfresh Htimers]%fresh_id_spec.
  unfold call. rewrite Hws, Hc, Ha. cbn [andb].
  unfold new_promise, setTimeout, socket_send. cbv beta iota zeta.
  change (socket_is CONNECTING i _) with (socket_is CONNECTING i st).
  rewrite Hsock. cbn [fst snd]. split; [done|].
  split; cbn.
  - by rewrite lookup_insert_eq.
  - unfold promise_state_of. cbn.
    by rewrite lookup_app_r, Nat.sub_diag by lia.
  - by rewrite lookup_app_r, Nat.sub_diag by lia.
  - intros k h. rewrite lookup_insert. case_decide; [done|].
    intros Hk%(sc_entries _ S). lia.
  - intros t' tm Htm Hact Hne.
    assert (Hold : timers st !! t' = Some tm).
    { destruct (decide (t' < length (timers st))).
      - by rewrite lookup_app_l in Htm.
      - apply lookup_lt_Some in Htm. rewrite length_app in Htm. cbn in Htm. lia. }
    split; [|by eapply Htimers].
    intros Hq. pose proof (sc_timers _ S _ _ _ Hold Hq). lia.
  - intros j s'. rewrite list_lookup_alter.
    assert (Hb : forall s, sockets st !! j = Some s ->
              s_promise s <> length (promises st)
              /\ s_timeout s <> length (timers st)).
    { intros s Hs. split.
      - pose proof (sc_sockets _ S _ _ Hs). lia.
      - destruct (socket_timer _ C _ _ Hs) as (tm & Htm%lookup_lt_Some & _). lia. }
    case_decide; [subst j|by apply Hb].
    destruct (sockets st !! i) as [s|]; [|done]. cbn. intros [= <-].
    destruct (Hb s eq_refl). unfold transmit. by destruct (readyState s).
  - intros Hr. apply (armed_is_field _ C), armed_at_lt in Hr. lia.
Qed.

(** The request timer of an outstanding call fires. *)
Lemma outstanding_times_out uuid method p t st :
  outstanding uuid method p t st ->
  promise_state_of p (step (TimerFires t) st)
  = Some (Rejected (Error ("Request timeout: " ++ method)))
  /\ pendingRequests (step (TimerFires t) st) !! uuid = None.
Proof.
  intros O. cbn [step]. rewrite (o_timer _ _ _ _ _ O). cbn [t_active t_action run_timer].
  unfold request_timeout. cbn [pendingRequests clearTimeout set_timers].
  rewrite (o_entry _ _ _ _ _ O). split.
  - apply settle_pending, (o_pending _ _ _ _ _ O).
  - rewrite settle_pendingRequests. cbn. apply lookup_delete_eq.
Qed.

(** A late response, delivered by the socket. *)
Lemma late_response_ignored i data u st uuid :
  is_str (prop "type" data) "res" = true ->
  prop "id" data = Some (JStr uuid) ->
  pendingRequests st !! uuid = None ->
  let st' := step (SocketReceives i (Some data) u) st in
  st' = set_emitted (emitted st') st
  /\ (truthy (prop "method" data) = false -> st' = st)
  /\ (forall s name,
        sockets st !! i = Some s -> readyState s = OPEN -> onmessage s = true ->
        prop "method" data = Some name -> truthy (Some name) = true ->
        emitted st' = (emitted st ++ [Emit (JStr "notification") [Some data];
                                      Emit name [prop "params" data]])%list).
Proof.
  intros Ht Hid Hk st'.
  assert (Hp : pending_get (prop "id" data) st = None).
  { rewrite Hid. unfold pending_get. by rewrite Hk. }
  assert (Hch : is_challenge data = false).
  { unfold is_challenge. destruct (prop "type" data) as [[]|]; try done.
    cbn in *. apply String.eqb_eq in Ht. by subst. }
  destruct (handleMessage_unknown_id _ _ Hp) as [H1 H2].
  assert (Hst : st' = st \/ st' = handleMessage data st).
  { unfold st'. cbn [step]. repeat case_match; try (by left).
    right. unfold ws_onmessage. destruct data; try done; by rewrite Hch. }
  split_and!.
  - destruct Hst as [-> | ->]; [by destruct st|done].
  - intros Hm. destruct Hst as [-> | ->]; [done|by apply H2].
  - intros s name Hs Hr Hm Hname Htr. unfold st'. cbn [step].
    rewrite Hs, Hr, Hm. unfold ws_onmessage. rewrite Hch.
    destruct data; try discriminate Hid.
    rewrite (handleMessage_unmatched _ _ Hp), Hname, Htr. cbn.
    by rewrite <- app_assoc.
Qed.




(** * Further properties of the client *)

(** ** Events, unfolded *)

Lemma step_SocketOpens st i s :
  sockets st !! i = Some s -> readyState s = CONNECTING -> onopen s = true ->
  step (SocketOpens i) st
  = ws_onopen (s_timeout s) (update_socket i (with_readyState OPEN) st).
Proof. intros Hs Hr Hc. cbn [step]. by rewrite Hs, Hr, Hc. Qed.

Lemma step_SocketFails st i s :
  sockets st !! i = Some s -> readyState s <> CLOSED -> onerror s = true ->
  step (SocketFails i) st = ws_onerror (s_promise s) (s_timeout s) st.
Proof.
  intros Hs Hr Hc. cbn [step]. rewrite Hs, Hc. by destruct (readyState s).
Qed.

Lemma step_SocketReceives st i s parsed u :
  sockets st !! i = Some s -> readyState s = OPEN -> onmessage s = true ->
  step (SocketReceives i parsed u) st = ws_onmessage (s_promise s) parsed u st.
Proof. intros Hs Hr Hc. cbn [step]. by rewrite Hs, Hr, Hc. Qed.

Lemma step_TimerFires st t tm :
  timers st !! t = Some tm -> t_active tm = true ->
  step (TimerFires t) st = run_timer (t_action tm) (clearTimeout t st).
Proof. intros Ht Ha. cbn [step]. by rewrite Ht, Ha. Qed.

Lemma step_TimerFires_idle st t :
  (t_active <$> timers st !! t) <> Some true -> step (TimerFires t) st = st.
Proof.
  intros H. cbn [step]. destruct (timers st !! t) as [tm|]; [|done].
  cbn in H. destruct (t_active tm); congruence.
Qed.

Lemma promise_state_of_settle_ne p p' o st :
  p' <> p -> promise_state_of p (settle p' o st) = promise_state_of p st.
Proof.
  intros Hne. unfold promise_state_of. rewrite settle_promises.
  by rewrite list_lookup_alter_ne.
Qed.

Lemma discard_socket_url_valid st : url_valid (discard_socket st) = url_valid st.
Proof. unfold discard_socket. by repeat case_match. Qed.

Lemma discard_socket_ws st : ws (discard_socket st) = None.
Proof. unfold discard_socket. destruct (ws st) eqn:E; [done|]. by rewrite E. Qed.

Lemma discard_socket_sockets_length st :
  length (sockets (discard_socket st)) = length (sockets st).
Proof.
  unfold discard_socket. repeat case_match; cbn; by rewrite ?length_alter.
Qed.

(** ** connect with a url the host refuses (client.ts 39-54, 157-163) *)

(** X1.  When [new URL] or [new WebSocket] throws, [connect()] returns a
    promise already rejected with the thrown error; it leaves no socket
    handle, makes no socket and arms no timer.  The [catch] clears the
    in-flight marker, but the assignment of line 39 then stores the
    rejected promise in it: every later [connect()] returns that same
    rejected promise and does nothing else. *)
Theorem connect_refused_url st :
  url_valid st = false ->
  connected st && ws_open st = false ->
  connecting st = None ->
  let p := length (promises st) in
  let st' := snd (connect st) in
  fst (connect st) = Started p
  /\ promise_state_of p st' = Some (Rejected UrlError)
  /\ connecting st' = Some p
  /\ ws st' = None
  /\ length (sockets st') = length (sockets st)
  /\ timers st' = timers st
  /\ forall n, connect_times n st' = (replicate n (InFlight p), st').
Proof.
  intros Hurl Hc Hing p st'.
  assert (Heq : connect st =
            (Started p,
             set_connecting (Some p)
               (settle p (Rejected UrlError)
                  (set_connecting None (discard_socket (snd (new_promise st))))))).
  { unfold connect. rewrite Hc, Hing. unfold new_promise at 1.
    cbv beta iota zeta. rewrite discard_socket_url_valid. cbn [url_valid set_promises].
    by rewrite Hurl. }
  assert (Hsusp : suspended_on p
            (set_connecting None (discard_socket (snd (new_promise st)))) = 0).
  { unfold suspended_on. cbn [promises set_connecting].
    rewrite discard_socket_promises. cbn.
    by rewrite lookup_app_r, Nat.sub_diag by lia. }
  assert (Hst' : st' = set_connecting (Some p)
             (set_promises
                (alter (fulfil (Rejected UrlError)) p
                   (promises (discard_socket (snd (new_promise st)))))
                (set_connecting None (discard_socket (snd (new_promise st)))))).
  { unfold st'. rewrite Heq. cbn [snd]. unfold settle. by rewrite Hsusp. }
  assert (Hws : ws st' = None).
  { rewrite Hst'. cbn [ws set_connecting set_promises]. apply discard_socket_ws. }
  split_and!.
  - by rewrite Heq.
  - rewrite Hst'. unfold promise_state_of. cbn [promises set_connecting set_promises].
    rewrite list_lookup_alter_eq, discard_socket_promises. cbn.
    by rewrite lookup_app_r, Nat.sub_diag by lia.
  - by rewrite Hst'.
  - done.
  - rewrite Hst'. cbn [sockets set_connecting set_promises].
    by rewrite discard_socket_sockets_length.
  - rewrite Hst'. cbn [timers set_connecting set_promises].
    unfold discard_socket. by repeat case_match.
  - intros n. destruct connect_shares_attempt as (_ & H & _). apply H.
    + unfold ws_open. rewrite Hws. apply andb_false_r.
    + by rewrite Hst'.
Qed.

Lemma connect_refused_url_witness :
  connect_times 3 (snd (connect (new_client false "secret")))
  = ([InFlight 0; InFlight 0; InFlight 0], snd (connect (new_client false "secret"))).
Proof.
  exact (proj2 (proj2 (proj2 (proj2 (proj2 (proj2
           (connect_refused_url (new_client false "secret") eq_refl eq_refl eq_refl))))))
           3).
Defined.

(** ** The connection timeout (client.ts 62-74) *)

Lemma socket_close_not_open i st : socket_is OPEN i (socket_close i st) = false.
Proof.
  unfold socket_is, socket_close, update_socket. cbn [sockets set_sockets].
  rewrite list_lookup_alter_eq. destruct (sockets st !! i) as [s|]; [|done].
  cbn. unfold start_closing. by destruct (readyState s) eqn:E; cbn; rewrite ?E.
Qed.

Lemma socket_close_not_connecting i st :
  socket_is CONNECTING i (socket_close i st) = false.
Proof.
  unfold socket_is, socket_close, update_socket. cbn [sockets set_sockets].
  rewrite list_lookup_alter_eq. destruct (sockets st !! i) as [s|]; [|done].
  cbn. unfold start_closing. by destruct (readyState s) eqn:E; cbn; rewrite ?E.
Qed.

Lemma ws_close_ws st : ws (ws_close st) = ws st.
Proof. unfold ws_close. by destruct (ws st) eqn:E; cbn. Qed.

Lemma ws_close_connecting st : connecting (ws_close st) = connecting st.
Proof. unfold ws_close. by destruct (ws st). Qed.

Lemma ws_close_connected st : connected (ws_close st) = connected st.
Proof. unfold ws_close. by destruct (ws st). Qed.

Lemma ws_close_promise_state p st :
  promise_state_of p (ws_close st) = promise_state_of p st.
Proof. unfold ws_close. by destruct (ws st). Qed.

Lemma ws_close_not_open st : ws_open (ws_close st) = false.
Proof.
  unfold ws_open. rewrite ws_close_ws. unfold ws_close.
  destruct (ws st) as [i|]; [|done]. apply socket_close_not_open.
Qed.

Lemma ws_open_settle p o st : ws_open (settle p o st) = ws_open st.
Proof. unfold ws_open, socket_is. by rewrite settle_ws, settle_sockets. Qed.

(** X2.  When the connection timer fires on a client that is not
    connected, the current socket stops being open or connecting and the
    attempt's promise, if undecided, is rejected with "Connection
    timeout".  The in-flight marker is not cleared: until the close
    event arrives, every [connect()] returns that rejected promise and
    starts nothing.  On a connected client the timer does nothing. *)
Theorem connection_timeout_fires st t tm p :
  timers st !! t = Some tm -> t_active tm = true ->
  t_action tm = ConnectionTimeout p ->
  let st' := step (TimerFires t) st in
  (connected st = true -> st' = clearTimeout t st)
  /\ (connected st = false ->
        (promise_state_of p st = Some Pending ->
         promise_state_of p st' = Some (Rejected (Error "Connection timeout")))
        /\ connecting st' = connecting st
        /\ ws st' = ws st
        /\ ws_open st' = false
        /\ (forall i, ws st = Some i -> socket_is CONNECTING i st' = false)
        /\ (forall n, connecting st = Some p ->
              connect_times n st' = (replicate n (InFlight p), st'))).
Proof.
  intros Ht Ha Hk st'.
  assert (Heq : st' = connection_timeout p (clearTimeout t st)).
  { unfold st'. rewrite (step_TimerFires _ _ _ Ht Ha), Hk. done. }
  unfold connection_timeout in Heq. cbn [connected clearTimeout set_timers] in Heq.
  split.
  - intros Hc. by rewrite Hc in Heq.
  - intros Hc. rewrite Hc in Heq. cbn [negb] in Heq.
    assert (Hopen : ws_open st' = false)
      by (by rewrite Heq, ws_open_settle, ws_close_not_open).
    assert (Hing : connecting st' = connecting st)
      by (by rewrite Heq, settle_connecting, ws_close_connecting).
    split_and!; try done.
    + intros Hp. rewrite Heq. apply settle_pending.
      by rewrite ws_close_promise_state.
    + by rewrite Heq, settle_ws, ws_close_ws.
    + intros i Hi. rewrite Heq. unfold socket_is. rewrite settle_sockets.
      unfold ws_close. cbn [ws clearTimeout set_timers]. rewrite Hi.
      apply socket_close_not_connecting.
    + intros n Hp. destruct connect_shares_attempt as (_ & H & _). apply H.
      * rewrite Hopen. apply andb_false_r.
      * by rewrite Hing.
Qed.

Lemma connection_timeout_fires_witness :
  promise_state_of 0 (step (TimerFires 0) (step DoConnect (new_client true "secret")))
  = Some (Rejected (Error "Connection timeout")).
Proof.
  assert (Ht : timers (step DoConnect (new_client true "secret")) !! 0
               = Some {| t_action := ConnectionTimeout 0; t_delay := 10000;
                         t_active := true |}) by reflexivity.
  destruct (connection_timeout_fires _ 0 _ 0 Ht eq_refl eq_refl) as [_ H].
  destruct (H eq_refl) as [H1 _]. exact (H1 eq_refl).
Defined.

(** X3.  The connection timer covers only the opening of the socket.
    When the socket opens, the handler clears the timer and sends
    nothing; the attempt stays undecided and in flight, and the timer,
    should the host still fire it, does nothing. *)
Theorem open_clears_connection_timeout st i s :
  sockets st !! i = Some s -> readyState s = CONNECTING -> onopen s = true ->
  let st' := step (SocketOpens i) st in
  socket_is OPEN i st' = true
  /\ (t_active <$> timers st' !! s_timeout s) <> Some true
  /\ step (TimerFires (s_timeout s)) st' = st'
  /\ (s_sent <$> sockets st' !! i) = Some (s_sent s)
  /\ promises st' = promises st
  /\ connecting st' = connecting st
  /\ pendingRequests st' = pendingRequests st.
Proof.
  intros Hs Hr Hc st'.
  assert (Heq : st' = ws_onopen (s_timeout s)
                        (update_socket i (with_readyState OPEN) st))
    by (by apply step_SocketOpens).
  assert (Hidle : (t_active <$> timers st' !! s_timeout s) <> Some true).
  { rewrite Heq. unfold ws_onopen. rewrite clearTimeout_lookup.
    rewrite decide_True by done. cbn [timers update_socket set_sockets].
    by destruct (timers st !! s_timeout s). }
  split_and!; try done.
  - rewrite Heq. unfold socket_is. cbn. by rewrite list_lookup_alter_eq, Hs.
  - by apply step_TimerFires_idle.
  - rewrite Heq. cbn. by rewrite list_lookup_alter_eq, Hs.
  - by rewrite Heq.
  - by rewrite Heq.
  - by rewrite Heq.
Qed.

Lemma open_clears_connection_timeout_witness :
  step (TimerFires 0) (run [DoConnect; SocketOpens 0] (new_client true "secret"))
  = run [DoConnect; SocketOpens 0] (new_client true "secret").
Proof.
  assert (Hs : sockets (step DoConnect (new_client true "secret")) !! 0
               = Some {| readyState := CONNECTING; onopen := true; onclose := true;
                         onerror := true; onmessage := true; s_promise := 0;
                         s_timeout := 0; s_sent := [] |}) by reflexivity.
  exact (proj1 (proj2 (proj2
           (open_clears_connection_timeout _ 0 _ Hs eq_refl eq_refl)))).
Defined.

(** ** Socket errors (client.ts 91-99) *)

(** X4.  An error event is always passed on as an 'error' emission and
    never changes the session flags, the socket handle, the sockets or
    the pending map.  On a connected client that is all it does.  On a
    client that is not connected it also clears the in-flight marker and
    rejects the attempt of that socket, if undecided, with "Failed to
    connect to OpenClaw Gateway". *)
Theorem socket_error_handled st i s :
  sockets st !! i = Some s -> readyState s <> CLOSED -> onerror s = true ->
  let st' := step (SocketFails i) st in
  emitted st' = (emitted st ++ [Emit (JStr "error") [None]])%list
  /\ connected st' = connected st
  /\ authenticated st' = authenticated st
  /\ ws st' = ws st
  /\ sockets st' = sockets st
  /\ pendingRequests st' = pendingRequests st
  /\ (connected st = true ->
        connecting st' = connecting st /\ promises st' = promises st)
  /\ (connected st = false ->
        connecting st' = None
        /\ (promise_state_of (s_promise s) st = Some Pending ->
            promise_state_of (s_promise s) st'
            = Some (Rejected (Error "Failed to connect to OpenClaw Gateway")))).
Proof.
  intros Hs Hr Hc st'.
  assert (Heq : st' = ws_onerror (s_promise s) (s_timeout s) st)
    by (by apply step_SocketFails).
  unfold ws_onerror in Heq.
  cbn [connected emit set_emitted clearTimeout set_timers] in Heq.
  destruct (connected st) eqn:Hcon; cbn [negb] in Heq.
  - rewrite Heq. split_and!; try done.
  - split_and!; try done; rewrite Heq;
      rewrite ?settle_emitted, ?settle_connected, ?settle_authenticated,
        ?settle_ws, ?settle_sockets, ?settle_pendingRequests; try done.
    intros _. split; [by rewrite settle_connecting|].
    intros Hp. by apply settle_pending.
Qed.

Lemma socket_error_handled_witness :
  promise_state_of 0 (step (SocketFails 0) (step DoConnect (new_client true "secret")))
  = Some (Rejected (Error "Failed to connect to OpenClaw Gateway")).
Proof.
  assert (Hs : sockets (step DoConnect (new_client true "secret")) !! 0
               = Some {| readyState := CONNECTING; onopen := true; onclose := true;
                         onerror := true; onmessage := true; s_promise := 0;
                         s_timeout := 0; s_sent := [] |}) by reflexivity.
  destruct (socket_error_handled _ 0 _ Hs ltac:(discriminate) eq_refl)
    as (_ & _ & _ & _ & _ & _ & _ & H).
  destruct (H eq_refl) as [_ H1]. exact (H1 eq_refl).
Defined.

(** ** The handshake (client.ts 101-156) *)

Lemma ws_close_emitted st : emitted (ws_close st) = emitted st.
Proof. unfold ws_close. by destruct (ws st). Qed.

Lemma ws_close_authenticated st : authenticated (ws_close st) = authenticated st.
Proof. unfold ws_close. by destruct (ws st). Qed.

(** The challenge branch on a client whose current socket is open. *)
Lemma ws_onmessage_challenge p data u st i s :
  ws st = Some i -> sockets st !! i = Some s -> readyState s = OPEN ->
  is_challenge data = true ->
  ws_onmessage p (Some data) u st
  = update_socket i (transmit (connect_request u (token st)))
      (set_pendingRequests (<[u := HandshakeHandlers p]> (pendingRequests st)) st).
Proof.
  intros Hws Hs Hr Hch. unfold ws_onmessage. rewrite Hch.
  cbn [ws set_pendingRequests token]. rewrite Hws.
  unfold socket_send, socket_is. cbn [sockets set_pendingRequests].
  rewrite Hs, Hr. cbn [ready_state_eqb]. by destruct data.
Qed.

(** Whether a reply found in the pending map is turned into a rejection:
    the test of line 175 for a frame of type "res", that of line 190 for
    any other. *)
Lemma reply_to_handshake p data u st :
  prop "id" data = Some (JStr u) ->
  pendingRequests st !! u = Some (HandshakeHandlers p) ->
  handleMessage data st =
    if (if is_str (prop "type" data) "res" then res_rejects data
        else legacy_rejects data)
    then reject_server_error (HandshakeHandlers p) data (pending_delete u st)
    else run_resolve (HandshakeHandlers p) None (pending_delete u st).
Proof.
  intros Hid Hp.
  assert (Hget : pending_get (prop "id" data) st = Some (u, HandshakeHandlers p)).
  { rewrite Hid. unfold pending_get. by rewrite Hp. }
  rewrite (typed_or_legacy _ _ _ _ Hget).
  by destruct (is_str _ _), (res_rejects data), (legacy_rejects data).
Qed.

Lemma ws_onmessage_reply p data u st :
  is_challenge data = false -> data <> JNull ->
  ws_onmessage p (Some data) u st = handleMessage data st.
Proof.
  intros Hch Hn. unfold ws_onmessage. rewrite Hch. by destruct data.
Qed.

(** The state in which the server's reply to the connect request finds
    the client. *)
Lemma challenge_step st i s u data0 :
  ws st = Some i -> sockets st !! i = Some s -> readyState s = OPEN ->
  onmessage s = true -> is_challenge data0 = true ->
  let st1 := step (SocketReceives i (Some data0) u) st in
  st1 = update_socket i (transmit (connect_request u (token st)))
          (set_pendingRequests
             (<[u := HandshakeHandlers (s_promise s)]> (pendingRequests st)) st)
  /\ sockets st1 !! i
     = Some (with_sent (s_sent s ++ [connect_request u (token st)]) s).
Proof.
  intros Hws Hs Hr Hm Hch st1.
  assert (Heq : st1 = update_socket i (transmit (connect_request u (token st)))
          (set_pendingRequests
             (<[u := HandshakeHandlers (s_promise s)]> (pendingRequests st)) st)).
  { unfold st1. rewrite (step_SocketReceives _ _ _ _ _ Hs Hr Hm).
    by apply ws_onmessage_challenge with s. }
  split; [done|]. rewrite Heq. cbn [sockets update_socket set_sockets set_pendingRequests].
  rewrite list_lookup_alter_eq, Hs. cbn. unfold transmit. by rewrite Hr.
Qed.

Lemma reply_step st i s u u' data0 data :
  ws st = Some i -> sockets st !! i = Some s -> readyState s = OPEN ->
  onmessage s = true -> is_challenge data0 = true ->
  is_challenge data = false -> prop "id" data = Some (JStr u) ->
  let st1 := step (SocketReceives i (Some data0) u) st in
  step (SocketReceives i (Some data) u') st1
  = if (if is_str (prop "type" data) "res" then res_rejects data
        else legacy_rejects data)
    then reject_server_error (HandshakeHandlers (s_promise s)) data
           (pending_delete u st1)
    else run_resolve (HandshakeHandlers (s_promise s)) None (pending_delete u st1).
Proof.
  intros Hws Hs Hr Hm Hch Hnch Hid st1.
  destruct (challenge_step st i s u data0 Hws Hs Hr Hm Hch) as [Heq Hs1].
  fold st1 in Heq, Hs1.
  rewrite (step_SocketReceives _ _ _ _ _ Hs1 Hr Hm). cbn [s_promise with_sent].
  rewrite ws_onmessage_reply; [|done|by intros ->].
  apply reply_to_handshake; [done|].
  rewrite Heq. cbn. by rewrite lookup_insert_eq.
Qed.

(** X5.  The handshake, when it succeeds.  A challenge received on the
    current, open socket is answered with the connect request carrying
    the token, under a new request id.  When the reply to that id is not
    a rejection (whichever of the two reply shapes it has), the client
    is connected: [isConnected()] is true, the attempt's promise is
    fulfilled (with no value: the reply's payload is dropped), the
    in-flight marker is cleared, 'connected' is emitted once, the entry
    of the handshake is gone from the pending map, and [call()] is
    accepted. *)
Theorem handshake_succeeds st i s u u' data0 data :
  ws st = Some i -> sockets st !! i = Some s -> readyState s = OPEN ->
  onmessage s = true -> is_challenge data0 = true ->
  is_challenge data = false -> prop "id" data = Some (JStr u) ->
  (if is_str (prop "type" data) "res" then res_rejects data
   else legacy_rejects data) = false ->
  let st1 := step (SocketReceives i (Some data0) u) st in
  let st2 := step (SocketReceives i (Some data) u') st1 in
  (s_sent <$> sockets st2 !! i)
    = Some (s_sent s ++ [connect_request u (token st)])%list
  /\ isConnected st2 = true
  /\ connecting st2 = None
  /\ (promise_state_of (s_promise s) st = Some Pending ->
      promise_state_of (s_promise s) st2 = Some (Resolved None))
  /\ emitted st2 = (emitted st ++ [Emit (JStr "connected") []])%list
  /\ pendingRequests st2 = delete u (pendingRequests st)
  /\ forall method params id,
       fst (call method params id st2) = Awaiting (length (promises st2)).
Proof.
  intros Hws Hs Hr Hm Hch Hnch Hid Hok st1 st2.
  destruct (challenge_step st i s u data0 Hws Hs Hr Hm Hch) as [Heq1 Hs1].
  fold st1 in Heq1, Hs1.
  assert (Heq2 : st2 = run_resolve (HandshakeHandlers (s_promise s)) None
                         (pending_delete u st1)).
  { unfold st2, st1. rewrite (reply_step st i s u u' data0 data) by done.
    by rewrite Hok. }
  unfold run_resolve in Heq2. clearbody st2 st1.
  assert (Hsock : sockets st2 = sockets st1) by (by rewrite Heq2, settle_sockets).
  assert (Hws2 : ws st2 = Some i).
  { rewrite Heq2, settle_ws. cbn. by rewrite Heq1. }
  assert (Hc : connected st2 = true) by (by rewrite Heq2, settle_connected).
  assert (Ha : authenticated st2 = true) by (by rewrite Heq2, settle_authenticated).
  split_and!.
  - by rewrite Hsock, Hs1.
  - unfold isConnected, ws_open, socket_is. rewrite Hc, Ha, Hws2, Hsock, Hs1.
    cbn. by rewrite Hr.
  - by rewrite Heq2, settle_connecting.
  - intros Hp. rewrite Heq2. apply settle_pending. cbn. by rewrite Heq1.
  - rewrite Heq2, settle_emitted. cbn. by rewrite Heq1.
  - rewrite Heq2, settle_pendingRequests. cbn. rewrite Heq1. cbn.
    by rewrite delete_insert_eq.
  - intros method params id. unfold call. rewrite Hws2, Hc, Ha. cbn [andb].
    unfold new_promise. cbv beta iota zeta. unfold setTimeout.
    by destruct (socket_send _ _ _).
Qed.

Lemma handshake_succeeds_witness :
  isConnected
    (step (SocketReceives 0 (Some (ok_frame "hs-1" JNull)) "unused")
       (step (SocketReceives 0 (Some challenge_frame) "hs-1")
          (run [DoConnect; SocketOpens 0] (new_client true "secret")))) = true.
Proof.
  pose (st0 := run [DoConnect; SocketOpens 0] (new_client true "secret")).
  assert (Hws : ws st0 = Some 0) by (vm_compute; reflexivity).
  assert (Hs : sockets st0 !! 0
               = Some {| readyState := OPEN; onopen := true; onclose := true;
                         onerror := true; onmessage := true; s_promise := 0;
                         s_timeout := 0; s_sent := [] |}) by (vm_compute; reflexivity).
  exact (proj1 (proj2
    (handshake_succeeds st0 0 _ "hs-1" "unused" challenge_frame
       (ok_frame "hs-1" JNull)
       Hws Hs eq_refl eq_refl eq_refl eq_refl eq_refl eq_refl))).
Defined.

(** X6.  The handshake, when the server rejects it.  The entry of the
    handshake is removed, the session flags are not touched and nothing
    is emitted.  When [new Error(error.message)] can be made, the
    attempt's promise is rejected with "Authentication failed: "
    followed by that error's message, the socket is closed from the
    client's side and the in-flight marker is cleared.  When making it
    throws (the message is an object with a [toString] member), nothing
    else happens: the promise keeps its state, the socket stays open and
    the attempt stays marked as in flight. *)
Theorem handshake_rejected st i s u u' data0 data :
  ws st = Some i -> sockets st !! i = Some s -> readyState s = OPEN ->
  onmessage s = true -> is_challenge data0 = true ->
  is_challenge data = false -> prop "id" data = Some (JStr u) ->
  (if is_str (prop "type" data) "res" then res_rejects data
   else legacy_rejects data) = true ->
  let st1 := step (SocketReceives i (Some data0) u) st in
  let st2 := step (SocketReceives i (Some data) u') st1 in
  pendingRequests st2 = delete u (pendingRequests st)
  /\ ws st2 = Some i
  /\ connected st2 = connected st
  /\ authenticated st2 = authenticated st
  /\ emitted st2 = emitted st
  /\ (forall e, server_error data = Some e ->
        (promise_state_of (s_promise s) st = Some Pending ->
         promise_state_of (s_promise s) st2
         = Some (Rejected (Error ("Authentication failed: " ++ message_of e))))
        /\ socket_is CLOSING i st2 = true
        /\ connecting st2 = None)
  /\ (server_error data = None ->
        st2 = pending_delete u st1
        /\ promise_state_of (s_promise s) st2 = promise_state_of (s_promise s) st
        /\ socket_is OPEN i st2 = true
        /\ connecting st2 = connecting st)
  /\ (forall ms, prop "error" data = Some (JObj ms) ->
        (forall m, member "message" ms = Some (JStr m) ->
           server_error data = Some (Error m))
        /\ (member "message" ms = None -> server_error data = Some (Error ""))
        /\ (forall inner w, member "message" ms = Some (JObj inner) ->
              member "toString" inner = Some w -> server_error data = None)).
Proof.
  intros Hws Hs Hr Hm Hch Hnch Hid Hrej st1 st2.
  destruct (challenge_step st i s u data0 Hws Hs Hr Hm Hch) as [Heq1 Hs1].
  fold st1 in Heq1, Hs1.
  assert (Heq2 : st2 = reject_server_error (HandshakeHandlers (s_promise s)) data
                         (pending_delete u st1)).
  { unfold st2, st1. rewrite (reply_step st i s u u' data0 data) by done.
    by rewrite Hrej. }
  unfold reject_server_error, reject_new_Error in Heq2.
  fold (server_error data) in Heq2. clearbody st2 st1.
  assert (Hws1 : ws st1 = Some i) by (by rewrite Heq1).
  assert (Hthrown : server_error data = None -> st2 = pending_delete u st1).
  { intros Hn. by rewrite Hn in Heq2. }
  assert (Hmade : forall e, server_error data = Some e ->
            st2 = run_reject (HandshakeHandlers (s_promise s)) e (pending_delete u st1)).
  { intros e He. by rewrite He in Heq2. }
  unfold run_reject in Hmade.
  split_and!.
  - destruct (server_error data) as [e|].
    + rewrite (Hmade e eq_refl), settle_pendingRequests, ws_close_pendingRequests.
      cbn. rewrite Heq1. cbn. by rewrite delete_insert_eq.
    + rewrite (Hthrown eq_refl). cbn. rewrite Heq1. cbn. by rewrite delete_insert_eq.
  - destruct (server_error data) as [e|].
    + by rewrite (Hmade e eq_refl), settle_ws, ws_close_ws.
    + by rewrite (Hthrown eq_refl).
  - destruct (server_error data) as [e|].
    + rewrite (Hmade e eq_refl), settle_connected, ws_close_connected. cbn.
      by rewrite Heq1.
    + rewrite (Hthrown eq_refl). cbn. by rewrite Heq1.
  - destruct (server_error data) as [e|].
    + rewrite (Hmade e eq_refl), settle_authenticated, ws_close_authenticated. cbn.
      by rewrite Heq1.
    + rewrite (Hthrown eq_refl). cbn. by rewrite Heq1.
  - destruct (server_error data) as [e|].
    + rewrite (Hmade e eq_refl), settle_emitted, ws_close_emitted. cbn.
      by rewrite Heq1.
    + rewrite (Hthrown eq_refl). cbn. by rewrite Heq1.
  - intros e He. rewrite (Hmade e He). split_and!.
    + intros Hp. apply settle_pending.
      rewrite ws_close_promise_state. cbn. by rewrite Heq1.
    + unfold socket_is. rewrite settle_sockets. unfold ws_close.
      cbn [ws set_connecting pending_delete set_pendingRequests]. rewrite Hws1.
      cbn. rewrite list_lookup_alter_eq, Hs1. cbn. unfold start_closing. cbn.
      by rewrite Hr.
    + by rewrite settle_connecting, ws_close_connecting.
  - intros Hn. rewrite (Hthrown Hn). split_and!.
    + done.
    + unfold promise_state_of. cbn. by rewrite Heq1.
    + unfold socket_is. cbn. rewrite Hs1. cbn. by rewrite Hr.
    + cbn. by rewrite Heq1.
  - intros ms He. by apply server_error_of_message.
Qed.

Lemma handshake_rejected_witness :
  promise_state_of 0
    (step (SocketReceives 0 (Some (error_frame "hs-1" "bad token")) "unused")
       (step (SocketReceives 0 (Some challenge_frame) "hs-1")
          (run [DoConnect; SocketOpens 0] (new_client true "secret"))))
  = Some (Rejected (Error "Authentication failed: bad token")).
Proof.
  pose (st0 := run [DoConnect; SocketOpens 0] (new_client true "secret")).
  assert (Hws : ws st0 = Some 0) by (vm_compute; reflexivity).
  assert (Hs : sockets st0 !! 0
               = Some {| readyState := OPEN; onopen := true; onclose := true;
                         onerror := true; onmessage := true; s_promise := 0;
                         s_timeout := 0; s_sent := [] |}) by (vm_compute; reflexivity).
  assert (Hp : promise_state_of 0 st0 = Some Pending) by (vm_compute; reflexivity).
  destruct (handshake_rejected st0 0 _ "hs-1" "unused" challenge_frame
              (error_frame "hs-1" "bad token")
              Hws Hs eq_refl eq_refl eq_refl eq_refl eq_refl eq_refl)
    as (_ & _ & _ & _ & _ & H & _).
  exact (proj1 (H (Error "bad token") eq_refl) Hp).
Defined.

(** The other outcome of X6 on the same client: a rejecting reply whose
    error message is an object with a [toString] member leaves the
    attempt undecided, the socket open and the attempt marked in
    flight, so that further [connect()] calls are handed a promise that
    only a socket error can still reject. *)
Lemma handshake_rejection_thrown :
  let odd := JObj [("type", JStr "res"); ("id", JStr "hs-1"); ("ok", JBool false);
                   ("error", JObj [("message", JObj [("toString", JNum 1)])])] in
  let st2 := run [DoConnect; SocketOpens 0;
                  SocketReceives 0 (Some challenge_frame) "hs-1";
                  SocketReceives 0 (Some odd) "unused"] (new_client true "secret") in
  server_error odd = None
  /\ promise_state_of 0 st2 = Some Pending
  /\ socket_is OPEN 0 st2 = true
  /\ connecting st2 = Some 0
  /\ pendingRequests st2 !! "hs-1" = None
  /\ isConnected st2 = false.
Proof. by_running. Qed.

(** ** setAutoReconnect (client.ts 355-361) *)

Lemma setAutoReconnect_on st : setAutoReconnect true st = set_autoReconnect true st.
Proof. unfold setAutoReconnect. cbn. by destruct (reconnectTimer st). Qed.

(** X7.  [setAutoReconnect(false)] on any client: auto-reconnect is off,
    the reconnect timer is cancelled, and as long as nobody calls
    [setAutoReconnect(true)] no reconnect timer is armed again, whatever
    happens, a reconnect attempt already under way that fails included.
    Unlike [disconnect()] it leaves the socket, the session flags, the
    attempt in flight and the pending calls alone.
    [setAutoReconnect(true)] only sets the flag: it arms no timer and
    starts no attempt, even on a client that has lost its connection. *)
Theorem setAutoReconnect_effect st :
  reachable st ->
  let off := setAutoReconnect false st in
  (autoReconnect off = false
   /\ reconnectTimer off = None
   /\ ws off = ws st /\ sockets off = sockets st
   /\ connected off = connected st /\ authenticated off = authenticated st
   /\ connecting off = connecting st
   /\ pendingRequests off = pendingRequests st /\ promises off = promises st
   /\ forall evs,
        Forall (fun e => e <> DoSetAutoReconnect true) evs ->
        armed_reconnects (run evs off) = [])
  /\ setAutoReconnect true st = set_autoReconnect true st.
Proof.
  intros R off. pose proof (reachable_consistent _ R) as C.
  assert (Hoff : autoReconnect off = false) by apply setAutoReconnect_autoReconnect.
  assert (Coff : consistent off) by (by apply consistent_setAutoReconnect).
  split; [|apply setAutoReconnect_on].
  split_and!; try done.
  - by apply (off_no_timer _ Coff).
  - unfold off, setAutoReconnect. cbn. by destruct (reconnectTimer st).
  - unfold off, setAutoReconnect. cbn. by destruct (reconnectTimer st).
  - unfold off, setAutoReconnect. cbn. by destruct (reconnectTimer st).
  - unfold off, setAutoReconnect. cbn. by destruct (reconnectTimer st).
  - unfold off, setAutoReconnect. cbn. by destruct (reconnectTimer st).
  - unfold off, setAutoReconnect. cbn. by destruct (reconnectTimer st).
  - unfold off, setAutoReconnect. cbn. by destruct (reconnectTimer st).
  - intros evs Hall.
    assert (Cr : consistent (run evs off)) by (by apply consistent_run).
    rewrite (consistent_armed_reconnects _ Cr).
    by rewrite (off_no_timer _ Cr (run_autoReconnect_off _ _ Hall Hoff)).
Qed.

Lemma setAutoReconnect_effect_witness :
  armed_reconnects
    (run [SocketCloses 0] (setAutoReconnect false session)) = [].
Proof.
  destruct (setAutoReconnect_effect session session_reachable)
    as [(_ & _ & _ & _ & _ & _ & _ & _ & _ & H) _].
  apply (H [SocketCloses 0]). by repeat constructor.
Defined.

(** ** The reconnect callback (client.ts 208-219) *)

Lemma discard_socket_reconnectTimer st :
  reconnectTimer (discard_socket st) = reconnectTimer st.
Proof. unfold discard_socket. by repeat case_match. Qed.

Lemma discard_socket_timers st : timers (discard_socket st) = timers st.
Proof. unfold discard_socket. by repeat case_match. Qed.

Lemma discard_socket_connected st : connected (discard_socket st) = connected st.
Proof. unfold discard_socket. by repeat case_match. Qed.

(** [connect()] past its two early returns. *)
Lemma connect_fresh st :
  connected st && ws_open st = false -> connecting st = None ->
  let p := length (promises st) in
  let st0 := discard_socket (snd (new_promise st)) in
  connect st
  = (Started p,
     set_connecting (Some p)
       (if url_valid st then open_socket p st0
        else settle p (Rejected UrlError) (set_connecting None st0))).
Proof.
  intros Hc Hing p st0. unfold connect. rewrite Hc, Hing. unfold new_promise at 1.
  cbv beta iota zeta. rewrite discard_socket_url_valid. done.
Qed.

Lemma open_socket_eq p st :
  open_socket p st
  = set_ws (Some (length (sockets st)))
      (set_sockets
         (sockets st ++
          [{| readyState := CONNECTING; onopen := true; onclose := true;
              onerror := true; onmessage := true;
              s_promise := p; s_timeout := length (timers st); s_sent := [] |}])
         (set_timers
            (timers st ++
             [{| t_action := ConnectionTimeout p; t_delay := 10000;
                 t_active := true |}]) st)).
Proof. done. Qed.

Lemma reconnect_armed st t :
  consistent st -> reconnectTimer st = Some t ->
  autoReconnect st = true
  /\ exists tm, timers st !! t = Some tm /\ t_active tm = true
                /\ t_action tm = ReconnectAttempt.
Proof.
  intros C Ht. split.
  - destruct (autoReconnect st) eqn:E; [done|].
    rewrite (off_no_timer _ C E) in Ht. done.
  - apply (armed_is_field _ C) in Ht. unfold armed_at in Ht.
    destruct (timers st !! t) as [tm|]; [|done].
    apply andb_true_iff in Ht as [Hk Ha]. exists tm. split_and!; try done.
    unfold is_reconnect in Hk. by destruct (t_action tm).
Qed.

Lemma consistent_single st t :
  consistent st -> reconnectTimer st = Some t ->
  armed_reconnects st = [t]
  /\ exists tm, timers st !! t = Some tm /\ t_delay tm = 10000%Z.
Proof.
  intros C Ht. split; [by rewrite (consistent_armed_reconnects _ C), Ht|].
  pose proof (proj2 (armed_is_field _ C t) Ht) as Ha. unfold armed_at in Ha.
  destruct (timers st !! t) as [tm|] eqn:E; [|done].
  apply andb_true_iff in Ha as [Hk _]. exists tm. split; [done|].
  by apply (reconnect_delay _ C t).
Qed.

(** ** What the code leaves alone: the url *)

Lemma scheduleReconnect_url_valid st : url_valid (scheduleReconnect st) = url_valid st.
Proof. unfold scheduleReconnect. by destruct (_ || _). Qed.

Lemma iter_scheduleReconnect_url_valid n st :
  url_valid (Nat.iter n scheduleReconnect st) = url_valid st.
Proof.
  induction n as [|n IH]; [done|]. rewrite Nat.iter_succ.
  by rewrite scheduleReconnect_url_valid.
Qed.

Lemma settle_url_valid p o st : url_valid (settle p o st) = url_valid st.
Proof.
  unfold settle. destruct o; [done..|]. by rewrite iter_scheduleReconnect_url_valid.
Qed.

Create Rewrite HintDb frame_url_valid.

#[local] Hint Rewrite settle_url_valid scheduleReconnect_url_valid
  iter_scheduleReconnect_url_valid discard_socket_url_valid : frame_url_valid.

Ltac frame_url_valid :=
  unfold open_socket, socket_send, ws_close;
  unfold new_promise, setTimeout;
  cbv beta iota zeta;
  repeat first
    [ done
    | progress autorewrite with frame_url_valid
    | progress cbn [url_valid set_ws set_reconnectTimer set_pendingRequests
                    set_connected set_authenticated set_connecting
                    set_autoReconnect set_sockets set_timers set_promises
                    set_emitted emit clearTimeout update_socket pending_delete
                    socket_close snd fst]
    | progress simplify_eq
    | case_match ].

Lemma await_connect_url_valid p st : url_valid (await_connect p st) = url_valid st.
Proof. unfold await_connect. frame_url_valid. Qed.

#[local] Hint Rewrite await_connect_url_valid : frame_url_valid.

Lemma run_resolve_url_valid h v st : url_valid (run_resolve h v st) = url_valid st.
Proof. unfold run_resolve. frame_url_valid. Qed.

Lemma run_reject_url_valid h e st : url_valid (run_reject h e st) = url_valid st.
Proof. unfold run_reject. frame_url_valid. Qed.

#[local] Hint Rewrite run_resolve_url_valid run_reject_url_valid : frame_url_valid.

Lemma handleMessage_url_valid data st : url_valid (handleMessage data st) = url_valid st.
Proof. unfold handleMessage, reject_new_Error. frame_url_valid. Qed.

#[local] Hint Rewrite handleMessage_url_valid : frame_url_valid.

Lemma ws_onopen_url_valid t st : url_valid (ws_onopen t st) = url_valid st.
Proof. unfold ws_onopen. frame_url_valid. Qed.

Lemma ws_onclose_url_valid t st : url_valid (ws_onclose t st) = url_valid st.
Proof. unfold ws_onclose. frame_url_valid. Qed.

Lemma ws_onerror_url_valid p t st : url_valid (ws_onerror p t st) = url_valid st.
Proof. unfold ws_onerror. frame_url_valid. Qed.

Lemma ws_onmessage_url_valid p parsed uuid st :
  url_valid (ws_onmessage p parsed uuid st) = url_valid st.
Proof. unfold ws_onmessage. frame_url_valid. Qed.

Lemma connect_url_valid st : url_valid (snd (connect st)) = url_valid st.
Proof. unfold connect. frame_url_valid. Qed.

Lemma call_url_valid method params uuid st :
  url_valid (snd (call method params uuid st)) = url_valid st.
Proof. unfold call. frame_url_valid. Qed.

Lemma connection_timeout_url_valid p st :
  url_valid (connection_timeout p st) = url_valid st.
Proof. unfold connection_timeout. frame_url_valid. Qed.

Lemma request_timeout_url_valid id method p st :
  url_valid (request_timeout id method p st) = url_valid st.
Proof. unfold request_timeout. frame_url_valid. Qed.

#[local] Hint Rewrite ws_onopen_url_valid ws_onclose_url_valid ws_onerror_url_valid
  ws_onmessage_url_valid connect_url_valid call_url_valid
  connection_timeout_url_valid request_timeout_url_valid : frame_url_valid.

Lemma reconnect_attempt_url_valid st : url_valid (reconnect_attempt st) = url_valid st.
Proof.
  unfold reconnect_attempt. destruct (negb _); [done|].
  pose proof (connect_url_valid (set_reconnectTimer None st)) as H.
  destruct (connect _) as [[|p|p] st2]; cbn [snd] in H;
    by rewrite ?await_connect_url_valid.
Qed.

#[local] Hint Rewrite reconnect_attempt_url_valid : frame_url_valid.

Lemma run_timer_url_valid cb st : url_valid (run_timer cb st) = url_valid st.
Proof. unfold run_timer. frame_url_valid. Qed.

#[local] Hint Rewrite run_timer_url_valid : frame_url_valid.

Lemma step_url_valid e st : url_valid (step e st) = url_valid st.
Proof.
  destruct e; cbn [step]; unfold disconnect, setAutoReconnect; frame_url_valid.
Qed.

Lemma run_url_valid evs st : url_valid (run evs st) = url_valid st.
Proof.
  revert st. induction evs as [|e evs IH]; intros st; [done|].
  cbn. by rewrite IH, step_url_valid.
Qed.

(** A client whose url the host refuses: [connect()] fails before it
    makes a socket, so there never is a socket, a timer or a session. *)
Lemma url_refused_step e st :
  url_valid st = false -> sockets st = [] -> timers st = [] -> ws st = None ->
  connected st = false -> reconnectTimer st = None ->
  url_valid (step e st) = false /\ sockets (step e st) = []
  /\ timers (step e st) = [] /\ ws (step e st) = None
  /\ connected (step e st) = false /\ reconnectTimer (step e st) = None.
Proof.
  intros Hu Hs Ht Hw Hc Hr. destruct e; cbn [step].
  - unfold connect. rewrite Hc. cbn [andb].
    destruct (connecting st) as [q|]; [done|].
    unfold new_promise. cbv beta iota zeta.
    assert (HD : forall v, discard_socket (set_promises v st) = set_promises v st).
    { intros v. unfold discard_socket. cbn [ws set_promises]. by rewrite Hw. }
    rewrite !HD. cbn [url_valid set_promises]. rewrite Hu. cbn [snd].
    unfold settle, suspended_on. cbn [promises set_connecting set_promises].
    rewrite lookup_app_r, Nat.sub_diag by lia. cbn. done.
  - unfold call. by rewrite Hw.
  - unfold disconnect. cbn [reconnectTimer set_autoReconnect]. rewrite Hr.
    cbn [ws set_autoReconnect]. by rewrite Hw.
  - unfold setAutoReconnect. cbn [reconnectTimer set_autoReconnect]. by rewrite Hr.
  - by rewrite Hs.
  - unfold socket_is. by rewrite Hs.
  - by rewrite Hs.
  - by rewrite Hs.
  - by rewrite Hs.
  - by rewrite Ht.
Qed.

Lemma url_refused_run evs st :
  url_valid st = false -> sockets st = [] -> timers st = [] -> ws st = None ->
  connected st = false -> reconnectTimer st = None ->
  reconnectTimer (run evs st) = None.
Proof.
  revert st. induction evs as [|e evs IH]; intros st Hu Hs Ht Hw Hc Hr; [done|].
  change (run (e :: evs) st) with (run evs (step e st)).
  destruct (url_refused_step e st Hu Hs Ht Hw Hc Hr) as (H1 & H2 & H3 & H4 & H5 & H6).
  by apply IH.
Qed.

Lemma reconnect_timer_url_valid st t :
  reachable st -> reconnectTimer st = Some t -> url_valid st = true.
Proof.
  intros (url_ok & tok & evs & ->) Ht. destruct url_ok.
  - by rewrite run_url_valid.
  - by rewrite url_refused_run in Ht.
Qed.

(** X8.  The reconnect loop.  When the reconnect timer fires on a client
    that is not connected and has no attempt in flight, the callback
    starts an attempt and waits for it, with no reconnect timer armed
    meanwhile.  If the new socket then reports an error, the attempt is
    rejected and the callback arms the reconnect timer again: exactly
    one, of 10000 ms, with the client back in the state the loop
    started from, so the retries go on for as long as they fail.  The
    url is one the host accepts: a client whose url is refused never
    gets a socket, and without a socket no reconnect timer is ever
    armed. *)
Theorem reconnect_retries st t :
  reachable st ->
  reconnectTimer st = Some t -> connected st = false -> connecting st = None ->
  let p := length (promises st) in
  let i := length (sockets st) in
  let st1 := step (TimerFires t) st in
  let st2 := step (SocketFails i) st1 in
  url_valid st = true
  /\ connecting st1 = Some p /\ ws st1 = Some i
  /\ socket_is CONNECTING i st1 = true
  /\ reconnectTimer st1 = None /\ armed_reconnects st1 = []
  /\ promise_state_of p st2
     = Some (Rejected (Error "Failed to connect to OpenClaw Gateway"))
  /\ exists t' tm,
       armed_reconnects st2 = [t'] /\ reconnectTimer st2 = Some t'
       /\ timers st2 !! t' = Some tm /\ t_delay tm = 10000%Z
       /\ connected st2 = false /\ connecting st2 = None
       /\ url_valid st2 = true.
Proof.
  intros R Ht Hcon Hing p i st1 st2.
  pose proof (reachable_consistent _ R) as C.
  assert (C1 : consistent st1) by apply consistent_step, C.
  assert (C2 : consistent st2) by apply consistent_step, C1.
  destruct (reconnect_armed _ _ C Ht) as (Hauto & tm & Htm & Hact & Hkind).
  set (A := set_reconnectTimer None (clearTimeout t st)).
  set (D := discard_socket (snd (new_promise A))).
  assert (HpD : promises D = (promises st ++ [{| p_state := Pending; p_retry := 0 |}])%list)
    by (unfold D; by rewrite discard_socket_promises).
  assert (Hlook : promises D !! p = Some {| p_state := Pending; p_retry := 0 |}).
  { rewrite HpD. unfold p. by rewrite lookup_app_r, Nat.sub_diag by lia. }
  assert (Hconn : connect A
            = (Started p,
               set_connecting (Some p)
                 (if url_valid st then open_socket p D
                  else settle p (Rejected UrlError) (set_connecting None D)))).
  { apply (connect_fresh A); [|done].
    change (connected A) with (connected st). by rewrite Hcon. }
  assert (Heq1 : st1 = await_connect p
                   (set_connecting (Some p)
                      (if url_valid st then open_socket p D
                       else settle p (Rejected UrlError) (set_connecting None D)))).
  { unfold st1. rewrite (step_TimerFires _ _ _ Htm Hact), Hkind. cbn [run_timer].
    unfold reconnect_attempt. fold A. change (autoReconnect A) with (autoReconnect st).
    rewrite Hauto. cbn [negb]. by rewrite Hconn. }
  clearbody st1.
  assert (Hurl : url_valid st = true) by (by apply (reconnect_timer_url_valid _ t)).
  rewrite Hurl in Heq1. split; [exact Hurl|].
    rewrite open_socket_eq in Heq1. unfold await_connect in Heq1.
    cbn [promises set_connecting set_ws set_sockets set_timers] in Heq1.
    rewrite Hlook in Heq1. cbn [fmap option_fmap option_map p_state] in Heq1.
    assert (HsD : length (sockets D) = i)
      by (unfold D; by rewrite discard_socket_sockets_length).
    rewrite HsD in Heq1.
    assert (Hrt1 : reconnectTimer st1 = None).
    { rewrite Heq1. cbn. unfold D. by rewrite discard_socket_reconnectTimer. }
    assert (Hsock : sockets st1 !! i
              = Some {| readyState := CONNECTING; onopen := true; onclose := true;
                        onerror := true; onmessage := true; s_promise := p;
                        s_timeout := length (timers D); s_sent := [] |}).
    { rewrite Heq1. cbn. by rewrite lookup_app_r, HsD, Nat.sub_diag by lia. }
    assert (Hcon1 : connected st1 = false).
    { rewrite Heq1. cbn. unfold D. by rewrite discard_socket_connected. }
    assert (Hauto1 : autoReconnect st1 = true).
    { rewrite Heq1. cbn. unfold D. by rewrite discard_socket_autoReconnect. }
    assert (Hp1 : promises st1 !! p = Some {| p_state := Pending; p_retry := 1 |}).
    { rewrite Heq1. cbn. by rewrite list_lookup_alter_eq, Hlook. }
    assert (Heq2 : st2 = ws_onerror p (length (timers D)) st1).
    { unfold st2. by rewrite (step_SocketFails _ _ _ Hsock). }
    clearbody st2. unfold ws_onerror in Heq2.
    cbn [connected emit set_emitted clearTimeout set_timers] in Heq2.
    rewrite Hcon1 in Heq2. cbn [negb] in Heq2.
    unfold settle, suspended_on in Heq2.
    cbn [promises set_connecting emit set_emitted clearTimeout set_timers] in Heq2.
    rewrite Hp1 in Heq2. cbn [is_pending p_state p_retry Nat.iter nat_rect] in Heq2.
    assert (Hrt2 : is_Some (reconnectTimer st2)).
    { rewrite Heq2. by apply scheduleReconnect_armed. }
    destruct Hrt2 as [t' Ht'].
    destruct (consistent_single _ _ C2 Ht') as (Harmed & tm' & Htm' & Hdelay).
    split_and!.
    + by rewrite Heq1.
    + by rewrite Heq1.
    + unfold socket_is. by rewrite Hsock.
    + done.
    + by rewrite (consistent_armed_reconnects _ C1), Hrt1.
    + unfold promise_state_of. rewrite Heq2, scheduleReconnect_promises. cbn.
      by rewrite list_lookup_alter_eq, Hp1.
    + exists t', tm'. split_and!; try done.
      * by rewrite Heq2, scheduleReconnect_connected.
      * by rewrite Heq2, scheduleReconnect_connecting.
      * rewrite Heq2. unfold scheduleReconnect.
        destruct (_ || _); cbn; rewrite Heq1; cbn; unfold D;
          by rewrite discard_socket_url_valid.
Qed.

Lemma reconnect_retries_witness :
  exists t' tm,
    armed_reconnects
      (step (SocketFails 1) (step (TimerFires 1) (run [SocketCloses 0] session)))
    = [t']
    /\ timers
         (step (SocketFails 1) (step (TimerFires 1) (run [SocketCloses 0] session)))
       !! t' = Some tm
    /\ t_delay tm = 10000%Z.
Proof.
  pose (st0 := run [SocketCloses 0] session).
  assert (R : reachable st0) by apply reachable_run, session_reachable.
  assert (Ht : reconnectTimer st0 = Some 1) by (vm_compute; reflexivity).
  assert (Hc : connected st0 = false) by (vm_compute; reflexivity).
  assert (Hi : connecting st0 = None) by (vm_compute; reflexivity).
  assert (Hl : length (sockets st0) = 1) by (vm_compute; reflexivity).
  destruct (reconnect_retries st0 1 R Ht Hc Hi)
    as (_ & _ & _ & _ & _ & _ & _ & t' & tm & H1 & _ & H2 & H3 & _).
  rewrite Hl in H1, H2. exists t', tm.
  split; [exact H1|split; [exact H2|exact H3]].
Defined.

(** ** Calls and their answers (client.ts 166-196, 222-243) *)

Lemma scheduleReconnect_timers_lookup st t tm :
  timers st !! t = Some tm -> timers (scheduleReconnect st) !! t = Some tm.
Proof.
  intros H. unfold scheduleReconnect. destruct (_ || _); [done|].
  cbn. by apply lookup_app_l_Some.
Qed.

Lemma settle_timers_lookup p o st t tm :
  timers st !! t = Some tm -> timers (settle p o st) !! t = Some tm.
Proof.
  intros H. unfold settle. destruct o; [done..|].
  induction (suspended_on p st) as [|n IH]; [done|].
  rewrite Nat.iter_succ. by apply scheduleReconnect_timers_lookup.
Qed.

Lemma prop_id_not_null data k : prop "id" data = Some k -> data <> JNull.
Proof. by intros H ->. Qed.

(** X9.  A call and its answer.  The call was accepted, on a socket
    that was not still connecting (so that [send] did not throw), with
    an id in use nowhere else; any events may follow that bring no frame
    bearing the id, do not hand the id out again and do not fire the
    call's timer (other calls and their answers, in any order, among
    them).  When a frame other than the challenge bearing the id then
    arrives on an open socket that still has its message callback, the
    call's promise is settled from that frame alone: by the typed rule
    if the frame has type "res", by the legacy rule otherwise; where the
    rule rejects and making the error throws, the promise is left
    pending.  The entry leaves the pending map, every other entry stays.
    The 30000 ms timer of the call is not cancelled by the answer: it is
    still armed, and when it fires it finds no entry and does nothing. *)
Theorem call_answered method params uuid st i evs j sj data u :
  reachable st ->
  ws st = Some i -> connected st = true -> authenticated st = true ->
  socket_is CONNECTING i st = false ->
  fresh_id uuid st = true ->
  Forall (quiet uuid (length (timers st))) evs ->
  let p := length (promises st) in
  let t := length (timers st) in
  let st2 := run evs (snd (call method params uuid st)) in
  let st3 := step (SocketReceives j (Some data) u) st2 in
  sockets st2 !! j = Some sj -> readyState sj = OPEN -> onmessage sj = true ->
  is_challenge data = false -> prop "id" data = Some (JStr uuid) ->
  promise_state_of p st3
  = Some (if is_str (prop "type" data) "res"
          then if res_rejects data then rejection data
               else Resolved (prop "payload" data)
          else if legacy_rejects data then rejection data
               else Resolved (prop "result" data))
  /\ pendingRequests st3 = delete uuid (pendingRequests st2)
  /\ timers st3 !! t = Some {| t_action := RequestTimeout uuid method p;
                               t_delay := 30000; t_active := true |}
  /\ step (TimerFires t) st3 = clearTimeout t st3.
Proof.
  intros R Hws Hc Ha Hsock Hfresh Hquiet p t st2 st3 Hsj Hr Hm Hch Hid.
  destruct (call_outstanding method params uuid st i
              (reachable_consistent _ R) (reachable_scoped _ R)
              Hws Hc Ha Hsock Hfresh) as [_ O1].
  pose proof (outstanding_run _ _ _ _ evs _ Hquiet O1) as O2.
  fold p t st2 in O2.
  assert (Hget : pending_get (prop "id" data) st2 = Some (uuid, CallHandlers p)).
  { rewrite Hid. unfold pending_get. by rewrite (o_entry _ _ _ _ _ O2). }
  assert (Heq : st3 = handleMessage data st2).
  { unfold st3. rewrite (step_SocketReceives _ _ _ _ _ Hsj Hr Hm).
    apply ws_onmessage_reply; [done|by eapply prop_id_not_null]. }
  clearbody st3 st2.
  assert (Hmap : pendingRequests st3 = delete uuid (pendingRequests st2)).
  { rewrite Heq. by apply handleMessage_matched_pendingRequests with (CallHandlers p). }
  assert (Hpend : promise_state_of p (pending_delete uuid st2) = Some Pending)
    by apply O2.
  assert (Htm : timers st3 !! t
                = Some {| t_action := RequestTimeout uuid method p;
                          t_delay := 30000; t_active := true |}).
  { rewrite Heq, (typed_or_legacy _ _ _ _ Hget).
    unfold reject_server_error, reject_new_Error, run_reject, run_resolve.
    repeat case_match; try apply settle_timers_lookup; apply O2. }
  split_and!; try done.
  - rewrite Heq, (typed_or_legacy _ _ _ _ Hget).
    unfold reject_server_error, reject_new_Error, rejection, server_error,
      run_reject, run_resolve.
    destruct (is_str (prop "type" data) "res"), (res_rejects data),
      (legacy_rejects data);
      try (destruct (new_Error (prop_of "message" (prop "error" data))); [|done]);
      by apply settle_pending.
  - rewrite (step_TimerFires _ _ _ Htm eq_refl). cbn [t_action run_timer].
    unfold request_timeout. cbn [pendingRequests clearTimeout set_timers].
    by rewrite Hmap, lookup_delete_eq.
Qed.

Lemma call_answered_witness :
  promise_state_of (length (promises session))
    (step (SocketReceives 0 (Some (ok_frame "rq-1" (JStr "first"))) "unused")
       (run [DoCall "node.list" None "rq-2";
             SocketReceives 0 (Some (ok_frame "rq-2" (JStr "second"))) "unused"]
          (snd (call "sessions.list" None "rq-1" session))))
  = Some (Resolved (Some (JStr "first"))).
Proof.
  pose proof session_reachable as R.
  assert (Hws : ws session = Some 0) by (vm_compute; reflexivity).
  assert (Hc : connected session = true) by (vm_compute; reflexivity).
  assert (Ha : authenticated session = true) by (vm_compute; reflexivity).
  assert (Hs : socket_is CONNECTING 0 session = false) by (vm_compute; reflexivity).
  assert (Hf : fresh_id "rq-1" session = true) by (vm_compute; reflexivity).
  assert (Hq : Forall (quiet "rq-1" (length (timers session)))
                 [DoCall "node.list" None "rq-2";
                  SocketReceives 0 (Some (ok_frame "rq-2" (JStr "second"))) "unused"]).
  { repeat constructor; try discriminate;
      intros data [= <-]; vm_compute; discriminate. }
  assert (Hsj : sockets
                  (run [DoCall "node.list" None "rq-2";
                        SocketReceives 0 (Some (ok_frame "rq-2" (JStr "second")))
                          "unused"]
                     (snd (call "sessions.list" None "rq-1" session))) !! 0
                = Some {| readyState := OPEN; onopen := true; onclose := true;
                          onerror := true; onmessage := true; s_promise := 0;
                          s_timeout := 0;
                          s_sent := [connect_request "hs-1" "secret";
                                     request_frame "rq-1" "sessions.list" None;
                                     request_frame "rq-2" "node.list" None] |})
    by (vm_compute; reflexivity).
  assert (H1 : is_challenge (ok_frame "rq-1" (JStr "first")) = false)
    by (vm_compute; reflexivity).
  assert (H2 : prop "id" (ok_frame "rq-1" (JStr "first")) = Some (JStr "rq-1"))
    by (vm_compute; reflexivity).
  exact (proj1 (call_answered "sessions.list" None "rq-1" session 0 _ 0 _ _ "unused"
                  R Hws Hc Ha Hs Hf Hq Hsj eq_refl eq_refl H1 H2)).
Defined.

(** X10.  [call()] tests the flags but not the state of the socket.  On
    a client whose flags are set while its socket is not open, the call
    is accepted: an entry is stored and the 30000 ms timer armed, but no
    frame goes out on any socket.  If the socket is closing or closed,
    [send] discards the frame without an error and the promise is left
    undecided; if the socket is still connecting, [send] throws and the
    promise is rejected with that error, the entry and the timer
    staying behind. *)
Theorem call_on_unopened_socket method params uuid st i :
  ws st = Some i -> connected st = true -> authenticated st = true ->
  socket_is OPEN i st = false ->
  let p := length (promises st) in
  let st1 := snd (call method params uuid st) in
  fst (call method params uuid st) = Awaiting p
  /\ (forall j, s_sent <$> sockets st1 !! j = s_sent <$> sockets st !! j)
  /\ pendingRequests st1 = <[uuid := CallHandlers p]> (pendingRequests st)
  /\ timers st1 !! length (timers st)
     = Some {| t_action := RequestTimeout uuid method p;
               t_delay := 30000; t_active := true |}
  /\ promise_state_of p st1
     = Some (if socket_is CONNECTING i st then Rejected InvalidStateError
             else Pending).
Proof.
  intros Hws Hc Ha Hopen p st1.
  assert (Heq : call method params uuid st
    = (Awaiting p,
       let st0 := set_timers
                    (timers st ++ [{| t_action := RequestTimeout uuid method p;
                                      t_delay := 30000; t_active := true |}])
                    (set_pendingRequests (<[uuid := CallHandlers p]> (pendingRequests st))
                       (set_promises
                          (promises st ++ [{| p_state := Pending; p_retry := 0 |}]) st)) in
       if socket_is CONNECTING i st
       then settle p (Rejected InvalidStateError) st0
       else update_socket i (transmit (request_frame uuid method params)) st0)).
  { unfold call. rewrite Hws, Hc, Ha. cbn [andb].
    unfold new_promise, setTimeout, socket_send. cbv beta iota zeta.
    change (socket_is CONNECTING i _) with (socket_is CONNECTING i st).
    by destruct (socket_is CONNECTING i st). }
  unfold st1. rewrite Heq. cbn [fst snd]. cbv zeta.
  assert (Hlook : (promises st ++ [{| p_state := Pending; p_retry := 0 |}])%list !! p
                  = Some {| p_state := Pending; p_retry := 0 |})
    by (unfold p; by rewrite lookup_app_r, Nat.sub_diag by lia).
  destruct (socket_is CONNECTING i st) eqn:Hcing.
  - split_and!; try done.
    + intros j. by rewrite settle_sockets.
    + by rewrite settle_pendingRequests.
    + apply settle_timers_lookup. cbn. by rewrite lookup_app_r, Nat.sub_diag by lia.
    + apply settle_pending. unfold promise_state_of. cbn. by rewrite Hlook.
  - split_and!; try done.
    + intros j. cbn. rewrite list_lookup_alter. case_decide; [subst j|done].
      unfold socket_is in Hopen, Hcing.
      destruct (sockets st !! i) as [s|]; [|done]. cbn. unfold transmit.
      by destruct (readyState s).
    + cbn. by rewrite lookup_app_r, Nat.sub_diag by lia.
    + unfold promise_state_of. cbn. by rewrite Hlook.
Qed.

Lemma call_on_unopened_socket_witness :
  promise_state_of 1
    (snd (call "sessions.list" None "rq-1" (step (SocketStartsClosing 0) session)))
  = Some Pending
  /\ (s_sent <$> sockets
        (snd (call "sessions.list" None "rq-1" (step (SocketStartsClosing 0) session)))
        !! 0)
     = (s_sent <$> sockets (step (SocketStartsClosing 0) session) !! 0).
Proof.
  pose (st0 := step (SocketStartsClosing 0) session).
  assert (Hws : ws st0 = Some 0) by (vm_compute; reflexivity).
  assert (Hc : connected st0 = true) by (vm_compute; reflexivity).
  assert (Ha : authenticated st0 = true) by (vm_compute; reflexivity).
  assert (Ho : socket_is OPEN 0 st0 = false) by (vm_compute; reflexivity).
  assert (Hl : length (promises st0) = 1) by (vm_compute; reflexivity).
  assert (Hn : socket_is CONNECTING 0 st0 = false) by (vm_compute; reflexivity).
  destruct (call_on_unopened_socket "sessions.list" None "rq-1" st0 0 Hws Hc Ha Ho)
    as (_ & H1 & _ & _ & H2).
  rewrite Hl, Hn in H2. split; [exact H2|exact (H1 0)].
Defined.

(** ** A connection closed before the handshake (client.ts 69-89) *)

Section Abandoned.
Variable p : nat.

#[local] Abbreviation left_behind := (abandoned p).

Lemma abandoned_promise_lt st : left_behind st -> p < length (promises st).
Proof.
  intros A. pose proof (ab_pending _ _ A) as H. unfold promise_state_of in H.
  destruct (promises st !! p) eqn:E; [|done]. by eapply lookup_lt_Some.
Qed.

Lemma abandoned_frame st st' :
  left_behind st ->
  pendingRequests st' = pendingRequests st ->
  timers st' = timers st ->
  promise_state_of p st' = promise_state_of p st ->
  (forall i s', sockets st' !! i = Some s' ->
     exists s, sockets st !! i = Some s /\ s_promise s = s_promise s'
               /\ (readyState s = CLOSED -> readyState s' = CLOSED)) ->
  left_behind st'.
Proof.
  intros A Hp Ht Hs Hsock. split.
  - rewrite Hs. apply A.
  - rewrite Hp. apply A.
  - rewrite Ht. apply A.
  - intros i s' (s & H & Hsp & Hr)%Hsock Heq. apply Hr.
    apply (ab_sockets _ _ A i s H). congruence.
Qed.

Ltac left_alone A :=
  apply (abandoned_frame _ _ A); cbn; try done; eauto.

Lemma abandoned_update_socket i f st :
  (forall s, sockets st !! i = Some s ->
     s_promise (f s) = s_promise s
     /\ (readyState s = CLOSED -> readyState (f s) = CLOSED)) ->
  left_behind st -> left_behind (update_socket i f st).
Proof.
  intros Hf A. left_alone A. intros j s'. rewrite list_lookup_alter.
  case_decide; [subst j|by eauto].
  destruct (sockets st !! i) as [s|]; [|done]. cbn. intros [= <-].
  exists s. split; [done|]. destruct (Hf s eq_refl). done.
Qed.

Lemma abandoned_socket_close i st : left_behind st -> left_behind (socket_close i st).
Proof.
  apply abandoned_update_socket. intros s _. unfold start_closing.
  destruct (readyState s) eqn:E; split; cbn; congruence.
Qed.

Lemma abandoned_ws_close st : left_behind st -> left_behind (ws_close st).
Proof.
  unfold ws_close. destruct (ws st); [|done]. apply abandoned_socket_close.
Qed.

Lemma abandoned_transmit i frame st :
  left_behind st -> left_behind (update_socket i (transmit frame) st).
Proof.
  apply abandoned_update_socket. intros s _. unfold transmit.
  destruct (readyState s) eqn:E; split; cbn; congruence.
Qed.

Lemma abandoned_new_promise st : left_behind st -> left_behind (snd (new_promise st)).
Proof.
  intros A. left_alone A. unfold promise_state_of. cbn.
  rewrite lookup_app_l; [done|]. by apply abandoned_promise_lt.
Qed.

Lemma abandoned_emit name args st : left_behind st -> left_behind (emit name args st).
Proof. intros A. left_alone A. Qed.

Lemma abandoned_set_connecting v st :
  left_behind st -> left_behind (set_connecting v st).
Proof. intros A. left_alone A. Qed.

Lemma abandoned_set_ws v st : left_behind st -> left_behind (set_ws v st).
Proof. intros A. left_alone A. Qed.

Lemma abandoned_insert k h st :
  handler_promise h <> p ->
  left_behind st ->
  left_behind (set_pendingRequests (<[k := h]> (pendingRequests st)) st).
Proof.
  intros Hh A. split; try apply A.
  intros k' h'. cbn. rewrite lookup_insert.
  case_decide; [by intros [= <-]|apply A].
Qed.

Lemma abandoned_pending_delete k st :
  left_behind st -> left_behind (pending_delete k st).
Proof.
  intros A. split; try apply A.
  intros k' h'. cbn. rewrite lookup_delete. case_decide; [done|apply A].
Qed.

Lemma abandoned_clearTimeout t st : left_behind st -> left_behind (clearTimeout t st).
Proof.
  intros A. split; try apply A.
  intros t' tm'. rewrite clearTimeout_lookup.
  destruct (timers st !! t') as [tm|] eqn:Htm; [|done]. cbn.
  intros [= <-] Hact. case_decide; [done|]. cbn in *.
  by apply (ab_timers _ _ A t').
Qed.

Lemma abandoned_setTimeout cb d st :
  timer_promise cb <> Some p ->
  left_behind st -> left_behind (snd (setTimeout cb d st)).
Proof.
  intros Hcb A. split; try apply A.
  intros t' tm. rewrite setTimeout_lookup.
  case_decide; [by intros [= <-]|apply A].
Qed.

Lemma abandoned_scheduleReconnect st :
  left_behind st -> left_behind (scheduleReconnect st).
Proof.
  intros A. unfold scheduleReconnect. destruct (_ || _); [done|].
  pose proof (abandoned_setTimeout ReconnectAttempt 10000 st ltac:(done) A) as A1.
  left_alone A1.
Qed.

Lemma abandoned_iter_scheduleReconnect n st :
  left_behind st -> left_behind (Nat.iter n scheduleReconnect st).
Proof.
  intros A. induction n as [|n IH]; [done|].
  rewrite Nat.iter_succ. by apply abandoned_scheduleReconnect.
Qed.

Lemma abandoned_settle p' o st :
  p' <> p -> left_behind st -> left_behind (settle p' o st).
Proof.
  intros Hp A. unfold settle.
  assert (A1 : left_behind (set_promises (alter (fulfil o) p' (promises st)) st)).
  { left_alone A. unfold promise_state_of. cbn. by rewrite list_lookup_alter_ne. }
  destruct o; [done..|]. by apply abandoned_iter_scheduleReconnect.
Qed.

Lemma abandoned_await_connect p' st :
  left_behind st -> left_behind (await_connect p' st).
Proof.
  intros A. unfold await_connect.
  destruct (p_state <$> promises st !! p') as [[]|]; try done.
  - left_alone A. unfold promise_state_of. cbn. rewrite list_lookup_alter.
    case_decide; [subst p'|done]. by destruct (promises st !! p).
  - by apply abandoned_scheduleReconnect.
Qed.

Lemma abandoned_run_resolve h v st :
  handler_promise h <> p -> left_behind st -> left_behind (run_resolve h v st).
Proof.
  intros Hh A. destruct h; unfold run_resolve; apply abandoned_settle; try done.
  left_alone A.
Qed.

Lemma abandoned_run_reject h e st :
  handler_promise h <> p -> left_behind st -> left_behind (run_reject h e st).
Proof.
  intros Hh A. destruct h; unfold run_reject; apply abandoned_settle; try done.
  by apply abandoned_ws_close, abandoned_set_connecting.
Qed.

Lemma abandoned_reject_new_Error h x st :
  handler_promise h <> p -> left_behind st -> left_behind (reject_new_Error h x st).
Proof.
  intros Hh A. unfold reject_new_Error. destruct (new_Error x); [|done].
  by apply abandoned_run_reject.
Qed.

Lemma abandoned_handleMessage data st :
  left_behind st -> left_behind (handleMessage data st).
Proof.
  intros A.
  destruct (pending_get (prop "id" data) st) as [[k h]|] eqn:Hp.
  - destruct (pending_get_Some _ _ _ _ Hp) as [Hk Hh].
    pose proof (ab_entries _ _ A k h Hh) as Hhp.
    rewrite (typed_or_legacy _ _ _ _ Hp). unfold reject_server_error.
    repeat case_match;
      auto using abandoned_run_resolve, abandoned_reject_new_Error,
        abandoned_pending_delete.
  - rewrite (handleMessage_unmatched _ _ Hp).
    repeat case_match; auto using abandoned_emit.
Qed.

Lemma abandoned_ws_onmessage p' parsed u st :
  p' <> p -> left_behind st -> left_behind (ws_onmessage p' parsed u st).
Proof.
  intros Hp A. unfold ws_onmessage.
  destruct parsed as [data|]; [|done].
  assert (Hins : left_behind (set_pendingRequests
                                (<[u := HandshakeHandlers p']> (pendingRequests st)) st))
    by (by apply abandoned_insert).
  unfold socket_send.
  destruct data; try done; (case_match; [|by apply abandoned_handleMessage]);
    repeat case_match; simplify_eq; auto using abandoned_transmit.
Qed.

Lemma abandoned_ws_onclose t st : left_behind st -> left_behind (ws_onclose t st).
Proof.
  intros A. unfold ws_onclose. set (st2 := emit _ _ _).
  assert (A2 : left_behind st2).
  { apply abandoned_emit. pose proof (abandoned_clearTimeout t st A) as A1.
    left_alone A1. }
  case_match; [by apply abandoned_scheduleReconnect|done].
Qed.

Lemma abandoned_ws_onerror p' t st :
  p' <> p -> left_behind st -> left_behind (ws_onerror p' t st).
Proof.
  intros Hp A. unfold ws_onerror. set (st2 := emit _ _ _).
  assert (A2 : left_behind st2) by (by apply abandoned_emit, abandoned_clearTimeout).
  case_match; [|done]. by apply abandoned_settle, abandoned_set_connecting.
Qed.

Lemma abandoned_discard_socket st : left_behind st -> left_behind (discard_socket st).
Proof.
  intros A. unfold discard_socket. destruct (ws st) as [i|]; [|done].
  apply abandoned_set_ws. case_match.
  - by apply abandoned_socket_close, abandoned_update_socket.
  - by apply abandoned_update_socket.
Qed.

Lemma abandoned_open_socket p' st :
  p' <> p -> left_behind st -> left_behind (open_socket p' st).
Proof.
  intros Hp A. unfold open_socket.
  pose proof (abandoned_setTimeout (ConnectionTimeout p') 10000 st) as A1.
  destruct (setTimeout (ConnectionTimeout p') 10000 st) as [t1 st1] eqn:E.
  cbn [snd] in A1. specialize (A1 ltac:(by intros [= ?]) A).
  apply abandoned_set_ws. split; try apply A1.
  intros i s. cbn [sockets set_sockets].
  destruct (decide (i < length (sockets st1))).
  - rewrite lookup_app_l by done. apply A1.
  - destruct (decide (i = length (sockets st1))) as [->|].
    + rewrite lookup_app_r, Nat.sub_diag by lia. cbn. by intros [= <-].
    + rewrite lookup_ge_None_2; [done|]. rewrite length_app. cbn. lia.
Qed.

Lemma abandoned_connect st : left_behind st -> left_behind (snd (connect st)).
Proof.
  intros A. unfold connect. destruct (_ && _); [done|].
  destruct (connecting st); [done|].
  pose proof (abandoned_new_promise st A) as A1.
  pose proof (abandoned_promise_lt _ A) as Hlt.
  destruct (new_promise st) as [p' st1] eqn:E.
  assert (Hpe : p' = length (promises st)) by (by injection E).
  cbn [snd] in *. apply abandoned_set_connecting. case_match.
  - apply abandoned_open_socket; [lia|by apply abandoned_discard_socket].
  - apply abandoned_settle; [lia|].
    by apply abandoned_set_connecting, abandoned_discard_socket.
Qed.

Lemma abandoned_call m ps u st : left_behind st -> left_behind (snd (call m ps u st)).
Proof.
  intros A. unfold call. destruct (ws st) as [i|]; [|done].
  destruct (_ && _); [|done].
  pose proof (abandoned_new_promise st A) as A1.
  pose proof (abandoned_promise_lt _ A) as Hlt.
  destruct (new_promise st) as [p' st1] eqn:E.
  assert (Hpe : p' = length (promises st)) by (by injection E).
  cbn [snd] in *.
  set (st2 := set_pendingRequests _ st1).
  assert (A2 : left_behind st2) by (apply abandoned_insert; [cbn; lia|done]).
  pose proof (abandoned_setTimeout (RequestTimeout u m p') 30000 st2) as A3.
  destruct (setTimeout (RequestTimeout u m p') 30000 st2) as [t3 st3].
  cbn [snd] in *.
  specialize (A3 ltac:(intros [= ?]; lia) A2).
  unfold socket_send. destruct (socket_is CONNECTING i st3).
  - apply abandoned_settle; [lia|done].
  - by apply abandoned_transmit.
Qed.

Lemma abandoned_reconnect_attempt st :
  left_behind st -> left_behind (reconnect_attempt st).
Proof.
  intros A. unfold reconnect_attempt.
  assert (A1 : left_behind (set_reconnectTimer None st)) by left_alone A.
  case_match; [done|].
  pose proof (abandoned_connect _ A1) as A2.
  destruct (connect _) as [[|p'|p'] st2]; cbn [snd] in *;
    [done|by apply abandoned_await_connect..].
Qed.

Lemma abandoned_run_timer cb st :
  timer_promise cb <> Some p -> left_behind st -> left_behind (run_timer cb st).
Proof.
  intros Hp A. destruct cb as [p'|id m p'|]; cbn [run_timer].
  - unfold connection_timeout. case_match; [|done].
    apply abandoned_settle; [by intros ->|by apply abandoned_ws_close].
  - unfold request_timeout. case_match; [|done].
    apply abandoned_settle; [by intros ->|]. by apply abandoned_pending_delete.
  - by apply abandoned_reconnect_attempt.
Qed.

Lemma abandoned_forget_reconnect b st :
  left_behind st ->
  left_behind (match reconnectTimer (set_autoReconnect b st) with
               | Some t' => set_reconnectTimer None
                              (clearTimeout t' (set_autoReconnect b st))
               | None => set_autoReconnect b st
               end).
Proof.
  intros A. assert (A0 : left_behind (set_autoReconnect b st)) by left_alone A.
  destruct (reconnectTimer _) as [t'|] eqn:Hr; [|done].
  pose proof (abandoned_clearTimeout t' _ A0) as A1. left_alone A1.
Qed.

Lemma abandoned_disconnect st : left_behind st -> left_behind (disconnect st).
Proof.
  intros A. unfold disconnect.
  pose proof (abandoned_forget_reconnect false st A) as A1.
  set (st1 := match reconnectTimer (set_autoReconnect false st) with
              | Some _ => _ | None => _ end) in *.
  assert (A2 : left_behind (match ws st1 with
                            | Some i => set_ws None (socket_close i
                                          (update_socket i without_onclose st1))
                            | None => st1
                            end)).
  { case_match; [|done].
    by apply abandoned_set_ws, abandoned_socket_close, abandoned_update_socket. }
  left_alone A2.
Qed.

Lemma abandoned_setAutoReconnect b st :
  left_behind st -> left_behind (setAutoReconnect b st).
Proof.
  intros A. unfold setAutoReconnect.
  pose proof (abandoned_forget_reconnect b st A) as A1.
  assert (A0 : left_behind (set_autoReconnect b st)) by left_alone A.
  destruct (reconnectTimer _) as [t'|]; [|done]. by destruct (negb b).
Qed.

(** No event brings an abandoned promise back: whatever the owner calls
    and whatever the host delivers, it stays abandoned. *)
Lemma abandoned_step e st : left_behind st -> left_behind (step e st).
Proof.
  intros A.
  destruct e as [| m ps u | | b | i | i | i | i | i d u | t]; cbn [step].
  - by apply abandoned_connect.
  - by apply abandoned_call.
  - by apply abandoned_disconnect.
  - by apply abandoned_setAutoReconnect.
  - destruct (sockets st !! i) as [s|] eqn:Hs; [|done].
    destruct (readyState s) eqn:Hr; try done.
    assert (A1 : left_behind (update_socket i (with_readyState OPEN) st)).
    { apply abandoned_update_socket; [|done]. intros s' Hs'.
      assert (s' = s) as -> by congruence. split; [done|]. by rewrite Hr. }
    case_match; [by apply abandoned_clearTimeout|done].
  - unfold socket_is. destruct (sockets st !! i) as [s|] eqn:Hs; [|done].
    destruct (readyState s) eqn:Hr; try done. cbn.
    apply abandoned_update_socket; [|done]. intros s' Hs'.
    assert (s' = s) as -> by congruence. split; [done|]. by rewrite Hr.
  - destruct (sockets st !! i) as [s|] eqn:Hs; [|done].
    assert (A1 : left_behind (update_socket i (with_readyState CLOSED) st))
      by (by apply abandoned_update_socket).
    repeat case_match; try done; by apply abandoned_ws_onclose.
  - destruct (sockets st !! i) as [s|] eqn:Hs; [|done].
    destruct (readyState s) eqn:Hr; try done;
      (case_match; [|done]); apply abandoned_ws_onerror; try done;
      intros Hp; apply (ab_sockets _ _ A i s Hs) in Hp; congruence.
  - destruct (sockets st !! i) as [s|] eqn:Hs; [|done].
    destruct (readyState s) eqn:Hr; try done.
    case_match; [|done]. apply abandoned_ws_onmessage; [|done].
    intros Hp. apply (ab_sockets _ _ A i s Hs) in Hp. congruence.
  - destruct (timers st !! t) as [tm|] eqn:Htm; [|done].
    destruct (t_active tm) eqn:Hact; [|done].
    apply abandoned_run_timer; [by apply (ab_timers _ _ A t)|].
    by apply abandoned_clearTimeout.
Qed.

Lemma abandoned_run evs st : left_behind st -> left_behind (run evs st).
Proof.
  revert st. induction evs as [|e evs IH]; intros st A; [done|].
  cbn. by apply IH, abandoned_step.
Qed.

End Abandoned.

Lemma run_app evs1 evs2 st : run (evs1 ++ evs2) st = run evs2 (run evs1 st).
Proof. unfold run. apply fold_left_app. Qed.

Lemma discard_socket_sockets_promise st j s' :
  sockets (discard_socket st) !! j = Some s' ->
  exists s, sockets st !! j = Some s /\ s_promise s = s_promise s'.
Proof.
  unfold discard_socket. destruct (ws st) as [i|]; [|by eauto].
  assert (Hstep : forall f st0 s2,
            (forall s, s_promise (f s) = s_promise s) ->
            sockets (update_socket i f st0) !! j = Some s2 ->
            exists s, sockets st0 !! j = Some s /\ s_promise s = s_promise s2).
  { intros f st0 s2 Hf. cbn. rewrite list_lookup_alter.
    case_decide; [subst j|by eauto].
    destruct (sockets st0 !! i) as [s|]; [|done]. cbn. intros [= <-]. eauto. }
  cbn [sockets set_ws]. case_match.
  - intros H2. apply Hstep in H2 as (s1 & H1 & E1);
      [|intros s; unfold start_closing; by destruct (readyState s)].
    apply Hstep in H1 as (s & H0 & E0); [|done]. exists s. split; [done|congruence].
  - by apply Hstep.
Qed.

(** X11.  An attempt whose socket opens and then closes before any
    challenge has arrived is never decided.  The close handler clears
    the in-flight marker and emits 'disconnected' but does not call
    [reject]; the connection timer was cleared when the socket opened;
    no entry of the pending map belongs to the attempt.  Whatever the
    owner calls and whatever the host delivers afterwards, the promise
    that [connect()] returned stays undecided. *)
Theorem connect_never_decided st evs :
  reachable st ->
  connected st && ws_open st = false -> connecting st = None ->
  url_valid st = true ->
  let p := length (promises st) in
  let i := length (sockets st) in
  let st3 := run [DoConnect; SocketOpens i; SocketCloses i] st in
  fst (connect st) = Started p
  /\ connecting st3 = None
  /\ last (emitted st3) = Some (Emit (JStr "disconnected") [])
  /\ promise_state_of p (run ([DoConnect; SocketOpens i; SocketCloses i] ++ evs) st)
     = Some Pending.
Proof.
  intros R Hc Hing Hurl p i st3.
  pose proof (reachable_scoped _ R) as S.
  set (D := discard_socket (snd (new_promise st))).
  assert (HpD : promises D = (promises st ++ [{| p_state := Pending; p_retry := 0 |}])%list)
    by (unfold D; by rewrite discard_socket_promises).
  assert (HsD : length (sockets D) = i)
    by (unfold D; by rewrite discard_socket_sockets_length).
  assert (HtD : timers D = timers st) by (unfold D; by rewrite discard_socket_timers).
  assert (HeD : pendingRequests D = pendingRequests st)
    by (unfold D; by rewrite discard_socket_pendingRequests).
  pose proof (connect_fresh st Hc Hing) as Hconn. cbv zeta in Hconn.
  rewrite Hurl in Hconn. fold p D in Hconn. rewrite open_socket_eq, HsD in Hconn.
  set (sock := {| readyState := CONNECTING; onopen := true; onclose := true;
                  onerror := true; onmessage := true; s_promise := p;
                  s_timeout := length (timers D); s_sent := [] |}) in *.
  set (st1 := snd (connect st)).
  assert (Heq1 : st1 = set_connecting (Some p)
                   (set_ws (Some i)
                      (set_sockets (sockets D ++ [sock])
                         (set_timers
                            (timers D ++
                             [{| t_action := ConnectionTimeout p; t_delay := 10000;
                                 t_active := true |}]) D))))
    by (unfold st1; by rewrite Hconn).
  assert (Hs1 : sockets st1 !! i = Some sock).
  { rewrite Heq1. cbn. by rewrite lookup_app_r, HsD, Nat.sub_diag by lia. }
  set (st2 := step (SocketOpens i) st1).
  assert (Heq2 : st2 = ws_onopen (length (timers D))
                         (update_socket i (with_readyState OPEN) st1))
    by (by apply (step_SocketOpens _ _ _ Hs1)).
  assert (Hs2 : sockets st2 !! i = Some (with_readyState OPEN sock)).
  { rewrite Heq2. cbn. by rewrite list_lookup_alter_eq, Hs1. }
  assert (Heq3 : st3 = ws_onclose (length (timers D))
                         (update_socket i (with_readyState CLOSED) st2)).
  { unfold st3. cbn [run fold_left]. fold st1 st2.
    by apply (step_SocketCloses _ _ _ Hs2). }
  assert (Hrun : run [DoConnect; SocketOpens i; SocketCloses i] st = st3) by done.
  clearbody st3 st2 st1.
  assert (A : abandoned p (update_socket i (with_readyState CLOSED) st2)).
  { rewrite Heq2, Heq1. split.
    - unfold promise_state_of. cbn. rewrite HpD. unfold p.
      by rewrite lookup_app_r, Nat.sub_diag by lia.
    - intros k h. cbn. rewrite HeD. intros Hk%(sc_entries _ S). unfold p. lia.
    - intros t tm. cbn. rewrite list_lookup_alter, HtD.
      case_decide as Ht; [subst t|].
      + rewrite lookup_app_r, Nat.sub_diag by lia. cbn. by intros [= <-].
      + destruct (decide (t < length (timers st))).
        * rewrite lookup_app_l by done. intros Htm _ Hq.
          pose proof (sc_timers _ S _ _ _ Htm Hq). unfold p in *. lia.
        * rewrite lookup_ge_None_2; [done|]. rewrite length_app. cbn. lia.
    - intros j s. cbn.
      destruct (decide (j = i)) as [->|Hj];
        [rewrite !list_lookup_alter_eq|rewrite !list_lookup_alter_ne by done].
      + destruct ((sockets D ++ [sock])%list !! i); [|done]. cbn. by intros [= <-].
      + destruct (decide (j < length (sockets D))).
        * rewrite lookup_app_l by done.
          intros (s0 & Hs0 & E)%discard_socket_sockets_promise Hp.
          cbn in Hs0. pose proof (sc_sockets _ S _ _ Hs0). unfold p in *. lia.
        * rewrite lookup_ge_None_2; [done|]. rewrite length_app. cbn. lia. }
  split_and!.
  - by rewrite Hconn.
  - rewrite Heq3. unfold ws_onclose. case_match; [|done].
    by rewrite scheduleReconnect_connecting.
  - rewrite Heq3. unfold ws_onclose.
    case_match; rewrite ?scheduleReconnect_emitted; cbn; by rewrite last_snoc.
  - rewrite run_app, Hrun. apply abandoned_run. rewrite Heq3.
    by apply abandoned_ws_onclose.
Qed.

Lemma connect_never_decided_witness :
  promise_state_of 0
    (run ([DoConnect; SocketOpens 0; SocketCloses 0]
          ++ [TimerFires 0; DoConnect; SocketFails 0])
       (new_client true "secret"))
  = Some Pending.
Proof.
  assert (R : reachable (new_client true "secret"))
    by (by exists true, "secret", []).
  exact (proj2 (proj2 (proj2
    (connect_never_decided (new_client true "secret")
       [TimerFires 0; DoConnect; SocketFails 0] R eq_refl eq_refl eq_refl)))).
Defined.

(** ** One socket at a time (client.ts 42-51, 60, 341-345) *)

Lemma one_socket_new_client url_ok tok : one_socket (new_client url_ok tok).
Proof. by split. Qed.

Lemma one_socket_frame st st' :
  one_socket st -> ws st' = ws st -> sockets st' = sockets st -> one_socket st'.
Proof. intros [H1 H2] Hw Hs. split; rewrite Hw, Hs; auto. Qed.

Ltac same_sockets T :=
  apply (one_socket_frame _ _ T);
  rewrite ?settle_ws, ?settle_sockets, ?scheduleReconnect_ws,
    ?scheduleReconnect_sockets, ?iter_scheduleReconnect_ws,
    ?iter_scheduleReconnect_sockets; cbn; try done.

Lemma one_socket_update i f st :
  (forall s, sockets st !! i = Some s ->
     onopen (f s) = onopen s /\ onclose (f s) = onclose s
     /\ onerror (f s) = onerror s /\ onmessage (f s) = onmessage s
     /\ (readyState s = CLOSING \/ readyState s = CLOSED ->
         readyState (f s) = CLOSING \/ readyState (f s) = CLOSED)) ->
  one_socket st -> one_socket (update_socket i f st).
Proof.
  intros Hf [H1 H2]. split; cbn.
  - intros j Hj. destruct (H1 j Hj) as (s & Hs & Ho & Hc & He & Hm).
    rewrite list_lookup_alter. case_decide; [subst j|by eauto 10].
    rewrite Hs. cbn. exists (f s). destruct (Hf s Hs) as (-> & -> & -> & -> & _).
    done.
  - intros j s'. rewrite list_lookup_alter. case_decide; [subst j|apply H2].
    destruct (sockets st !! i) as [s|] eqn:Hs; [|done]. cbn. intros [= <-] Hne.
    destruct (H2 i s Hs Hne) as [Hr Hc].
    destruct (Hf s eq_refl) as (_ & -> & _ & _ & Hr'). auto.
Qed.

Lemma one_socket_socket_close i st : one_socket st -> one_socket (socket_close i st).
Proof.
  apply one_socket_update. intros s _. unfold start_closing.
  destruct (readyState s) eqn:E; cbn; rewrite ?E; auto 10.
Qed.

Lemma one_socket_ws_close st : one_socket st -> one_socket (ws_close st).
Proof.
  unfold ws_close. destruct (ws st); [|done]. apply one_socket_socket_close.
Qed.

Lemma one_socket_transmit i frame st :
  one_socket st -> one_socket (update_socket i (transmit frame) st).
Proof.
  apply one_socket_update. intros s _. unfold transmit.
  destruct (readyState s) eqn:E; cbn; rewrite ?E; auto 10.
Qed.

Lemma one_socket_scheduleReconnect st :
  one_socket st -> one_socket (scheduleReconnect st).
Proof. intros T. same_sockets T. Qed.

Lemma one_socket_settle p o st : one_socket st -> one_socket (settle p o st).
Proof. intros T. same_sockets T. Qed.

Lemma one_socket_await_connect p st : one_socket st -> one_socket (await_connect p st).
Proof.
  intros T. unfold await_connect. repeat case_match; try done.
  - same_sockets T.
  - by apply one_socket_scheduleReconnect.
Qed.

Lemma one_socket_run_resolve h v st : one_socket st -> one_socket (run_resolve h v st).
Proof.
  intros T. destruct h; unfold run_resolve; apply one_socket_settle; [done|].
  same_sockets T.
Qed.

Lemma one_socket_run_reject h e st : one_socket st -> one_socket (run_reject h e st).
Proof.
  intros T. destruct h; unfold run_reject; apply one_socket_settle; [done|].
  apply one_socket_ws_close. same_sockets T.
Qed.

Lemma one_socket_reject_new_Error h x st :
  one_socket st -> one_socket (reject_new_Error h x st).
Proof.
  intros T. unfold reject_new_Error. destruct (new_Error x); [|done].
  by apply one_socket_run_reject.
Qed.

Lemma one_socket_pending_delete k st : one_socket st -> one_socket (pending_delete k st).
Proof. intros T. same_sockets T. Qed.

Lemma one_socket_emit name args st : one_socket st -> one_socket (emit name args st).
Proof. intros T. same_sockets T. Qed.

Lemma one_socket_handleMessage data st :
  one_socket st -> one_socket (handleMessage data st).
Proof.
  intros T. unfold handleMessage.
  repeat case_match;
    auto using one_socket_run_resolve, one_socket_reject_new_Error,
      one_socket_pending_delete, one_socket_emit.
Qed.

Lemma one_socket_ws_onmessage p parsed u st :
  one_socket st -> one_socket (ws_onmessage p parsed u st).
Proof.
  intros T. unfold ws_onmessage.
  assert (T1 : one_socket (set_pendingRequests
                             (<[u := HandshakeHandlers p]> (pendingRequests st)) st))
    by same_sockets T.
  unfold socket_send.
  destruct parsed as [data|]; [|done].
  destruct data; try done; (case_match; [|by apply one_socket_handleMessage]);
    repeat case_match; simplify_eq; auto using one_socket_transmit.
Qed.

Lemma one_socket_ws_onclose t st : one_socket st -> one_socket (ws_onclose t st).
Proof.
  intros T. unfold ws_onclose. set (st2 := emit _ _ _).
  assert (T2 : one_socket st2) by same_sockets T.
  case_match; [by apply one_socket_scheduleReconnect|done].
Qed.

Lemma one_socket_ws_onerror p t st : one_socket st -> one_socket (ws_onerror p t st).
Proof.
  intros T. unfold ws_onerror. set (st2 := emit _ _ _).
  assert (T2 : one_socket st2) by same_sockets T.
  case_match; [|done]. apply one_socket_settle. same_sockets T2.
Qed.

(** Dropping the current socket, as [connect] and [disconnect] do:
    [onclose] is set to [null] and the socket is made to close, before
    [ws] is set to [null]. *)
Lemma one_socket_drop st st' i :
  one_socket st -> ws st = Some i -> ws st' = None ->
  (forall j, j <> i -> sockets st' !! j = sockets st !! j) ->
  (forall s', sockets st' !! i = Some s' ->
     (readyState s' = CLOSING \/ readyState s' = CLOSED) /\ onclose s' = false) ->
  one_socket st'.
Proof.
  intros [H1 H2] Hws Hws' Hother Hi. split.
  - by rewrite Hws'.
  - intros j s' Hs _. destruct (decide (j = i)) as [->|Hj]; [by apply Hi|].
    rewrite Hother in Hs by done. apply (H2 j s' Hs). congruence.
Qed.

Lemma one_socket_discard_socket st :
  one_socket st -> one_socket (discard_socket st).
Proof.
  intros T. unfold discard_socket. destruct (ws st) as [i|] eqn:Hws; [|done].
  apply (one_socket_drop st _ i T Hws).
  - done.
  - intros j Hj. case_match; cbn; by rewrite ?list_lookup_alter_ne by done.
  - intros s'. destruct (sockets st !! i) as [s|] eqn:Hs.
    + assert (Hl : sockets (update_socket i without_callbacks st) !! i
                   = Some (without_callbacks s))
        by (cbn; by rewrite list_lookup_alter_eq, Hs).
      unfold socket_is. rewrite Hl. cbn [readyState without_callbacks].
      destruct (readyState s) eqn:Hr; cbn [ready_state_eqb orb];
        cbn [sockets set_ws socket_close update_socket set_sockets];
        rewrite ?list_lookup_alter_eq, Hs; cbn; intros [= <-];
        unfold start_closing; cbn; rewrite ?Hr; auto.
    + case_match; cbn; by rewrite ?list_lookup_alter_eq, Hs.
Qed.

Lemma one_socket_open_socket p st :
  ws st = None -> one_socket st -> one_socket (open_socket p st).
Proof.
  intros Hws [H1 H2]. rewrite open_socket_eq. split; cbn.
  - intros i [= <-]. rewrite lookup_app_r, Nat.sub_diag by lia. cbn. by eexists.
  - intros i s Hs Hne.
    destruct (decide (i < length (sockets st))).
    + rewrite lookup_app_l in Hs by done. apply (H2 i s Hs). by rewrite Hws.
    + apply lookup_lt_Some in Hs as Hlt. rewrite length_app in Hlt. cbn in Hlt.
      destruct Hne. f_equal. lia.
Qed.

Lemma one_socket_connect st : one_socket st -> one_socket (snd (connect st)).
Proof.
  intros T. unfold connect. destruct (_ && _); [done|].
  destruct (connecting st); [done|].
  unfold new_promise. cbv beta iota zeta. cbn [snd].
  set (st1 := set_promises _ st).
  assert (T1 : one_socket st1) by same_sockets T.
  pose proof (one_socket_discard_socket _ T1) as T2.
  pose proof (discard_socket_ws st1) as Hws.
  assert (T3 : one_socket
            (if url_valid (discard_socket st1)
             then open_socket (length (promises st)) (discard_socket st1)
             else settle (length (promises st)) (Rejected UrlError)
                    (set_connecting None (discard_socket st1)))).
  { case_match; [by apply one_socket_open_socket|].
    apply one_socket_settle. same_sockets T2. }
  same_sockets T3.
Qed.

Lemma one_socket_call m ps u st : one_socket st -> one_socket (snd (call m ps u st)).
Proof.
  intros T. unfold call. destruct (ws st) as [i|]; [|done].
  destruct (_ && _); [|done].
  unfold new_promise, setTimeout. cbv beta iota zeta. cbn [snd].
  set (st3 := set_timers _ _).
  assert (T3 : one_socket st3) by same_sockets T.
  unfold socket_send. destruct (socket_is CONNECTING i st3).
  - by apply one_socket_settle.
  - by apply one_socket_transmit.
Qed.

Lemma one_socket_reconnect_attempt st :
  one_socket st -> one_socket (reconnect_attempt st).
Proof.
  intros T. unfold reconnect_attempt.
  assert (T1 : one_socket (set_reconnectTimer None st)) by same_sockets T.
  case_match; [done|].
  pose proof (one_socket_connect _ T1) as T2.
  destruct (connect _) as [[|p'|p'] st2]; cbn [snd] in *;
    [done|by apply one_socket_await_connect..].
Qed.

Lemma one_socket_run_timer cb st : one_socket st -> one_socket (run_timer cb st).
Proof.
  intros T. destruct cb as [p'|id m p'|]; cbn [run_timer].
  - unfold connection_timeout. case_match; [|done].
    by apply one_socket_settle, one_socket_ws_close.
  - unfold request_timeout. case_match; [|done].
    by apply one_socket_settle, one_socket_pending_delete.
  - by apply one_socket_reconnect_attempt.
Qed.

Lemma one_socket_disconnect st : one_socket st -> one_socket (disconnect st).
Proof.
  intros T. unfold disconnect.
  set (st1 := match reconnectTimer (set_autoReconnect false st) with
              | Some _ => _ | None => _ end).
  assert (T1 : one_socket st1).
  { unfold st1. destruct (reconnectTimer _); same_sockets T. }
  assert (T2 : one_socket (match ws st1 with
                           | Some i => set_ws None (socket_close i
                                         (update_socket i without_onclose st1))
                           | None => st1
                           end)).
  { destruct (ws st1) as [i|] eqn:Hws; [|done].
    apply (one_socket_drop st1 _ i T1 Hws); [done|..].
    - intros j Hj. cbn. by rewrite !list_lookup_alter_ne by done.
    - intros s'. cbn. rewrite !list_lookup_alter_eq.
      destruct (sockets st1 !! i) as [s|]; [|done]. cbn. intros [= <-].
      unfold start_closing. cbn.
      destruct (readyState s) eqn:Hr; cbn; rewrite ?Hr; auto. }
  same_sockets T2.
Qed.

Lemma one_socket_setAutoReconnect b st :
  one_socket st -> one_socket (setAutoReconnect b st).
Proof.
  intros T. unfold setAutoReconnect. repeat case_match; same_sockets T.
Qed.

Lemma one_socket_step e st : one_socket st -> one_socket (step e st).
Proof.
  intros T.
  destruct e as [| m ps u | | b | i | i | i | i | i d u | t]; cbn [step].
  - by apply one_socket_connect.
  - by apply one_socket_call.
  - by apply one_socket_disconnect.
  - by apply one_socket_setAutoReconnect.
  - destruct (sockets st !! i) as [s|] eqn:Hs; [|done].
    destruct (readyState s) eqn:Hr; try done.
    assert (T1 : one_socket (update_socket i (with_readyState OPEN) st)).
    { apply one_socket_update; [|done]. intros s' Hs'.
      assert (s' = s) as -> by congruence. rewrite Hr.
      split_and!; try done. by intros [|]. }
    case_match; [|done]. unfold ws_onopen. same_sockets T1.
  - case_match; [|done]. apply one_socket_update; [|done]. intros s _. cbn. auto 10.
  - destruct (sockets st !! i) as [s|] eqn:Hs; [|done].
    assert (T1 : one_socket (update_socket i (with_readyState CLOSED) st)).
    { apply one_socket_update; [|done]. intros s' _. cbn. auto 10. }
    repeat case_match; try done; by apply one_socket_ws_onclose.
  - repeat case_match; try done; by apply one_socket_ws_onerror.
  - repeat case_match; try done; by apply one_socket_ws_onmessage.
  - repeat case_match; try done. apply one_socket_run_timer. same_sockets T.
Qed.

Lemma reachable_one_socket st : reachable st -> one_socket st.
Proof.
  intros (url_ok & tok & evs & ->). generalize (one_socket_new_client url_ok tok).
  generalize (new_client url_ok tok). induction evs as [|e evs IH]; intros st T; [done|].
  cbn. by apply IH, one_socket_step.
Qed.

(** X12.  The client holds at most one live socket.  In every state it
    can reach, the socket in [ws] still has the four callbacks that
    [connect] installed, and every other socket it ever made is closing
    or closed and has no close callback.  So a socket the client has
    let go of can no longer open or deliver a frame, and when it
    finally closes no handler runs: the flags, the in-flight marker, the
    timers and the emissions are those of the current socket alone. *)
Theorem one_live_socket st :
  reachable st ->
  (forall i, ws st = Some i ->
     exists s, sockets st !! i = Some s
               /\ onopen s = true /\ onclose s = true
               /\ onerror s = true /\ onmessage s = true)
  /\ (forall i s, sockets st !! i = Some s -> ws st <> Some i ->
        (readyState s = CLOSING \/ readyState s = CLOSED) /\ onclose s = false)
  /\ (forall i parsed u, ws st <> Some i ->
        step (SocketOpens i) st = st
        /\ step (SocketReceives i parsed u) st = st
        /\ step (SocketCloses i) st
           = match sockets st !! i with
             | Some _ => update_socket i (with_readyState CLOSED) st
             | None => st
             end).
Proof.
  intros R. destruct (reachable_one_socket _ R) as [H1 H2].
  split; [done|]. split; [done|].
  intros i parsed u Hne. cbn [step].
  destruct (sockets st !! i) as [s|] eqn:Hs; [|done].
  destruct (H2 i s Hs Hne) as [[Hr|Hr] Hc]; rewrite Hr, ?Hc; split_and!; try done.
  destruct st. unfold update_socket, set_sockets. cbn in *. f_equal.
  apply list_eq. intros j. rewrite list_lookup_alter. case_decide; [subst j|done].
  rewrite Hs. cbn. f_equal. destruct s. cbn in *. by subst.
Qed.

Lemma one_live_socket_witness :
  step (SocketReceives 0 (Some challenge_frame) "hs-2") reconnecting = reconnecting.
Proof.
  assert (R : reachable reconnecting)
    by (by exists true, "secret", reconnecting_trace).
  assert (Hne : ws reconnecting <> Some 0) by (vm_compute; discriminate).
  destruct (one_live_socket reconnecting R) as (_ & _ & H).
  exact (proj1 (proj2 (H 0 (Some challenge_frame) "hs-2" Hne))).
Defined.

(** ** Callbacks that outlive disconnect (client.ts 62-67, 91-99, 335-349) *)

Lemma discard_socket_idle st : ws st = None -> discard_socket st = st.
Proof. intros H. unfold discard_socket. by rewrite H. Qed.

Lemma disconnect_session st :
  ws (disconnect st) = None /\ connected (disconnect st) = false
  /\ authenticated (disconnect st) = false /\ connecting (disconnect st) = None.
Proof. unfold disconnect. cbn. by repeat case_match. Qed.

Lemma disconnect_kept st :
  promises (disconnect st) = promises st
  /\ url_valid (disconnect st) = url_valid st
  /\ emitted (disconnect st) = emitted st
  /\ length (sockets (disconnect st)) = length (sockets st)
  /\ length (timers (disconnect st)) = length (timers st).
Proof.
  unfold disconnect. cbn.
  repeat case_match; cbn; by rewrite ?length_alter.
Qed.

(** [disconnect] clears the reconnect timer and no other. *)
Lemma disconnect_timers st :
  timers (disconnect st)
  = match reconnectTimer st with
    | Some t' => alter disarm t' (timers st)
    | None => timers st
    end.
Proof.
  unfold disconnect. cbn. destruct (reconnectTimer st); cbn; by destruct (ws st).
Qed.

Lemma disconnect_timers_lookup st t :
  reconnectTimer st <> Some t -> timers (disconnect st) !! t = timers st !! t.
Proof.
  intros Hne. rewrite disconnect_timers.
  destruct (reconnectTimer st) as [t'|]; [|done].
  apply list_lookup_alter_ne. congruence.
Qed.

(** What [disconnect] does to the socket it lets go of. *)
Lemma disconnect_socket st i s :
  ws st = Some i -> sockets st !! i = Some s ->
  sockets (disconnect st) !! i = Some (start_closing (without_onclose s)).
Proof.
  intros Hws Hs. unfold disconnect. cbn.
  destruct (reconnectTimer st); cbn; rewrite Hws; cbn;
    by rewrite !list_lookup_alter_eq, Hs.
Qed.

(** [connect()] on a client that has just been disconnected. *)
Lemma connect_after_disconnect st :
  url_valid st = true ->
  let p := length (promises st) in
  let i := length (sockets st) in
  let st0 := disconnect st in
  connect st0
  = (Started p,
     set_connecting (Some p)
       (set_ws (Some i)
          (set_sockets
             (sockets st0 ++
              [{| readyState := CONNECTING; onopen := true; onclose := true;
                  onerror := true; onmessage := true;
                  s_promise := p; s_timeout := length (timers st); s_sent := [] |}])
             (set_timers
                (timers st0 ++
                 [{| t_action := ConnectionTimeout p; t_delay := 10000;
                     t_active := true |}])
                (set_promises
                   (promises st ++ [{| p_state := Pending; p_retry := 0 |}]) st0))))).
Proof.
  intros Hurl p i st0.
  destruct (disconnect_session st) as (Hws & Hc & _ & Hing).
  destruct (disconnect_kept st) as (Hp & Hu & _ & Hs & Ht).
  fold st0 in Hws, Hc, Hing, Hp, Hu, Hs, Ht.
  pose proof (connect_fresh st0) as H. cbv zeta in H.
  rewrite H; [|by rewrite Hc|done].
  rewrite Hu, Hurl, Hp. fold p.
  rewrite discard_socket_idle by (unfold new_promise; by cbn).
  rewrite open_socket_eq. unfold new_promise. cbn [snd sockets timers set_promises].
  by rewrite Hs, Ht, Hp.
Qed.

Lemma run_nil st : run [] st = st.
Proof. done. Qed.

Lemma run_cons e evs st : run (e :: evs) st = run evs (step e st).
Proof. done. Qed.

Lemma step_DoConnect st : step DoConnect st = snd (connect st).
Proof. done. Qed.

Lemma step_DoDisconnect st : step DoDisconnect st = disconnect st.
Proof. done. Qed.

(** The connection timer, run while the client is not connected and its
    current socket is open: it closes that socket, whichever attempt the
    timer belongs to. *)
Lemma connection_timer_closes_current st t tm p0 i s :
  timers st !! t = Some tm -> t_active tm = true ->
  t_action tm = ConnectionTimeout p0 ->
  connected st = false -> ws st = Some i ->
  sockets st !! i = Some s -> readyState s = OPEN ->
  ws (step (TimerFires t) st) = Some i
  /\ socket_is CLOSING i (step (TimerFires t) st) = true
  /\ connecting (step (TimerFires t) st) = connecting st
  /\ (forall q, q <> p0 ->
        promise_state_of q (step (TimerFires t) st) = promise_state_of q st)
  /\ (promise_state_of p0 st = Some Pending ->
      promise_state_of p0 (step (TimerFires t) st)
      = Some (Rejected (Error "Connection timeout"))).
Proof.
  intros Htm Hact Hkind Hc Hws Hs Hr.
  rewrite (step_TimerFires _ _ _ Htm Hact), Hkind. cbn [run_timer].
  unfold connection_timeout. cbn [connected clearTimeout set_timers].
  rewrite Hc. cbn [negb]. split_and!.
  - by rewrite settle_ws, ws_close_ws.
  - unfold socket_is. rewrite settle_sockets. unfold ws_close.
    change (ws (clearTimeout t st)) with (ws st). rewrite Hws. cbn.
    rewrite list_lookup_alter_eq, Hs. cbn. unfold start_closing. by rewrite Hr.
  - by rewrite settle_connecting, ws_close_connecting.
  - intros q Hq. rewrite promise_state_of_settle_ne by done.
    by rewrite ws_close_promise_state.
  - intros Hpend. apply settle_pending. by rewrite ws_close_promise_state.
Qed.

(** X13.  [disconnect()] does not cancel the connection timer of the
    attempt it interrupts, and the timer's callback closes whatever
    socket is current when it runs.  Take a client with such a timer
    armed, disconnect it, connect again and let the new socket open:
    when the old timer fires, the new socket is closed from the client's
    side in the middle of its handshake, while the promise of the new
    attempt stays undecided and the old one is rejected with "Connection
    timeout". *)
Theorem stale_connection_timer st t tm p0 :
  reachable st ->
  timers st !! t = Some tm -> t_active tm = true ->
  t_action tm = ConnectionTimeout p0 ->
  url_valid st = true ->
  let p := length (promises st) in
  let i := length (sockets st) in
  let st1 := run [DoDisconnect; DoConnect; SocketOpens i] st in
  let st2 := step (TimerFires t) st1 in
  ws st1 = Some i /\ socket_is OPEN i st1 = true
  /\ connecting st1 = Some p /\ promise_state_of p st1 = Some Pending
  /\ ws st2 = Some i /\ socket_is CLOSING i st2 = true
  /\ connecting st2 = Some p /\ promise_state_of p st2 = Some Pending
  /\ (promise_state_of p0 st = Some Pending ->
      promise_state_of p0 st2 = Some (Rejected (Error "Connection timeout"))).
Proof.
  intros R Htm Hact Hkind Hurl p i st1 st2.
  pose proof (reachable_consistent _ R) as C.
  pose proof (reachable_scoped _ R) as S.
  assert (Hp0 : p0 < p) by (apply (sc_timers _ S t tm p0 Htm); by rewrite Hkind).
  assert (Hrt : reconnectTimer st <> Some t).
  { intros Hr%(armed_is_field _ C). unfold armed_at in Hr. rewrite Htm in Hr.
    unfold is_reconnect in Hr. by rewrite Hkind in Hr. }
  pose proof (disconnect_timers_lookup st t Hrt) as Htd.
  destruct (disconnect_session st) as (Hws & Hc & _ & Hing).
  destruct (disconnect_kept st) as (Hp & Hu & _ & Hs & Ht).
  pose proof (connect_after_disconnect st Hurl) as Hconn. cbv zeta in Hconn.
  fold p i in Hconn.
  assert (Hst1 : st1 = step (SocketOpens i) (snd (connect (disconnect st)))).
  { unfold st1. by rewrite !run_cons, run_nil, step_DoDisconnect, step_DoConnect. }
  clearbody st1.
  set (st0 := disconnect st) in *. clearbody st0.
  set (sock := {| readyState := CONNECTING; onopen := true; onclose := true;
                  onerror := true; onmessage := true; s_promise := p;
                  s_timeout := length (timers st); s_sent := [] |}) in *.
  set (stc := snd (connect st0)) in *.
  assert (Hsc : sockets stc !! i = Some sock).
  { unfold stc. rewrite Hconn. cbn. by rewrite lookup_app_r, Hs, Nat.sub_diag by (unfold i, p in *; lia). }
  assert (Heq1 : st1 = ws_onopen (length (timers st))
                         (update_socket i (with_readyState OPEN) stc)).
  { by rewrite Hst1, (step_SocketOpens _ _ _ Hsc). }
  assert (Hlt : t < length (timers st)) by (by eapply lookup_lt_Some).
  assert (Htm1 : timers st1 !! t = Some tm).
  { rewrite Heq1. unfold stc. rewrite Hconn. cbn.
    rewrite list_lookup_alter_ne by (unfold i, p in *; lia).
    rewrite lookup_app_l by (unfold i, p in *; lia). by rewrite Htd. }
  assert (Hs1 : sockets st1 !! i = Some (with_readyState OPEN sock)).
  { rewrite Heq1. cbn. by rewrite list_lookup_alter_eq, Hsc. }
  assert (Hws1 : ws st1 = Some i) by (rewrite Heq1; unfold stc; by rewrite Hconn).
  assert (Hc1 : connected st1 = false) by (rewrite Heq1; unfold stc; by rewrite Hconn).
  assert (Hing1 : connecting st1 = Some p)
    by (rewrite Heq1; unfold stc; by rewrite Hconn).
  assert (Hpr1 : forall q, q <= p ->
            promise_state_of q st1
            = if decide (q = p) then Some Pending else promise_state_of q st).
  { intros q Hq. rewrite Heq1. unfold stc. rewrite Hconn. unfold promise_state_of.
    cbn. case_decide; [subst q|].
    - unfold p. by rewrite lookup_app_r, Nat.sub_diag by (unfold i, p in *; lia).
    - by rewrite lookup_app_l by (unfold i, p in *; lia). }
  destruct (connection_timer_closes_current st1 t tm p0 i _
              Htm1 Hact Hkind Hc1 Hws1 Hs1 eq_refl)
    as (Hws2 & Hcl2 & Hing2 & Hother & Hown).
  fold st2 in Hws2, Hcl2, Hing2, Hother, Hown.
  clearbody st2 stc.
  split_and!; try done.
  - unfold socket_is. by rewrite Hs1.
  - rewrite Hpr1 by done. by rewrite decide_True.
  - by rewrite Hing2.
  - rewrite Hother by (unfold i, p in *; lia). rewrite Hpr1 by done.
    by rewrite decide_True.
  - intros Hpend. apply Hown. rewrite Hpr1 by (unfold i, p in *; lia).
    by rewrite decide_False by (unfold i, p in *; lia).
Qed.

Lemma stale_connection_timer_witness :
  socket_is CLOSING 1
    (step (TimerFires 0)
       (run [DoDisconnect; DoConnect; SocketOpens 1]
          (step DoConnect (new_client true "secret")))) = true.
Proof.
  pose (st0 := step DoConnect (new_client true "secret")).
  assert (R : reachable st0) by (by exists true, "secret", [DoConnect]).
  assert (Ht : timers st0 !! 0
               = Some {| t_action := ConnectionTimeout 0; t_delay := 10000;
                         t_active := true |}) by (vm_compute; reflexivity).
  assert (Hu : url_valid st0 = true) by (vm_compute; reflexivity).
  assert (Hl : length (sockets st0) = 1) by (vm_compute; reflexivity).
  destruct (stale_connection_timer st0 0 _ 0 R Ht eq_refl eq_refl Hu)
    as (_ & _ & _ & _ & _ & H & _).
  rewrite Hl in H. exact H.
Defined.

(** The error callback of any socket, run on a client that is not
    connected. *)
Lemma error_while_not_connected st i s :
  sockets st !! i = Some s -> readyState s <> CLOSED -> onerror s = true ->
  connected st = false ->
  connecting (step (SocketFails i) st) = None
  /\ connected (step (SocketFails i) st) = false
  /\ ws (step (SocketFails i) st) = ws st
  /\ sockets (step (SocketFails i) st) = sockets st
  /\ url_valid (step (SocketFails i) st) = url_valid st
  /\ emitted (step (SocketFails i) st)
     = (emitted st ++ [Emit (JStr "error") [None]])%list
  /\ promises (step (SocketFails i) st)
     = alter (fulfil (Rejected (Error "Failed to connect to OpenClaw Gateway")))
         (s_promise s) (promises st).
Proof.
  intros Hs Hr Herr Hc. rewrite (step_SocketFails _ _ _ Hs Hr Herr).
  unfold ws_onerror. cbn [connected emit set_emitted clearTimeout set_timers].
  rewrite Hc. cbn [negb].
  rewrite settle_connecting, settle_connected, settle_ws, settle_sockets,
    settle_url_valid, settle_emitted, settle_promises.
  done.
Qed.

(** [connect()] past its early returns, on a client whose current socket
    is still connecting: the socket is closed. *)
Lemma connect_discards_connecting st j sj :
  connected st = false -> connecting st = None ->
  ws st = Some j -> sockets st !! j = Some sj -> readyState sj = CONNECTING ->
  url_valid st = true ->
  fst (connect st) = Started (length (promises st))
  /\ socket_is CLOSING j (snd (connect st)) = true.
Proof.
  intros Hc Hing Hws Hs Hr Hurl.
  pose proof (connect_fresh st) as H. cbv zeta in H.
  rewrite H; [|by rewrite Hc|done]. rewrite Hurl. cbn [fst snd]. split; [done|].
  unfold socket_is. rewrite open_socket_eq.
  cbn [sockets set_connecting set_ws set_sockets set_timers].
  rewrite lookup_app_l.
  2:{ rewrite discard_socket_sockets_length. cbn. by eapply lookup_lt_Some. }
  unfold discard_socket. cbn [ws new_promise snd set_promises]. rewrite Hws.
  unfold socket_is. cbn [sockets update_socket set_sockets set_promises set_ws].
  rewrite list_lookup_alter_eq, Hs. cbn. rewrite Hr. cbn.
  rewrite !list_lookup_alter_eq, Hs. cbn. unfold start_closing. cbn.
  by rewrite Hr.
Qed.

(** X14.  [disconnect()] removes the close callback of the socket it
    lets go of, but not its error callback.  When that socket reports an
    error after the owner has called [connect()] again, the old callback
    clears the in-flight marker of the new attempt: the new socket is
    still connecting and its promise undecided, yet the next
    [connect()] does not join that attempt; it starts another one and
    closes the socket that was connecting. *)
Theorem stale_error_callback st i s :
  reachable st ->
  ws st = Some i -> sockets st !! i = Some s -> readyState s <> CLOSED ->
  onerror s = true -> url_valid st = true ->
  let p := length (promises st) in
  let j := length (sockets st) in
  let st1 := run [DoDisconnect; DoConnect] st in
  let st2 := step (SocketFails i) st1 in
  connecting st1 = Some p /\ ws st1 = Some j
  /\ connecting st2 = None
  /\ ws st2 = Some j /\ socket_is CONNECTING j st2 = true
  /\ promise_state_of p st2 = Some Pending
  /\ emitted st2 = (emitted st ++ [Emit (JStr "error") [None]])%list
  /\ fst (connect st2) = Started (S p)
  /\ socket_is CLOSING j (snd (connect st2)) = true.
Proof.
  intros R Hws Hs Hr Herr Hurl p j st1 st2.
  pose proof (reachable_scoped _ R) as Sc.
  assert (Hsp : s_promise s < p) by apply (sc_sockets _ Sc i s Hs).
  assert (Hij : i < j) by (by eapply lookup_lt_Some).
  destruct (disconnect_session st) as (Hwsd & Hc & _ & Hing).
  destruct (disconnect_kept st) as (Hp & Hu & He & Hsl & Ht).
  pose proof (disconnect_socket st i s Hws Hs) as Hsd.
  pose proof (connect_after_disconnect st Hurl) as Hconn. cbv zeta in Hconn.
  fold p j in Hconn.
  assert (Heq1 : st1 = snd (connect (disconnect st))).
  { unfold st1. by rewrite !run_cons, run_nil, step_DoDisconnect, step_DoConnect. }
  clearbody st1.
  set (st0 := disconnect st) in *. clearbody st0.
  set (sock := {| readyState := CONNECTING; onopen := true; onclose := true;
                  onerror := true; onmessage := true; s_promise := p;
                  s_timeout := length (timers st); s_sent := [] |}) in *.
  rewrite Hconn in Heq1. cbn [snd] in Heq1.
  assert (Hs1 : sockets st1 !! i = Some (start_closing (without_onclose s))).
  { rewrite Heq1. cbn. by rewrite lookup_app_l by (unfold j, p in *; lia). }
  assert (Hj1 : sockets st1 !! j = Some sock).
  { rewrite Heq1. cbn.
    by rewrite lookup_app_r, Hsl, Nat.sub_diag by (unfold j, p in *; lia). }
  assert (Hc1 : connected st1 = false) by (by rewrite Heq1).
  assert (Hws1 : ws st1 = Some j) by (by rewrite Heq1).
  assert (Hing1 : connecting st1 = Some p) by (by rewrite Heq1).
  assert (Hu1 : url_valid st1 = true) by (rewrite Heq1; cbn; by rewrite Hu).
  assert (He1 : emitted st1 = emitted st) by (rewrite Heq1; cbn; by rewrite He).
  assert (Hp1 : promises st1
                = (promises st ++ [{| p_state := Pending; p_retry := 0 |}])%list)
    by (by rewrite Heq1).
  assert (Hr1 : readyState (start_closing (without_onclose s)) <> CLOSED).
  { unfold start_closing. cbn. destruct (readyState s) eqn:E; cbn; by rewrite ?E. }
  assert (Herr1 : onerror (start_closing (without_onclose s)) = true).
  { unfold start_closing. cbn. by destruct (readyState s). }
  destruct (error_while_not_connected st1 i _ Hs1 Hr1 Herr1 Hc1)
    as (Hing2 & Hc2 & Hws2 & Hs2 & Hu2 & He2 & Hp2).
  assert (Hsp1 : s_promise (start_closing (without_onclose s)) = s_promise s).
  { unfold start_closing. cbn. by destruct (readyState s). }
  rewrite Hsp1 in Hp2.
  fold st2 in Hing2, Hc2, Hws2, Hs2, Hu2, He2, Hp2. clearbody st2.
  assert (Hj2 : sockets st2 !! j = Some sock) by (by rewrite Hs2).
  assert (Hlen2 : length (promises st2) = S p).
  { rewrite Hp2, length_alter, Hp1, length_app. cbn. unfold p. lia. }
  destruct (connect_discards_connecting st2 j sock) as [Hthird Hclosed];
    try done; [congruence..|].
  rewrite Hlen2 in Hthird.
  split_and!; try done.
  - congruence.
  - unfold socket_is. by rewrite Hj2.
  - unfold promise_state_of. rewrite Hp2, list_lookup_alter_ne, Hp1 by lia.
    unfold p. by rewrite lookup_app_r, Nat.sub_diag by lia.
  - by rewrite He2, He1.
Qed.

Lemma stale_error_callback_witness :
  fst (connect
         (step (SocketFails 0)
            (run [DoDisconnect; DoConnect]
               (step DoConnect (new_client true "secret")))))
  = Started 2.
Proof.
  pose (st0 := step DoConnect (new_client true "secret")).
  assert (R : reachable st0) by (by exists true, "secret", [DoConnect]).
  assert (Hws : ws st0 = Some 0) by (vm_compute; reflexivity).
  assert (Hs : sockets st0 !! 0
               = Some {| readyState := CONNECTING; onopen := true; onclose := true;
                         onerror := true; onmessage := true; s_promise := 0;
                         s_timeout := 0; s_sent := [] |}) by (vm_compute; reflexivity).
  assert (Hu : url_valid st0 = true) by (vm_compute; reflexivity).
  assert (Hl : length (promises st0) = 1) by (vm_compute; reflexivity).
  destruct (stale_error_callback st0 0 _ R Hws Hs ltac:(discriminate) eq_refl Hu)
    as (_ & _ & _ & _ & _ & _ & _ & H & _).
  rewrite Hl in H. exact H.
Defined.

(** * The agent wrappers *)

(** A [catch] that throws what it caught changes nothing. *)
Lemma answer_rethrow {A} (s : script A) replies :
  answer (try_catch s (fun err => Throw err)) replies = answer s replies.
Proof.
  revert replies. induction s as [a|e|m ps k1 IH1 k2 IH2]; intros replies; try done.
  cbn. destruct replies as [|[v|e] rest]; [done|..]; by rewrite ?IH1, ?IH2.
Qed.

(** ** listAgents (client.ts 272-280) *)

Lemma answer_listAgents_then {B} (f : json -> script B) h r rest :
  answer (try_catch (listAgents ≫= f) h) (r :: rest)
  = match r with
    | Rejects e =>
        let '(requests, out) := answer (h (Rejection e)) rest in
        (("agents.list", None) :: requests, out)
    | Resolves None | Resolves (Some JNull) =>
        let '(requests, out) := answer (h TypeError) rest in
        (("agents.list", None) :: requests, out)
    | Resolves (Some d) =>
        let '(requests, out) :=
          answer (try_catch
                    (f match prop "agents" d with
                       | Some v => if truthy (Some v) then v else JArr []
                       | None => JArr []
                       end) h) rest in
        (("agents.list", None) :: requests, out)
    end.
Proof. destruct r as [[[]|]|e]; reflexivity. Qed.

(** X15.  [listAgents()] makes one request, "agents.list" without
    params.  It fails exactly when the call is rejected (with the same
    reason) or resolved with [undefined] or [null] (with the TypeError
    of reading [agents] from it).  Resolved with any other payload it
    yields exactly the [agents] member of the payload when that member
    is truthy, and an empty array when the member is missing or falsy:
    the value it yields is never falsy, though nothing makes it an
    array. *)
Theorem listAgents_outcome r rest :
  fst (answer listAgents (r :: rest)) = [("agents.list", None)]
  /\ (forall e, snd (answer listAgents (r :: rest)) = Failed e <->
        (exists e', r = Rejects e' /\ e = Rejection e')
        \/ ((r = Resolves None \/ r = Resolves (Some JNull)) /\ e = TypeError))
  /\ (forall d v, r = Resolves (Some d) -> d <> JNull ->
        prop "agents" d = Some v -> truthy (Some v) = true ->
        snd (answer listAgents (r :: rest)) = Fulfilled v)
  /\ (forall d, r = Resolves (Some d) -> d <> JNull ->
        truthy (prop "agents" d) = false ->
        snd (answer listAgents (r :: rest)) = Fulfilled (JArr []))
  /\ (forall v, snd (answer listAgents (r :: rest)) = Fulfilled v ->
        truthy (Some v) = true
        /\ exists d, r = Resolves (Some d) /\ d <> JNull
                     /\ (prop "agents" d = Some v
                         \/ truthy (prop "agents" d) = false /\ v = JArr []))
  /\ snd (answer listAgents (r :: rest)) <> Waiting.
Proof.
  unfold listAgents. rewrite answer_rethrow.
  destruct r as [[d|]|e0].
  - assert (Hd : d = JNull \/
              d <> JNull /\
              answer (await_call "agents.list" None ≫= fun result =>
                      read "agents" result ≫= fun agents =>
                      Return match agents with
                             | Some v => if truthy (Some v) then v else JArr []
                             | None => JArr []
                             end) (Resolves (Some d) :: rest)
              = ([("agents.list", None)],
                 Fulfilled match prop "agents" d with
                           | Some v => if truthy (Some v) then v else JArr []
                           | None => JArr []
                           end)) by (destruct d; auto).
    destruct Hd as [-> | [Hd ->]]; cbn [fst snd].
    + cbn. split_and!; try done.
      * intros e. split; [intros [= <-]; auto|].
        by intros [(e' & ? & ->)|[_ ->]].
      * by intros d v [= <-].
      * by intros d [= <-].
    + split_and!; try done.
      * intros e. split; [done|].
        intros [(e' & ? & ->)|[[?|?] ->]]; congruence.
      * intros d' v [= <-] _ Hv Ht. by rewrite Hv, Ht.
      * intros d' [= <-] _ Ht. destruct (prop "agents" d) as [w|]; [|done].
        by rewrite Ht.
      * intros v Hv. destruct (prop "agents" d) as [w|] eqn:Ha.
        -- destruct (truthy (Some w)) eqn:Ht; injection Hv as <-.
           ++ split; [done|]. exists d. auto.
           ++ split; [done|]. exists d. split_and!; try done.
              right. by rewrite Ha.
        -- injection Hv as <-. split; [done|]. exists d. split_and!; try done.
           right. by rewrite Ha.
  - cbn. split_and!; try done.
    intros e. split; [intros [= <-]; auto|].
    by intros [(e' & ? & ->)|[_ ->]].
  - cbn. split_and!; try done.
    intros e. split; [intros [= <-]; eauto|].
    intros [(e' & [= ->] & ->)|[[?|?] ->]]; congruence.
Qed.

Lemma listAgents_outcome_witness :
  snd (answer listAgents
         [Resolves (Some (JObj [("agents", JArr [JObj [("name", JStr "main")]])]))])
  = Fulfilled (JArr [JObj [("name", JStr "main")]]).
Proof.
  destruct (listAgents_outcome
              (Resolves (Some (JObj [("agents", JArr [JObj [("name", JStr "main")]])])))
              []) as (_ & _ & H & _).
  apply (H (JObj [("agents", JArr [JObj [("name", JStr "main")]])])
           (JArr [JObj [("name", JStr "main")]]));
    [reflexivity|discriminate|reflexivity|reflexivity].
Defined.

(** ** agentExists (client.ts 325-332) *)

Section AgentExistsProperties.
Variable toLowerCase : string -> string.

#[local] Abbreviation matches agentName a :=
  (exists n, prop "name" a = Some (JStr n)
             /\ toLowerCase n = toLowerCase agentName).

Lemma name_matches_cases agentName a :
  (exists n, prop "name" a = Some (JStr n)
             /\ name_matches toLowerCase agentName a
                = Return (String.eqb (toLowerCase n) (toLowerCase agentName)))
  \/ ((forall n, prop "name" a <> Some (JStr n))
      /\ name_matches toLowerCase agentName a = Throw TypeError).
Proof.
  unfold name_matches. destruct (prop "name" a) as [[]|]; eauto; by right.
Qed.

(** [some] with the callback of line 328, inside the [try]: it finds the
    first element whose name matches, unless an element before it has
    no string for a name. *)
Lemma answer_some_names agentName items rest :
  exists b,
    answer (try_catch (array_some (name_matches toLowerCase agentName) items)
              (fun _ => Return false)) rest = ([], Fulfilled b)
    /\ (b = true -> exists a, a ∈ items /\ matches agentName a)
    /\ ((forall a, a ∈ items -> exists n, prop "name" a = Some (JStr n)) ->
        (exists a, a ∈ items /\ matches agentName a) -> b = true)
    /\ (forall pre bad post,
          items = (pre ++ bad :: post)%list ->
          (forall a, a ∈ pre -> exists n, prop "name" a = Some (JStr n)
                                          /\ toLowerCase n <> toLowerCase agentName) ->
          (forall n, prop "name" bad <> Some (JStr n)) ->
          b = false).
Proof.
  induction items as [|a items IH].
  - exists false. split; [done|]. split; [done|]. split.
    + intros _ (a & Ha & _). by apply elem_of_nil in Ha.
    + done.
  - destruct IH as (b & Hb & Hfound & Hall & Hbad).
    cbn [array_some]. unfold mbind, script_mbind.
    destruct (name_matches_cases agentName a) as [(n & Hn & ->)|(Hn & ->)];
      cbn [script_bind].
    + destruct (String.eqb (toLowerCase n) (toLowerCase agentName)) eqn:Heqb.
      * apply String.eqb_eq in Heqb. exists true. split; [done|]. split; [|split].
        -- intros _. exists a. split; [by left|]. by exists n.
        -- done.
        -- intros [|a0 pre] bad post Heq Hpre Hb'.
           ++ injection Heq as <- ->. by destruct (Hb' n).
           ++ injection Heq as <- ->.
              destruct (Hpre a) as (n' & Hn' & Hne); [by left|]. congruence.
      * apply String.eqb_neq in Heqb. exists b. split; [done|]. split; [|split].
        -- intros Ht. destruct (Hfound Ht) as (a0 & Ha0 & Hm). exists a0.
           split; [by right|done].
        -- intros Hwf (a0 & Ha0 & n0 & Hn0 & Hm). apply Hall.
           ++ intros a1 Ha1. apply Hwf. by right.
           ++ exists a0. split; [|by exists n0].
              apply elem_of_cons in Ha0 as [->|]; [congruence|done].
        -- intros [|a0 pre] bad post Heq Hpre Hb'.
           ++ injection Heq as <- ->. by destruct (Hb' n).
           ++ injection Heq as <- ->. apply (Hbad pre bad post); [done| |done].
              intros a1 Ha1. apply Hpre. by right.
    + exists false. split; [done|]. split; [done|]. split.
      * intros Hwf. destruct (Hwf a) as [n' Hn']; [by left|]. by destruct (Hn n').
      * done.
Qed.

Lemma answer_agentExists agentName r rest :
  answer (agentExists toLowerCase agentName) (r :: rest)
  = ([("agents.list", None)],
     match r with
     | Resolves (Some d) =>
         match d with
         | JNull => Fulfilled false
         | _ =>
             match prop "agents" d with
             | Some (JArr items) =>
                 snd (answer (try_catch
                                (array_some (name_matches toLowerCase agentName) items)
                                (fun _ => Return false)) rest)
             | _ => Fulfilled false
             end
         end
     | _ => Fulfilled false
     end).
Proof.
  unfold agentExists. rewrite answer_listAgents_then.
  destruct r as [[d|]|e]; try done.
  assert (Hd : d = JNull \/ d <> JNull) by (destruct d; auto).
  destruct Hd as [-> | Hd]; [done|].
  assert (Hgoal : forall x : json,
            answer (try_catch
                      match x with
                      | JArr items =>
                          array_some (name_matches toLowerCase agentName) items
                      | _ => Throw TypeError
                      end (fun _ => Return false)) rest
            = ([], match x with
                   | JArr items =>
                       snd (answer (try_catch
                              (array_some (name_matches toLowerCase agentName) items)
                              (fun _ => Return false)) rest)
                   | _ => Fulfilled false
                   end)).
  { intros x. destruct x; try done.
    destruct (answer_some_names agentName items rest) as (b & -> & _). done. }
  destruct d; try done; cbn [prop]; rewrite Hgoal;
    try done.
  destruct (member "agents" members) as [[| b | n | s | items |]|]; try done.
  - by destruct b.
  - cbn. by destruct (n =? 0)%Z.
  - cbn. by destruct (s =? "").
Qed.

(** X16.  [agentExists()] makes one request, "agents.list" without
    params, and never fails: whatever the reply, and whatever the shape
    of the payload, the promise it returns is fulfilled with a boolean
    as soon as the reply is in. *)
Theorem agentExists_never_fails agentName replies :
  fst (answer (agentExists toLowerCase agentName) replies) = [("agents.list", None)]
  /\ match snd (answer (agentExists toLowerCase agentName) replies) with
     | Fulfilled _ => replies <> []
     | Failed _ => False
     | Waiting => replies = []
     end.
Proof.
  destruct replies as [|r rest]; [done|].
  rewrite answer_agentExists. cbn [fst snd]. split; [done|].
  destruct r as [[d|]|e]; try done.
  destruct d; try done. cbn [prop].
  destruct (member "agents" members) as [[| | | |items|]|]; try done.
  by destruct (answer_some_names agentName items rest) as (b & -> & _).
Qed.

(** X17.  What [agentExists()] answers when the payload holds an array
    of agents.  The answer [true] always comes from an element whose
    name, lower-cased, equals the lower-cased argument.  When every
    element has a string for a name, the answer is [true] exactly when
    there is such an element.  An element without a string for a name
    makes the answer [false] if no element before it matches, whatever
    comes after it: the TypeError it raises ends the search. *)
Theorem agentExists_answer agentName d items rest :
  prop "agents" d = Some (JArr items) ->
  exists b,
    answer (agentExists toLowerCase agentName) (Resolves (Some d) :: rest)
    = ([("agents.list", None)], Fulfilled b)
    /\ (b = true -> exists a, a ∈ items /\ matches agentName a)
    /\ ((forall a, a ∈ items -> exists n, prop "name" a = Some (JStr n)) ->
        (exists a, a ∈ items /\ matches agentName a) -> b = true)
    /\ (forall pre bad post,
          items = (pre ++ bad :: post)%list ->
          (forall a, a ∈ pre -> exists n, prop "name" a = Some (JStr n)
                                          /\ toLowerCase n <> toLowerCase agentName) ->
          (forall n, prop "name" bad <> Some (JStr n)) ->
          b = false).
Proof.
  intros Hd. destruct (answer_some_names agentName items rest) as (b & Hb & H).
  exists b. split; [|done]. rewrite answer_agentExists.
  destruct d; try done. by rewrite Hd, Hb.
Qed.

Lemma array_some_ext (f g : json -> script bool) items :
  (forall a, f a = g a) -> array_some f items = array_some g items.
Proof.
  intros H. induction items as [|a items IH]; [done|].
  cbn. by rewrite H, IH.
Qed.

(** X18.  [agentExists()] does not tell apart two names that are equal
    once lower-cased: on the same replies it makes the same requests
    and gives the same answer for both. *)
Theorem agentExists_ignores_case a b replies :
  toLowerCase a = toLowerCase b ->
  answer (agentExists toLowerCase a) replies
  = answer (agentExists toLowerCase b) replies.
Proof.
  intros H. destruct replies as [|r rest]; [done|].
  rewrite !answer_agentExists.
  assert (Hf : forall items,
            array_some (name_matches toLowerCase a) items
            = array_some (name_matches toLowerCase b) items).
  { intros items. apply array_some_ext. intros x. unfold name_matches. by rewrite H. }
  destruct r as [[d|]|e]; try done.
  destruct d; try done. cbn [prop].
  destruct (member "agents" members) as [[| | | |items|]|]; try done.
  by rewrite Hf.
Qed.

End AgentExistsProperties.

Lemma agentExists_answer_witness :
  exists b,
    answer (agentExists (fun s => if String.eqb s "Scout" then "scout" else s) "scout")
      [Resolves (Some (JObj [("agents",
                              JArr [JObj [("name", JStr "main")];
                                    JObj [("name", JStr "Scout")]])]))]
    = ([("agents.list", None)], Fulfilled b)
    /\ (b = true ->
        exists a, a ∈ [JObj [("name", JStr "main")]; JObj [("name", JStr "Scout")]]
          /\ exists n, prop "name" a = Some (JStr n)
                       /\ (if String.eqb n "Scout" then "scout" else n)
                          = (if String.eqb "scout" "Scout" then "scout" else "scout")).
Proof.
  destruct (agentExists_answer
              (fun s => if String.eqb s "Scout" then "scout" else s) "scout"
              (JObj [("agents", JArr [JObj [("name", JStr "main")];
                                      JObj [("name", JStr "Scout")]])])
              [JObj [("name", JStr "main")]; JObj [("name", JStr "Scout")]] []
              eq_refl) as (b & H1 & H2 & _).
  exists b. split; [exact H1|exact H2].
Defined.

Lemma agentExists_ignores_case_witness :
  answer (agentExists (fun s => if String.eqb s "Scout" then "scout" else s) "Scout")
    [Resolves (Some (JObj [("agents", JArr [JObj [("name", JStr "scout")]])]))]
  = answer (agentExists (fun s => if String.eqb s "Scout" then "scout" else s) "scout")
      [Resolves (Some (JObj [("agents", JArr [JObj [("name", JStr "scout")]])]))].
Proof.
  exact (agentExists_ignores_case
           (fun s => if String.eqb s "Scout" then "scout" else s) "Scout" "scout"
           [Resolves (Some (JObj [("agents", JArr [JObj [("name", JStr "scout")]])]))]
           eq_refl).
Defined.

(** ** createAgent and updateAgentFile (client.ts 282-323) *)

Lemma answer_bind_assoc {A B C} (f : A -> script B) (g : B -> script C) s replies :
  answer (script_bind g (script_bind f s)) replies
  = answer (script_bind (fun x => script_bind g (f x)) s) replies.
Proof.
  revert replies. induction s as [a|e|m ps k1 IH1 k2 IH2]; intros replies; try done.
  cbn. destruct replies as [|[v|e] rest]; [done|..]; by rewrite ?IH1, ?IH2.
Qed.

(** One turn of the loop: the request goes out; a rejection leaves the
    function, anything else lets it go on. *)
Lemma answer_update_then {B} name file (K : script B) replies :
  answer (script_bind (fun _ => K)
            (updateAgentFile name (filename file) (content file))) replies
  = match replies with
    | [] => ([write_request name file], Waiting)
    | Resolves _ :: rest =>
        let '(requests, out) := answer K rest in
        (write_request name file :: requests, out)
    | Rejects e :: _ => ([write_request name file], Failed (Rejection e))
    end.
Proof. by destruct replies as [|[v|e] rest]. Qed.

Lemma answer_write_files_cons {B} name file files (K : script B) replies :
  answer (script_bind (fun _ => K) (write_files name (file :: files))) replies
  = match replies with
    | [] => ([write_request name file], Waiting)
    | Resolves _ :: rest =>
        let '(requests, out) :=
          answer (script_bind (fun _ => K) (write_files name files)) rest in
        (write_request name file :: requests, out)
    | Rejects e :: _ => ([write_request name file], Failed (Rejection e))
    end.
Proof.
  cbn [write_files]. unfold mbind, script_mbind.
  rewrite answer_bind_assoc. apply answer_update_then.
Qed.

(** Every write is acknowledged: the loop runs to its end. *)
Lemma write_files_resolved {B} name files (K : script B) vs rest :
  length vs = length files ->
  answer (script_bind (fun _ => K) (write_files name files))
    (map Resolves vs ++ rest)%list
  = ((map (write_request name) files ++ fst (answer K rest))%list,
     snd (answer K rest)).
Proof.
  revert vs. induction files as [|file files IH]; intros [|v vs] Hlen; try done.
  - cbn. by destruct (answer K rest).
  - rewrite answer_write_files_cons. cbn [map app].
    rewrite IH by (cbn in Hlen; lia). done.
Qed.

(** A write is refused: the loop ends there. *)
Lemma write_files_rejected {B} name files (K : script B) vs e rest :
  length vs < length files ->
  answer (script_bind (fun _ => K) (write_files name files))
    (map Resolves vs ++ Rejects e :: rest)%list
  = (take (S (length vs)) (map (write_request name) files), Failed (Rejection e)).
Proof.
  revert vs. induction files as [|file files IH]; intros vs Hlen; [cbn in Hlen; lia|].
  rewrite answer_write_files_cons. destruct vs as [|v vs]; [done|].
  cbn [map app]. rewrite IH by (cbn in Hlen; lia). done.
Qed.

Lemma write_files_requests {B} name files (K : script B) replies :
  (forall rs, fst (answer K rs) = []) ->
  fst (answer (script_bind (fun _ => K) (write_files name files)) replies)
  `prefix_of` map (write_request name) files.
Proof.
  intros HK. revert replies.
  induction files as [|file files IH]; intros replies.
  - cbn. rewrite HK. done.
  - rewrite answer_write_files_cons. destruct replies as [|[v|e] rest].
    + cbn. by apply prefix_cons, prefix_nil.
    + specialize (IH rest). destruct (answer _ rest) as [requests out].
      cbn in *. by apply prefix_cons.
    + cbn. by apply prefix_cons, prefix_nil.
Qed.

(** [createAgent] once the first reply is in. *)
Lemma answer_createAgent name workspace files r rest :
  answer (createAgent name workspace files) (r :: rest)
  = match r with
    | Rejects e => ([hd ("", None) (planned name workspace files)], Failed (Rejection e))
    | Resolves result =>
        let '(requests, out) :=
          answer (script_bind
                    (fun _ => agent ← read "agent" result;
                              Return {| success := true; agent := agent |})
                    (write_files name (default [] files))) rest in
        (hd ("", None) (planned name workspace files) :: requests, out)
    end.
Proof.
  unfold createAgent. rewrite answer_rethrow.
  destruct r as [result|e]; [|done].
  by destruct files as [[|file files]|].
Qed.

Lemma read_makes_no_request result rs :
  fst (answer (agent ← read "agent" result;
               Return {| success := true; agent := agent |}) rs) = [].
Proof. by destruct result as [[]|]. Qed.

(** X19.  [createAgent()] makes its requests in a fixed order:
    "agents.create" with the name and the workspace, then one
    "agents.writeFile" per file, in the order of [params.files], each
    sent only when the one before it has been acknowledged.  At no
    time has it made any other request.  When all are acknowledged and
    the payload of the first is an object, it yields [success: true]
    with the [agent] member of that payload; the payloads of the writes
    are not looked at. *)
Theorem createAgent_in_order name workspace files :
  (forall replies,
     fst (answer (createAgent name workspace files) replies)
     `prefix_of` planned name workspace files)
  /\ (forall d vs,
        d <> JNull -> length vs = length (default [] files) ->
        answer (createAgent name workspace files)
          (Resolves (Some d) :: map Resolves vs)
        = (planned name workspace files,
           Fulfilled {| success := true; agent := prop "agent" d |})).
Proof.
  split.
  - intros [|r rest]; [by apply prefix_cons, prefix_nil|].
    rewrite answer_createAgent. destruct r as [result|e].
    + pose proof (write_files_requests name (default [] files)
                    (agent ← read "agent" result;
                     Return {| success := true; agent := agent |}) rest
                    (read_makes_no_request result)) as H.
      destruct (answer _ rest) as [requests out]. cbn in *. by apply prefix_cons.
    + by apply prefix_cons, prefix_nil.
  - intros d vs Hd Hlen. rewrite answer_createAgent.
    pose proof (write_files_resolved name (default [] files)
                  (agent ← read "agent" (Some d);
                   Return {| success := true; agent := agent |}) vs [] Hlen) as H.
    rewrite app_nil_r in H. rewrite H.
    unfold planned. cbn [hd]. destruct d; try done; cbn; by rewrite app_nil_r.
Qed.

Lemma createAgent_in_order_witness :
  answer (createAgent "scout" "/w"
            (Some [{| filename := "SOUL.md"; content := "a" |};
                   {| filename := "AGENTS.md"; content := "b" |}]))
    (Resolves (Some (JObj [("agent", JStr "scout")]))
     :: map Resolves [None; None])
  = (planned "scout" "/w"
       (Some [{| filename := "SOUL.md"; content := "a" |};
              {| filename := "AGENTS.md"; content := "b" |}]),
     Fulfilled {| success := true;
                  agent := prop "agent" (JObj [("agent", JStr "scout")]) |}).
Proof.
  apply (proj2 (createAgent_in_order "scout" "/w"
                  (Some [{| filename := "SOUL.md"; content := "a" |};
                         {| filename := "AGENTS.md"; content := "b" |}]))).
  - discriminate.
  - reflexivity.
Defined.

(** X20.  How [createAgent()] fails.  A rejected request ends it at
    once with the reason of that rejection: the requests made are those
    up to and including the rejected one, the files after it are not
    written, and nothing is undone (no further request is made).  When
    every request is acknowledged but the payload of "agents.create" is
    [undefined] or [null], it fails with a TypeError only after all the
    files have been written. *)
Theorem createAgent_failure name workspace files :
  (forall vs e rest,
     length vs < length (planned name workspace files) ->
     answer (createAgent name workspace files)
       (map Resolves vs ++ Rejects e :: rest)%list
     = (take (S (length vs)) (planned name workspace files),
        Failed (Rejection e)))
  /\ (forall result vs,
        result = None \/ result = Some JNull ->
        length vs = length (default [] files) ->
        answer (createAgent name workspace files)
          (Resolves result :: map Resolves vs)
        = (planned name workspace files, Failed TypeError)).
Proof.
  split.
  - intros [|v vs] e rest Hlen.
    + cbn [map app]. by rewrite answer_createAgent.
    + cbn [map app]. rewrite answer_createAgent.
      rewrite write_files_rejected.
      * done.
      * unfold planned in Hlen. cbn in Hlen. rewrite length_map in Hlen. lia.
  - intros result vs Hres Hlen. rewrite answer_createAgent.
    pose proof (write_files_resolved name (default [] files)
                  (agent ← read "agent" result;
                   Return {| success := true; agent := agent |}) vs [] Hlen) as H.
    rewrite app_nil_r in H. rewrite H.
    unfold planned. cbn [hd]. destruct Hres as [-> | ->]; cbn; by rewrite app_nil_r.
Qed.

Lemma createAgent_failure_witness :
  answer (createAgent "scout" "/w"
            (Some [{| filename := "SOUL.md"; content := "a" |};
                   {| filename := "AGENTS.md"; content := "b" |}]))
    (map Resolves [Some (JObj [])] ++ Rejects (Error "disk full") :: [])%list
  = (take 2 (planned "scout" "/w"
               (Some [{| filename := "SOUL.md"; content := "a" |};
                      {| filename := "AGENTS.md"; content := "b" |}])),
     Failed (Rejection (Error "disk full"))).
Proof.
  apply (proj1 (createAgent_failure "scout" "/w"
                  (Some [{| filename := "SOUL.md"; content := "a" |};
                         {| filename := "AGENTS.md"; content := "b" |}]))
           [Some (JObj [])]).
  cbn. lia.
Defined.

(** * Further invariants of the client *)

(** X21.  In every state the client can reach, at most one reconnect
    timer is armed, and it is the one held in [reconnectTimer]; none is
    armed while auto-reconnect is off, and none before the handshake
    has succeeded for the first time.  Every reconnect timer ever made
    waits 10000 ms.  A client whose [connected] flag is set has emitted
    'connected'. *)
Theorem reconnect_timer_unique st :
  reachable st ->
  armed_reconnects st = option_list (reconnectTimer st)
  /\ length (armed_reconnects st) <= 1
  /\ (autoReconnect st = false -> armed_reconnects st = [])
  /\ (ever_authenticated st = false -> armed_reconnects st = [])
  /\ (forall t tm, timers st !! t = Some tm -> is_reconnect tm = true ->
        t_delay tm = 10000%Z)
  /\ (connected st = true -> ever_authenticated st = true).
Proof.
  intros R. pose proof (reachable_consistent _ R) as C.
  pose proof (consistent_armed_reconnects _ C) as H.
  split_and!.
  - done.
  - rewrite H. destruct (reconnectTimer st); cbn; lia.
  - intros Hoff. by rewrite H, (off_no_timer _ C Hoff).
  - intros Hn. destruct (never_authenticated _ C Hn) as (_ & Hr & _).
    by rewrite H, Hr.
  - apply (reconnect_delay _ C).
  - intros Hc. destruct (ever_authenticated st) eqn:E; [done|].
    destruct (never_authenticated _ C E) as (Hc' & _). congruence.
Qed.

Lemma reconnect_timer_unique_witness :
  armed_reconnects (run [SocketCloses 0] session)
  = option_list (reconnectTimer (run [SocketCloses 0] session)).
Proof.
  exact (proj1 (reconnect_timer_unique (run [SocketCloses 0] session)
                  (reachable_run [SocketCloses 0] session session_reachable))).
Defined.

(** ** disconnect, twice (client.ts 335-349) *)

(** X22.  [disconnect()] may be called any number of times: from any
    state, a second call changes nothing. *)
Theorem disconnect_idempotent st : disconnect (disconnect st) = disconnect st.
Proof.
  destruct (disconnect_session st) as (Hws & Hc & Ha & Hing).
  assert (Hr : reconnectTimer (disconnect st) = None).
  { unfold disconnect. cbn. by repeat case_match. }
  assert (Hauto : autoReconnect (disconnect st) = false)
    by apply disconnect_autoReconnect.
  generalize dependent (disconnect st). intros st' Hws Hc Ha Hing Hr Hauto.
  unfold disconnect.
  change (reconnectTimer (set_autoReconnect false st')) with (reconnectTimer st').
  rewrite Hr.
  change (ws (set_autoReconnect false st')) with (ws st').
  rewrite Hws.
  destruct st'. cbn in *. by subst.
Qed.

(** ** call on a connected client (client.ts 222-243) *)

(** X23.  When [isConnected()] is true, [call()] is accepted and the
    request goes out at once: the frame [{type: "req", id, method,
    params}] (without [params] when it is [undefined]) is appended to
    what the current socket has sent, no other socket sends anything,
    the entry is stored under the id, a 30000 ms timer is armed for it,
    the promise is undecided, and the client is still connected. *)
Theorem call_sends_frame method params uuid st i s :
  isConnected st = true -> ws st = Some i -> sockets st !! i = Some s ->
  let p := length (promises st) in
  let st1 := snd (call method params uuid st) in
  fst (call method params uuid st) = Awaiting p
  /\ sockets st1 !! i
     = Some (with_sent (s_sent s ++ [request_frame uuid method params]) s)
  /\ (forall j, j <> i -> sockets st1 !! j = sockets st !! j)
  /\ pendingRequests st1 = <[uuid := CallHandlers p]> (pendingRequests st)
  /\ timers st1
     = (timers st ++ [{| t_action := RequestTimeout uuid method p;
                         t_delay := 30000; t_active := true |}])%list
  /\ promise_state_of p st1 = Some Pending
  /\ isConnected st1 = true.
Proof.
  intros Hcon Hws Hs p st1.
  unfold isConnected in Hcon.
  apply andb_true_iff in Hcon as [[Hc Ha]%andb_true_iff Hopen].
  unfold ws_open in Hopen. rewrite Hws in Hopen.
  assert (Hr : readyState s = OPEN).
  { unfold socket_is in Hopen. rewrite Hs in Hopen. by destruct (readyState s). }
  assert (Heq : call method params uuid st
    = (Awaiting p,
       update_socket i (transmit (request_frame uuid method params))
         (set_timers
            (timers st ++ [{| t_action := RequestTimeout uuid method p;
                              t_delay := 30000; t_active := true |}])
            (set_pendingRequests (<[uuid := CallHandlers p]> (pendingRequests st))
               (set_promises
                  (promises st ++ [{| p_state := Pending; p_retry := 0 |}]) st))))).
  { unfold call. rewrite Hws, Hc, Ha. cbn [andb].
    unfold new_promise, setTimeout, socket_send. cbv beta iota zeta.
    change (socket_is CONNECTING i _) with (socket_is CONNECTING i st).
    unfold socket_is. by rewrite Hs, Hr. }
  unfold st1. rewrite Heq. cbn [fst snd]. split_and!; try done.
  - cbn. rewrite list_lookup_alter_eq, Hs. cbn. unfold transmit. by rewrite Hr.
  - intros j Hj. cbn. by rewrite list_lookup_alter_ne.
  - unfold promise_state_of. cbn. unfold p.
    by rewrite lookup_app_r, Nat.sub_diag by lia.
  - unfold isConnected, ws_open, socket_is. cbn. rewrite Hc, Ha, Hws.
    rewrite list_lookup_alter_eq, Hs. cbn. unfold transmit. rewrite Hr. cbn.
    by rewrite Hr.
Qed.

Lemma call_sends_frame_witness :
  sockets (snd (call "sessions.list" None "rq-1" session)) !! 0
  = Some (with_sent
            (s_sent {| readyState := OPEN; onopen := true; onclose := true;
                       onerror := true; onmessage := true; s_promise := 0;
                       s_timeout := 0;
                       s_sent := [connect_request "hs-1" "secret"] |}
             ++ [request_frame "rq-1" "sessions.list" None])
            {| readyState := OPEN; onopen := true; onclose := true;
               onerror := true; onmessage := true; s_promise := 0;
               s_timeout := 0;
               s_sent := [connect_request "hs-1" "secret"] |}).
Proof.
  assert (Hc : isConnected session = true) by (vm_compute; reflexivity).
  assert (Hws : ws session = Some 0) by (vm_compute; reflexivity).
  assert (Hs : sockets session !! 0
               = Some {| readyState := OPEN; onopen := true; onclose := true;
                         onerror := true; onmessage := true; s_promise := 0;
                         s_timeout := 0;
                         s_sent := [connect_request "hs-1" "secret"] |})
    by (vm_compute; reflexivity).
  exact (proj1 (proj2
    (call_sends_frame "sessions.list" None "rq-1" session 0 _ Hc Hws Hs))).
Defined.

(** ** Frames that are not objects (client.ts 101-105, 153-155, 166-203) *)

(** X24.  A frame that [JSON.parse] rejects, and a frame that parses to
    anything but an object ([null], a boolean, a number, a string, an
    array), changes nothing: no field of the client, no socket, no
    timer, no promise, and nothing is emitted. *)
Theorem non_object_frame_ignored st i parsed u :
  (forall ms, parsed <> Some (JObj ms)) ->
  step (SocketReceives i parsed u) st = st.
Proof.
  intros Hn. cbn [step]. repeat case_match; try done.
  unfold ws_onmessage. destruct parsed as [data|]; [|done].
  destruct data; try done; by destruct (Hn members).
Qed.

Lemma non_object_frame_ignored_witness :
  step (SocketReceives 0 (Some (JArr [JStr "res"])) "unused") session = session.
Proof.
  apply non_object_frame_ignored. discriminate.
Defined.
